(** * instrumentsToPprof: the text-to-tree parsers and the pprof converter

    A shallow embedding of the Go sources of google/instrumentsToPprof:

    - the tree model ([Frame], [Thread], [Process], [TimeProfile]);
    - the [sample] parser ([ParseSample] and its helpers);
    - the Instruments deep-copy parser ([DeepCopyParser.ParseProfile]);
    - the collapsed-stack parser ([CollapsedParser.ParseProfile]);
    - the converter ([TimeProfileToPprof]).

    Go pointers are addresses into an explicit store, [nil] is [None], and
    every dereference is a fallible operation.  A Go function call ends in one
    of four ways, which [outcome] keeps apart: a returned value, a returned
    error value, a run-time panic, or no return at all.

    Strings are byte strings, as in Go.  [strings.TrimSpace] trims the white
    space of Unicode, which it reads from the UTF-8 encoding of the text. *)

From Stdlib Require Import ZArith NArith String Ascii Lia.
From Stdlib Require Import DecimalString HexadecimalString.
From Stdlib Require DecimalN DecimalPos.
From stdpp Require Import base option list gmap strings.

Local Open Scope Z_scope.

(** ** Outcomes of a Go call *)

Inductive outcome (A : Type) : Type :=
| Ok (a : A)            (* the call returned a value and a nil error *)
| Err (msg : string)    (* the call returned a non-nil error *)
| Panic (msg : string)  (* run-time panic *)
| Diverge.              (* the call does not return *)

Arguments Ok {A} a.
Arguments Err {A} msg.
Arguments Panic {A} msg.
Arguments Diverge {A}.

Definition bind {A B : Type} (m : outcome A) (k : A -> outcome B) : outcome B :=
  match m with
  | Ok a => k a
  | Err e => Err e
  | Panic e => Panic e
  | Diverge => Diverge
  end.

Notation "'do' x <- m ; k" := (bind m (fun x => k))
  (at level 10, x pattern, m at level 100, k at level 200,
   format "'[v' 'do'  x  <-  m ; '/' k ']'").

Definition nil_dereference : string :=
  "invalid memory address or nil pointer dereference".
Definition index_out_of_range : string := "index out of range".
Definition slice_out_of_range : string := "slice bounds out of range".

Definition mapOutcome {A B : Type} (f : A -> B) (m : outcome A) : outcome B :=
  do a <- m; Ok (f a).

(** ** The Go string library, as far as the sources use it *)

Module GoStrings.

(* The white space below U+0080: tab, line feed, vertical tab, form feed,
   carriage return and space. *)
Definition isSpace (c : ascii) : bool :=
  match N_of_ascii c with
  | 9 | 10 | 11 | 12 | 13 | 32 => true
  | _ => false
  end%N.

Definition isDigit (c : ascii) : bool :=
  let n := N_of_ascii c in ((48 <=? n) && (n <=? 57))%N.

(* [span p s]: the longest prefix of [s] whose bytes satisfy [p], and the
   rest of [s]. *)
Fixpoint span (p : ascii -> bool) (s : string) : string * string :=
  match s with
  | EmptyString => (EmptyString, EmptyString)
  | String c s' =>
      if p c then let '(a, b) := span p s' in (String c a, b)
      else (EmptyString, s)
  end.

Fixpoint dropWhile (p : ascii -> bool) (s : string) : string :=
  match s with
  | EmptyString => EmptyString
  | String c s' => if p c then dropWhile p s' else s
  end.

(* unicode.IsSpace on the runes that take two bytes in UTF-8: U+0085 (C2 85)
   and U+00A0 (C2 A0). *)
Definition isSpace2 (c d : ascii) : bool :=
  ((N_of_ascii c =? 194) &&
   ((N_of_ascii d =? 133) || (N_of_ascii d =? 160)))%N.

(* unicode.IsSpace on the runes that take three bytes: U+1680 (E1 9A 80),
   U+2000 to U+200A (E2 80 80 to E2 80 8A), U+2028, U+2029 and U+202F
   (E2 80 A8, E2 80 A9, E2 80 AF), U+205F (E2 81 9F) and U+3000 (E3 80 80).
   No rune of four bytes is white space. *)
Definition isSpace3 (c d e : ascii) : bool :=
  let c := N_of_ascii c in
  let d := N_of_ascii d in
  let e := N_of_ascii e in
  (((c =? 225) && (d =? 154) && (e =? 128)) ||
   ((c =? 226) && (d =? 128) &&
    (((128 <=? e) && (e <=? 138)) || (e =? 168) || (e =? 169) || (e =? 175))) ||
   ((c =? 226) && (d =? 129) && (e =? 159)) ||
   ((c =? 227) && (d =? 128) && (e =? 128)))%N.

(* The text without the white-space runes it starts with.  [p2] and [p3]
   recognise the white space of two and of three bytes.  A byte sequence
   that is no encoding of a rune decodes to U+FFFD, which is no white space:
   the trimming stops there. *)
Fixpoint dropSpaceRunes (p2 : ascii -> ascii -> bool)
    (p3 : ascii -> ascii -> ascii -> bool) (s : string) : string :=
  match s with
  | EmptyString => EmptyString
  | String c r =>
      if isSpace c then dropSpaceRunes p2 p3 r
      else
        match r with
        | EmptyString => s
        | String d r' =>
            if p2 c d then dropSpaceRunes p2 p3 r'
            else
              match r' with
              | EmptyString => s
              | String e r'' =>
                  if p3 c d e then dropSpaceRunes p2 p3 r'' else s
              end
        end
  end.

Definition reverseBytes (s : string) : string :=
  string_of_list_ascii (rev (list_ascii_of_string s)).

(* strings.TrimSpace(s): TrimFunc(s, unicode.IsSpace), that is the white
   space at the start is cut off rune by rune, and then the white space at
   the end.  The last rune of a text is white space when the text ends with
   the encoding of a white-space rune (every such encoding is one start
   byte followed by continuation bytes, so utf8.DecodeLastRuneInString
   finds it); the end is trimmed on the reversed bytes, with the encodings
   read backwards. *)
Definition TrimSpace (s : string) : string :=
  reverseBytes
    (dropSpaceRunes (fun a b => isSpace2 b a) (fun a b c => isSpace3 c b a)
       (reverseBytes (dropSpaceRunes isSpace2 isSpace3 s))).

(* strings.TrimLeft(s, " ") *)
Definition TrimLeft (s : string) (c : ascii) : string :=
  dropWhile (Ascii.eqb c) s.

Definition HasPrefix (s p : string) : bool := String.prefix p s.

(* strings.Split(s, sep) for a one-byte separator: always at least one
   piece. *)
Fixpoint Split (s : string) (sep : ascii) : list string :=
  match s with
  | EmptyString => [EmptyString]
  | String c s' =>
      if Ascii.eqb c sep then EmptyString :: Split s' sep
      else match Split s' sep with
           | p :: ps => String c p :: ps
           | [] => [String c EmptyString]
           end
  end.

(* strings.LastIndex(s, sep) for a one-byte separator; -1 when absent. *)
Fixpoint LastIndex (s : string) (sep : ascii) : Z :=
  match s with
  | EmptyString => -1
  | String c s' =>
      let r := LastIndex s' sep in
      if 0 <=? r then r + 1
      else if Ascii.eqb c sep then 0 else -1
  end.

(* s[lo:hi] *)
Definition slice (s : string) (lo hi : Z) : outcome string :=
  if (0 <=? lo) && (lo <=? hi) && (hi <=? Z.of_nat (String.length s))
  then Ok (String.substring (Z.to_nat lo) (Z.to_nat (hi - lo)) s)
  else Panic slice_out_of_range.

(* len(s) *)
Definition len (s : string) : Z := Z.of_nat (String.length s).

Definition tab : string := String "009" EmptyString.
Definition newline : string := String "010" EmptyString.

End GoStrings.

Module GoStrconv.
Import GoStrings.

Definition int64_max : Z := 2 ^ 63 - 1.
Definition int64_min : Z := - 2 ^ 63.
Definition uint64_max : N := (2 ^ 64 - 1)%N.

Definition digitVal (c : ascii) : N := (N_of_ascii c - 48)%N.

Definition hexVal (c : ascii) : option N :=
  let n := N_of_ascii c in
  if ((48 <=? n) && (n <=? 57))%N then Some (n - 48)%N
  else if ((97 <=? n) && (n <=? 102))%N then Some (n - 87)%N
  else if ((65 <=? n) && (n <=? 70))%N then Some (n - 55)%N
  else None.

(* the value of a string of digits in [base], most significant first;
   [None] on a byte that is not a digit of the base *)
Fixpoint digitsFrom (base : N) (acc : N) (s : string) : option N :=
  match s with
  | EmptyString => Some acc
  | String c s' =>
      match hexVal c with
      | Some d => if (d <? base)%N then digitsFrom base (acc * base + d)%N s'
                  else None
      | None => None
      end
  end.

Definition syntaxError : string := "invalid syntax".
Definition rangeError : string := "value out of range".

(* strconv.ParseUint(s, base, 64) for base 10 or 16: the value and the
   error; on a range error the value is the largest uint64. *)
Definition ParseUint (s : string) (base : N) : N * option string :=
  match s with
  | EmptyString => (0%N, Some syntaxError)
  | _ =>
      match digitsFrom base 0 s with
      | None => (0%N, Some syntaxError)
      | Some v => if (v <=? uint64_max)%N then (v, None)
                  else (uint64_max, Some rangeError)
      end
  end.

(* strconv.ParseInt(s, 10, 64): an optional sign and decimal digits. *)
Definition ParseInt (s : string) : Z * option string :=
  let '(neg, body) :=
    match s with
    | String "+" r => (false, r)
    | String "-" r => (true, r)
    | _ => (false, s)
    end in
  match body with
  | EmptyString => (0, Some syntaxError)
  | _ =>
      match digitsFrom 10 0 body with
      | None => (0, Some syntaxError)
      | Some v =>
          let z := Z.of_N v in
          if neg then
            if z <=? 2 ^ 63 then (- z, None) else (int64_min, Some rangeError)
          else
            if z <=? int64_max then (z, None) else (int64_max, Some rangeError)
      end
  end.

(* strconv.Atoi on a 64-bit platform *)
Definition Atoi (s : string) : Z * option string := ParseInt s.

(* strconv.FormatUint(n, 10), and the verbs %d and %x of fmt on a uint64 *)
Definition FormatUint (n : N) : string :=
  DecimalString.NilZero.string_of_uint (N.to_uint n).
Definition FormatHex (n : N) : string :=
  HexadecimalString.NilZero.string_of_uint (N.to_hex_uint n).
(* the verb %d on an int *)
Definition FormatInt (z : Z) : string :=
  if z <? 0 then "-" +:+ FormatUint (Z.to_N (- z)) else FormatUint (Z.to_N z).

End GoStrconv.

(** int64 arithmetic wraps around. *)
Definition wrap64 (z : Z) : Z := (z + 2 ^ 63) mod 2 ^ 64 - 2 ^ 63.

(** ** The tree model (package internal) *)

(** A pointer is an address in the store, or nil. *)
Definition ptr : Type := option nat.

Module Frame.
Record t : Type := mk {
  Parent : ptr;
  Children : list ptr;
  SelfWeightNs : Z;
  SymbolName : string;
  Depth : Z
}.
Definition set_Parent (p : ptr) (f : t) : t :=
  mk p (Children f) (SelfWeightNs f) (SymbolName f) (Depth f).
Definition set_Children (c : list ptr) (f : t) : t :=
  mk (Parent f) c (SelfWeightNs f) (SymbolName f) (Depth f).
Definition set_SelfWeightNs (w : Z) (f : t) : t :=
  mk (Parent f) (Children f) w (SymbolName f) (Depth f).
End Frame.

Module Thread.
Record t : Type := mk {
  Name : string;
  Tid : N;
  Frames : list ptr
}.
Definition set_Frames (fs : list ptr) (th : t) : t :=
  mk (Name th) (Tid th) fs.
End Thread.

Module Process.
Record t : Type := mk {
  Name : string;
  Pid : N;
  Threads : list ptr
}.
Definition set_Threads (ths : list ptr) (p : t) : t :=
  mk (Name p) (Pid p) ths.
End Process.

Module TimeProfile.
Record t : Type := mk { Processes : list ptr }.
End TimeProfile.

(** The store: one arena per struct type; an address is an index. *)
Record Store : Type := mkStore {
  frames : list Frame.t;
  threads : list Thread.t;
  procs : list Process.t
}.

Definition emptyStore : Store := mkStore [] [] [].

Definition set_frames (fs : list Frame.t) (s : Store) : Store :=
  mkStore fs (threads s) (procs s).
Definition set_threads (ts : list Thread.t) (s : Store) : Store :=
  mkStore (frames s) ts (procs s).
Definition set_procs (ps : list Process.t) (s : Store) : Store :=
  mkStore (frames s) (threads s) ps.

(** Reading through a pointer: nil panics. *)
Definition deref {A : Type} (arena : list A) (p : ptr) : outcome A :=
  match p with
  | None => Panic nil_dereference
  | Some a =>
      match arena !! a with
      | Some x => Ok x
      | None => Panic nil_dereference
      end
  end.

(** Writing through a pointer. *)
Definition update {A : Type} (arena : list A) (p : ptr) (f : A -> A)
  : outcome (list A) :=
  do x <- deref arena p;
  match p with
  | Some a => Ok (<[a := f x]> arena)
  | None => Panic nil_dereference
  end.

(** Allocation: [&T{...}]. *)
Definition alloc {A : Type} (arena : list A) (x : A) : ptr * list A :=
  (Some (length arena), arena ++ [x]).

Definition allocFrame (f : Frame.t) (s : Store) : ptr * Store :=
  let '(p, fs) := alloc (frames s) f in (p, set_frames fs s).
Definition allocThread (th : Thread.t) (s : Store) : ptr * Store :=
  let '(p, ts) := alloc (threads s) th in (p, set_threads ts s).
Definition allocProcess (pr : Process.t) (s : Store) : ptr * Store :=
  let '(p, ps) := alloc (procs s) pr in (p, set_procs ps s).

(** ** Pure views of a stored tree, for stating what a parser produced *)

#[warnings="-register-all"]
Inductive FrameTree : Type :=
| NilFrame
| FrameNode (SymbolName : string) (Depth : Z) (SelfWeightNs : Z)
            (Children : list FrameTree).

(* The frame at [p] with everything below it; [NilFrame] for nil.  One unit
   of fuel per level. *)
Fixpoint frameTree (fuel : nat) (fs : list Frame.t) (p : ptr) : FrameTree :=
  match fuel with
  | O => NilFrame
  | S fuel' =>
      match p with
      | None => NilFrame
      | Some a =>
          match fs !! a with
          | None => NilFrame
          | Some f =>
              FrameNode (Frame.SymbolName f) (Frame.Depth f)
                (Frame.SelfWeightNs f)
                (map (frameTree fuel' fs) (Frame.Children f))
          end
      end
  end.

Definition threadTrees (s : Store) (th : Thread.t) : list FrameTree :=
  map (frameTree (S (length (frames s))) (frames s)) (Thread.Frames th).

Inductive ThreadTree : Type :=
| NilThread
| ThreadNode (Name : string) (Tid : N) (Frames : list FrameTree).

Inductive ProcessTree : Type :=
| NilProcess
| ProcessNode (Name : string) (Pid : N) (Threads : list ThreadTree).

Definition threadTree (s : Store) (p : ptr) : ThreadTree :=
  match p with
  | None => NilThread
  | Some a =>
      match threads s !! a with
      | None => NilThread
      | Some th => ThreadNode (Thread.Name th) (Thread.Tid th) (threadTrees s th)
      end
  end.

Definition processTree (s : Store) (p : ptr) : ProcessTree :=
  match p with
  | None => NilProcess
  | Some a =>
      match procs s !! a with
      | None => NilProcess
      | Some pr =>
          ProcessNode (Process.Name pr) (Process.Pid pr)
            (map (threadTree s) (Process.Threads pr))
      end
  end.

(* The profile as the test helper TimeProfileEquals looks at it. *)
Definition profileTree (r : Store * TimeProfile.t) : list ProcessTree :=
  map (processTree r.1) (TimeProfile.Processes r.2).

(* A frame's self weight and those of everything below it. *)
Fixpoint selfWeightSum (t : FrameTree) : Z :=
  match t with
  | NilFrame => 0
  | FrameNode _ _ w children =>
      w + fold_right (fun c acc => selfWeightSum c + acc) 0 children
  end.

(** ** The depth-tree reconstructor

    The two parsers that rebuild a tree from depths carry the same code for
    attaching a frame below the most recent one: lines 188-207 of
    [ParseSample] and lines 123-140 of [DeepCopyParser.ParseProfile]. *)

Module DepthTree.

(* parent.Children = append(parent.Children, currentFrame)
   currentFrame.Parent = parent *)
Definition appendChild (fs : list Frame.t) (parent currentFrame : ptr)
  : outcome (list Frame.t) :=
  do fs1 <- update fs parent
              (fun p => Frame.set_Children (Frame.Children p ++ [currentFrame]) p);
  update fs1 currentFrame (Frame.set_Parent parent).

(* var parent *Frame = lastFrame.Parent
   for {
     if parent.Depth == currentFrame.Depth-1 { ...; break }
     parent = parent.Parent
   }
   The loop has no exit but the break; a walk longer than the number of
   frames has entered a cycle of Parent links and never leaves it. *)
Fixpoint findParent (fuel : nat) (fs : list Frame.t) (parent currentFrame : ptr)
  : outcome (list Frame.t) :=
  match fuel with
  | O => Diverge
  | S fuel' =>
      do pf <- deref fs parent;
      do cf <- deref fs currentFrame;
      if Frame.Depth pf =? Frame.Depth cf - 1
      then appendChild fs parent currentFrame
      else findParent fuel' fs (Frame.Parent pf) currentFrame
  end.

(* } else if currentFrame.Depth > lastFrame.Depth {
     if currentFrame.Depth-lastFrame.Depth != 1 { return nil, error }
     lastFrame.Children = append(lastFrame.Children, currentFrame)
     currentFrame.Parent = lastFrame
   } else { find parent } *)
Definition attach (skipped : Frame.t -> Frame.t -> string)
    (fs : list Frame.t) (lastFrame currentFrame : ptr)
  : outcome (list Frame.t) :=
  do cf <- deref fs currentFrame;
  do lf <- deref fs lastFrame;
  if Frame.Depth cf >? Frame.Depth lf then
    if negb (Frame.Depth cf - Frame.Depth lf =? 1)
    then Err (skipped lf cf)
    else appendChild fs lastFrame currentFrame
  else findParent (S (length fs)) fs (Frame.Parent lf) currentFrame.

End DepthTree.

(** ** The sample parser *)

Module Sample.
Import GoStrings GoStrconv.

(* \s of Go's regexp: [\t\n\f\r ] *)
Definition reSpace (c : ascii) : bool :=
  match N_of_ascii c with
  | 9 | 10 | 12 | 13 | 32 => true
  | _ => false
  end%N.

(* [+\s!:|] *)
Definition reMarker (c : ascii) : bool :=
  reSpace c ||
  match c with
  | "+" | "!" | ":" | "|" => true
  | _ => false
  end%char.

(* functionRe, tried at the start of [s]: a run of markers (group 1), a
   run of one or more digits (group 2), one or more spaces, and the rest
   of the line (group 3).  The classes that follow each other are
   disjoint where it matters (no digit is a marker, no space is a digit),
   so the greedy match is the only one.  A line holds no newline, so the
   last group takes all the rest. *)
Definition functionRe_here (s : string) : option (string * string * string) :=
  let '(m1, r1) := span reMarker s in
  let '(m2, r2) := span isDigit r1 in
  let '(sp, m3) := span reSpace r2 in
  match m2, sp with
  | EmptyString, _ => None
  | _, EmptyString => None
  | _, _ => Some (m1, m2, m3)
  end.

(* FindStringSubmatch: the leftmost position with a match. *)
Fixpoint functionRe (s : string) : option (string * string * string) :=
  match functionRe_here s with
  | Some m => Some m
  | None =>
      match s with
      | EmptyString => None
      | String _ s' => functionRe s'
      end
  end.

Definition parseCallLine (line : string) : outcome Frame.t :=
  match functionRe line with
  | None => Err ("Failed to parse function line: " +:+ line)
  | Some (m1, m2, m3) =>
      match ParseInt m2 with
      | (_, Some e) => Err ("Error parsing function line " +:+ line +:+ ": " +:+ e)
      | (hits, None) =>
          Ok (Frame.mk None [] hits m3 (Z.quot (len m1) 2))
      end
  end.

Definition negativeWeight (f : Frame.t) : string :=
  "Fatal error parsing sample file. Frame " +:+ Frame.SymbolName f +:+
  " had negative weight. The file is either corrupt or this is a bug.".

(* fixSelfWeight returns an error or nil, and has changed the frames in
   both cases.  The error of the recursive call is not looked at.
   The recursion is as deep as the tree below [frame]; fuel beyond the
   number of frames is only used up in a store whose Children links form a
   cycle, which no parser builds. *)
Fixpoint fixSelfWeight (fuel : nat) (frame : ptr) (fs : list Frame.t)
  : outcome (option string * list Frame.t) :=
  match fuel with
  | O => Diverge
  | S fuel' =>
      do f0 <- deref fs frame;
      (fix range (children : list ptr) (fs : list Frame.t)
         : outcome (option string * list Frame.t) :=
         match children with
         | [] => Ok (None, fs)
         | child :: rest =>
             do f <- deref fs frame;
             do c <- deref fs child;
             let w := wrap64 (Frame.SelfWeightNs f - Frame.SelfWeightNs c) in
             do fs1 <- update fs frame (Frame.set_SelfWeightNs w);
             if w <? 0 then Ok (Some (negativeWeight f), fs1)
             else
               do r <- fixSelfWeight fuel' child fs1;
               range rest (snd r)
         end) (Frame.Children f0) fs
  end.

(* pidRe, with its first group ending here: a space, an opening bracket,
   one or more digits (group 2), a closing bracket; not anchored at the
   end *)
Definition pidRe_here (s : string) : option string :=
  match s with
  | String c (String "[" r) =>
      if reSpace c then
        match span isDigit r with
        | (EmptyString, _) => None
        | (d, String "]" _) => Some d
        | _ => None
        end
      else None
  | _ => None
  end.

(* The first group is greedy: the last place where the rest matches. *)
Fixpoint pidRe (s : string) : option (string * string) :=
  match s with
  | EmptyString => None
  | String c s' =>
      match pidRe s' with
      | Some (name, pid) => Some (String c name, pid)
      | None =>
          match pidRe_here s with
          | Some pid => Some (EmptyString, pid)
          | None => None
          end
      end
  end.

Definition parseProcess (line : string) : outcome Process.t :=
  let invalid_line := "Not valid process line " +:+ line in
  if negb (HasPrefix line "Process") then Err invalid_line
  else
    match Split line ":" with
    | [_; part] =>
        let pid_part := TrimSpace part in
        match pidRe pid_part with
        | None => Err ("Error parsing process and pid from " +:+ pid_part)
        | Some (name, digits) =>
            let '(pid, _) := ParseUint digits 10 in
            Ok (Process.mk name pid [])
        end
    | _ => Err invalid_line
    end.

(* parts[n-1], parts[n-2] are read before anything else *)
Definition parseSampleRate (line : string) : outcome Z :=
  let parts := Split line " " in
  let n := length parts in
  match parts !! (n - 1)%nat, (if (2 <=? n)%nat then parts !! (n - 2)%nat else None) with
  | Some _, Some _ => Ok 1000000
  | _, _ => Panic index_out_of_range
  end.

(* The successive results of buf.ReadString('\n') with data in them: each
   holds its newline, but for the last when the input does not end in one.
   The read after them returns "" and io.EOF. *)
Fixpoint ReadString (input : string) : list string :=
  match input with
  | EmptyString => []
  | String c rest =>
      if Ascii.eqb c "010" then String c EmptyString :: ReadString rest
      else match ReadString rest with
           | [] => [String c EmptyString]
           | l :: ls => String c l :: ls
           end
  end.

Definition checkReportVersion (line : string) : outcome unit :=
  match Split line ":" with
  | [_; v] =>
      match Atoi (TrimSpace v) with
      | (_, Some e) => Err ("Error parsing report version: " +:+ e)
      | (reportVersion, None) =>
          if negb (reportVersion =? 7)
          then Err ("Report Version was " +:+ FormatInt reportVersion +:+
                    ", only report version 7 is supported")
          else Ok tt
      end
  | _ => Err ("Could not parse report version line: " +:+ line)
  end.

(* The first loop of ParseSample (lines 114-154): the store, p.Processes
   and sampleRate as they are when the loop is left, and the lines not yet
   read. *)
Fixpoint parseHeader (lines : list string) (st : Store)
    (Processes : list ptr) (sampleRate : Z)
  : outcome (Store * list ptr * Z * list string) :=
  match lines with
  | [] => Err "Could not create trace, could not find the 'Call Graph' line."
  | raw :: rest =>
      let line := TrimSpace raw in
      do sampleRate <-
        (if HasPrefix line "Analysis of sampling" then parseSampleRate line
         else Ok sampleRate);
      do _ <-
        (if HasPrefix line "Report Version" then checkReportVersion line
         else Ok tt);
      do sp <-
        (if HasPrefix line "Process" then
           match Processes with
           | _ :: _ =>
               Err "More than one process line present. Currupt sample file"
           | [] =>
               do process <- parseProcess line;
               let '(p, st') := allocProcess process st in
               Ok (st', Processes ++ [p])
           end
         else Ok (st, Processes));
      let '(st, Processes) := sp in
      if HasPrefix line "Call graph" then Ok (st, Processes, sampleRate, rest)
      else parseHeader rest st Processes sampleRate
  end.

(* The variables of the second loop. *)
Record CallGraph : Type := mkCallGraph {
  store : Store;
  currentThread : ptr;
  lastFrame : ptr
}.

Definition skipped (lf cf : Frame.t) : string :=
  "Skipped frame depth from frame " +:+ Frame.SymbolName lf +:+ " to " +:+
  Frame.SymbolName cf.

(* One line of the call graph (lines 174-209). *)
Definition callGraphLine (process : ptr) (sampleRate : Z) (line : string)
    (s : CallGraph) : outcome CallGraph :=
  do f <- parseCallLine line;
  let '(currentFrame, st) := allocFrame f (store s) in
  do r <-
    (if Frame.Depth f =? 0 then
       let '(th, st) := allocThread (Thread.mk (Frame.SymbolName f) 0 []) st in
       do ps <- update (procs st) process
                  (fun p => Process.set_Threads (Process.Threads p ++ [th]) p);
       Ok (set_procs ps st, th)
     else if Frame.Depth f =? 1 then
       do ts <- update (threads st) (currentThread s)
                  (fun t => Thread.set_Frames (Thread.Frames t ++ [currentFrame]) t);
       Ok (set_threads ts st, currentThread s)
     else
       do fs <- DepthTree.attach skipped (frames st) (lastFrame s) currentFrame;
       Ok (set_frames fs st, currentThread s));
  let '(st, th) := r in
  do fs <- update (frames st) currentFrame
             (fun c => Frame.set_SelfWeightNs
                         (wrap64 (Frame.SelfWeightNs c * sampleRate)) c);
  Ok (mkCallGraph (set_frames fs st) th currentFrame).

(* The second loop (lines 158-210): it ends with the input or at the
   first blank line. *)
Fixpoint parseCallGraph (process : ptr) (sampleRate : Z) (lines : list string)
    (s : CallGraph) : outcome CallGraph :=
  match lines with
  | [] => Ok s
  | raw :: rest =>
      let line := TrimSpace raw in
      match line with
      | EmptyString => Ok s
      | _ =>
          do s' <- callGraphLine process sampleRate line s;
          parseCallGraph process sampleRate rest s'
      end
  end.

(* The third loop (lines 212-220). *)
Fixpoint fixFrames (roots : list ptr) (fs : list Frame.t)
  : outcome (list Frame.t) :=
  match roots with
  | [] => Ok fs
  | frame :: rest =>
      do r <- fixSelfWeight (S (length fs)) frame fs;
      match r with
      | (Some e, _) => Err e
      | (None, fs') => fixFrames rest fs'
      end
  end.

Fixpoint fixThreads (ths : list ptr) (st : Store) : outcome Store :=
  match ths with
  | [] => Ok st
  | thread :: rest =>
      do th <- deref (threads st) thread;
      do fs <- fixFrames (Thread.Frames th) (frames st);
      fixThreads rest (set_frames fs st)
  end.

(* ParseSample up to line 210: the tree as the first two loops leave it,
   every frame still with its cumulative weight. *)
Definition readCallGraph (file : string) : outcome (Store * TimeProfile.t * ptr) :=
  do h <- parseHeader (ReadString file) emptyStore [] 1000000;
  let '(st, Processes, sampleRate, rest) := h in
  match Processes with
  | [] => Panic index_out_of_range
  | process :: _ =>
      do s <- parseCallGraph process sampleRate rest (mkCallGraph st None None);
      Ok (store s, TimeProfile.mk Processes, process)
  end.

Definition fixWeights (process : ptr) (st : Store) : outcome Store :=
  do pr <- deref (procs st) process;
  fixThreads (Process.Threads pr) st.

Definition ParseSample (file : string) : outcome (Store * TimeProfile.t) :=
  do r <- readCallGraph file;
  let '(st, p, process) := r in
  do st' <- fixWeights process st;
  Ok (st', p).

End Sample.

(** ** The Instruments deep-copy parser *)

Module DeepCopy.
Import GoStrings GoStrconv.

Section Parser.

(** Floating point is outside the embedding: the type float64,
    [strconv.ParseFloat(text, 64)] ([None] when it returns an error) and
    [int64(value * unit)] are parameters of the parser. *)
Variable float64 : Type.
Variable ParseFloat : string -> option float64.
Variable scaledToInt64 : float64 -> Z -> Z.

Definition isLowerHex (c : ascii) : bool :=
  let n := N_of_ascii c in
  (((48 <=? n) && (n <=? 57)) || ((97 <=? n) && (n <=? 102)))%N.

(* threadRe, with its first group ending here: two spaces, "0x", one or
   more lower-case hexadecimal digits (group 2), end of text *)
Definition threadRe_here (s : string) : option string :=
  match s with
  | String a (String b (String "0" (String "x" r))) =>
      if Sample.reSpace a && Sample.reSpace b then
        match span isLowerHex r with
        | (EmptyString, _) => None
        | (d, EmptyString) => Some d
        | _ => None
        end
      else None
  | _ => None
  end.

Fixpoint threadRe (s : string) : option (string * string) :=
  match s with
  | EmptyString => None
  | String c s' =>
      match threadRe s' with
      | Some (name, tid) => Some (String c name, tid)
      | None =>
          match threadRe_here s with
          | Some tid => Some (EmptyString, tid)
          | None => None
          end
      end
  end.

(* processRe, with its first group ending here: a space, "(", one or more
   digits (group 2), ")", end of text *)
Definition processRe_here (s : string) : option string :=
  match s with
  | String a (String "(" r) =>
      if Sample.reSpace a then
        match span isDigit r with
        | (EmptyString, _) => None
        | (d, String ")" EmptyString) => Some d
        | _ => None
        end
      else None
  | _ => None
  end.

Fixpoint processRe (s : string) : option (string * string) :=
  match s with
  | EmptyString => None
  | String c s' =>
      match processRe s' with
      | Some (name, pid) => Some (String c name, pid)
      | None =>
          match processRe_here s with
          | Some pid => Some (EmptyString, pid)
          | None => None
          end
      end
  end.

Definition newThreadFromFrame (f : Frame.t) : outcome Thread.t :=
  if negb (Frame.Depth f =? 1) then
    Err ("Thread must have depth 1, was " +:+ FormatInt (Frame.Depth f))
  else
    match threadRe (Frame.SymbolName f) with
    | None => Ok (Thread.mk (Frame.SymbolName f) 0 [])
    | Some (name, hex) =>
        let tid := match ParseUint hex 16 with
                   | (_, Some _) => 0%N
                   | (tid, None) => tid
                   end in
        Ok (Thread.mk name tid [])
    end.

Definition newProcessFromFrame (f : Frame.t) : outcome Process.t :=
  if negb (Frame.Depth f =? 0) then
    Err ("Process must have depth 0, was " +:+ FormatInt (Frame.Depth f))
  else
    match processRe (Frame.SymbolName f) with
    | None => Ok (Process.mk (Frame.SymbolName f) 0 [])
    | Some (name, digits) =>
        let pid := match ParseUint digits 10 with
                   | (_, Some _) => 0%N
                   | (pid, None) => pid
                   end in
        Ok (Process.mk name pid [])
    end.

Definition parseSelfWeight (selfWeightText : string) : outcome Z :=
  match Split selfWeightText " " with
  | [field0; field1] =>
      match ParseFloat field0 with
      | None => Err ("Could not parse self weight " +:+ selfWeightText)
      | Some value =>
          if String.eqb field1 "s" then Ok (scaledToInt64 value 1000000000)
          else if String.eqb field1 "ms" then Ok (scaledToInt64 value 1000000)
          else if String.eqb field1 "µs" then Ok (scaledToInt64 value 1000)
          else if String.eqb field1 "ns" then Ok (scaledToInt64 value 1)
          else Err ("Could not interpret time unit '" +:+ selfWeightText +:+
                    "' in " +:+ field1)
      end
  | _ => Err ("Self weight not parsable: was not 2 fields in " +:+
              selfWeightText)
  end.

Definition parseLine (line : string) : outcome Frame.t :=
  let fields := Split line "009" in
  let n := length fields in
  if negb (n =? 3)%nat && negb (n =? 4)%nat then
    Err ("Could not parse line " +:+ line +:+ ", only found " +:+
         FormatInt (Z.of_nat n) +:+ " tab-separated fields")
  else
    match fields !! 1%nat, fields !! (n - 1)%nat with
    | Some self, Some lastField =>
        do weight <- parseSelfWeight self;
        let name := TrimLeft lastField " " in
        let depth := len lastField - len name in
        let depth := if (n =? 3)%nat then depth - 1 else depth in
        Ok (Frame.mk None [] weight name depth)
    | _, _ => Panic index_out_of_range
    end.

(* The variables of ParseProfile. *)
Record State : Type := mkState {
  store : Store;
  Processes : list ptr;
  lastFrame : ptr;
  currentProcess : ptr;
  currentThread : ptr
    }.

Definition wrapErr {A : Type} (prefix : string) (m : outcome A) : outcome A :=
  match m with
  | Err e => Err (prefix +:+ e)
  | r => r
  end.

Definition appendThread (st : Store) (currentProcess th : ptr) : outcome Store :=
  do ps <- update (procs st) currentProcess
             (fun p => Process.set_Threads (Process.Threads p ++ [th]) p);
  Ok (set_procs ps st).

Definition appendFrame (st : Store) (currentThread currentFrame : ptr)
  : outcome Store :=
  do ts <- update (threads st) currentThread
             (fun t => Thread.set_Frames (Thread.Frames t ++ [currentFrame]) t);
  Ok (set_threads ts st).

Definition skipped (line : string) (_ _ : Frame.t) : string :=
  "Skip children somehow?: " +:+ line.

(* The body of the loop of ParseProfile (lines 56-142) for one line. *)
Definition parseProfileLine (raw : string) (s : State) : outcome State :=
  let line := TrimSpace raw in
  match line with
  | EmptyString =>
      (* Process end. Start again with new process. *)
      Ok (mkState (store s) (Processes s) None None None)
  | _ =>
      match currentProcess s, currentThread s with
      | None, _ =>
          if String.eqb line ("Weight" +:+ tab +:+ "Self Weight" +:+ tab +:+ tab +:+
                              "Symbol Name")
             || String.eqb line ("Weight" +:+ tab +:+ "Self Weight" +:+ tab +:+
                                 "Symbol Names")
          then Ok s
          else
            do f <- wrapErr "Error parsing process frame: " (parseLine line);
            let '(_, st) := allocFrame f (store s) in
            do pr <- newProcessFromFrame f;
            let '(p, st) := allocProcess pr st in
            Ok (mkState st (Processes s ++ [p]) (lastFrame s) p (currentThread s))
      | Some _, None =>
          do f <- wrapErr "Error parsing thread frame: " (parseLine line);
          let '(_, st) := allocFrame f (store s) in
          do th <- newThreadFromFrame f;
          let '(t, st) := allocThread th st in
          do st <- appendThread st (currentProcess s) t;
          Ok (mkState st (Processes s) (lastFrame s) (currentProcess s) t)
      | Some _, Some _ =>
          do f <- parseLine line;
          let '(currentFrame, st) := allocFrame f (store s) in
          if Frame.Depth f =? 0 then
            Err ("Unexpected new process, should have occurred after header line "
                 +:+ line)
          else if Frame.Depth f =? 1 then
            (* New thread *)
            do th <- wrapErr "Error parsing thread frame: " (newThreadFromFrame f);
            let '(t, st) := allocThread th st in
            do st <- appendThread st (currentProcess s) t;
            Ok (mkState st (Processes s) None (currentProcess s) t)
          else
            match lastFrame s with
            | None =>
                (* First frame in thread. *)
                if negb (Frame.Depth f =? 2) then
                  Err ("First frame in thread should have depth 2, was " +:+
                       FormatInt (Frame.Depth f) +:+ ": " +:+ line)
                else
                  do st <- appendFrame st (currentThread s) currentFrame;
                  Ok (mkState st (Processes s) currentFrame (currentProcess s)
                        (currentThread s))
            | Some _ =>
                if Frame.Depth f =? 2 then
                  (* New thread frame, this will be a parent frame. *)
                  do st <- appendFrame st (currentThread s) currentFrame;
                  Ok (mkState st (Processes s) currentFrame (currentProcess s)
                        (currentThread s))
                else
                  do fs <- DepthTree.attach (skipped line) (frames st)
                             (lastFrame s) currentFrame;
                  Ok (mkState (set_frames fs st) (Processes s) currentFrame
                        (currentProcess s) (currentThread s))
            end
      end
  end.

Fixpoint parseProfileLines (lines : list string) (s : State) : outcome State :=
  match lines with
  | [] => Ok s
  | raw :: rest =>
      do s' <- parseProfileLine raw s;
      parseProfileLines rest s'
  end.

Definition ParseProfile (lines : list string) : outcome (Store * TimeProfile.t) :=
  do s <- parseProfileLines lines (mkState emptyStore [] None None None);
  Ok (store s, TimeProfile.mk (Processes s)).

End Parser.

End DeepCopy.

(** ** The collapsed-stack parser *)

Module Collapsed.
Import GoStrings GoStrconv.

(* The loop of parseCallLine over funs[1:] (lines 104-118); [index] is the
   position of the head of [funs]. *)
Fixpoint buildStack (funs : list string) (index : Z) (last_frame : ptr)
    (st : Store) : outcome (ptr * Store) :=
  match funs with
  | [] => Ok (last_frame, st)
  | fun_ :: rest =>
      let '(current_frame, st) :=
        allocFrame (Frame.mk None [] 0 fun_ index) st in
      do fs <- DepthTree.appendChild (frames st) last_frame current_frame;
      buildStack rest (index + 1) current_frame (set_frames fs st)
  end.

(* parseCallLine returns a frame pointer and an error: both are nil when
   the text after the last space is not an integer. *)
Definition parseCallLine (line : string) (st : Store)
  : outcome (ptr * option string * Store) :=
  let sep := LastIndex line " " in
  do text <- slice line (sep + 1) (len line);
  match ParseInt text with
  | (_, Some _) => Ok (None, None, st)
  | (frequence, None) =>
      do stack <- slice line 0 sep;
      match Split stack ";" with
      | [] => Ok (None, Some "Error parsing function names.", st)
      | fun0 :: funs =>
          let '(frame, st) := allocFrame (Frame.mk None [] 0 fun0 0) st in
          do r <- buildStack funs 1 frame st;
          let '(last_frame, st) := r in
          do fs <- update (frames st) last_frame
                     (Frame.set_SelfWeightNs frequence);
          Ok (frame, None, set_frames fs st)
      end
  end.

(* The loop of ParseProfile (lines 65-72). *)
Fixpoint parseLines (lines : list string) (currentThread : ptr) (st : Store)
  : outcome Store :=
  match lines with
  | [] => Ok st
  | line :: rest =>
      do r <- parseCallLine line st;
      match r with
      | (currentFrame, None, st) =>
          do ts <- update (threads st) currentThread
                     (fun t => Thread.set_Frames
                                 (Thread.Frames t ++ [currentFrame]) t);
          parseLines rest currentThread (set_threads ts st)
      | (_, Some err, _) => Err err
      end
  end.

Definition ParseProfile (lines : list string) : outcome (Store * TimeProfile.t) :=
  let '(process, st) := allocProcess (Process.mk EmptyString 0 []) emptyStore in
  let '(currentThread, st) := allocThread (Thread.mk EmptyString 0 []) st in
  do ps <- update (procs st) process
             (fun p => Process.set_Threads (Process.Threads p ++ [currentThread]) p);
  do st <- parseLines lines currentThread (set_procs ps st);
  Ok (st, TimeProfile.mk [process]).

End Collapsed.

(** ** The profile types of github.com/google/pprof/profile

    Only the fields that the converter fills in.  Functions and locations are
    never changed once made, so the pointers to them are modelled by their
    values. *)

Module profile.
Module Function.
Record t : Type := mk { ID : N; Name : string; SystemName : string }.
End Function.
Module Line.
Record t : Type := mk { Function : Function.t }.
End Line.
Module Location.
Record t : Type := mk { ID : N; Line : list Line.t }.
End Location.
Module Sample.
Record t : Type := mk {
  Location : list Location.t;
  Value : list Z;
  Label : gmap string (list string)
}.
End Sample.
Module ValueType.
Record t : Type := mk { Type_ : string; Unit : string }.
End ValueType.
Module Profile.
Record t : Type := mk {
  SampleType : list ValueType.t;
  Sample : list Sample.t;
  Location : list Location.t;
  Function : list Function.t
}.
End Profile.
End profile.

(** ** The converter *)

Module Pprof.
Import GoStrconv.

(** uint64 counters wrap around. *)
Definition wrapU64 (n : N) : N := (n mod 2 ^ 64)%N.

(** type location struct { pid, tid uint64; methodName string } *)
Definition location : Type := N * N * string.
Definition mkLocation (pid tid : N) (methodName : string) : location :=
  (pid, tid, methodName).

Record deepCopyToPprofConverter : Type := mkConverter {
  deepCopy : TimeProfile.t;
  excludeProcessesFromStack : bool;
  excludeThreadsFromStack : bool;
  includeThreadAndProcessIds : bool;
  annotations : gmap N string;
  consumedAnnotations : gmap N string;
  functions : gmap string profile.Function.t;
  nextFunctionID : N;
  locations : gmap location profile.Location.t;
  nextLocationID : N;
  samples : list profile.Sample.t
}.

Definition newPprofConverter (deepCopy : TimeProfile.t)
    (excludeProcessesFromStack excludeThreadsFromStack
       includeThreadAndProcessIds : bool)
    (annotations : gmap N string) : deepCopyToPprofConverter :=
  mkConverter deepCopy excludeProcessesFromStack excludeThreadsFromStack
    includeThreadAndProcessIds annotations ∅ ∅ 1%N ∅ 1%N [].

Definition set_consumedAnnotations (m : gmap N string)
    (c : deepCopyToPprofConverter) : deepCopyToPprofConverter :=
  mkConverter (deepCopy c) (excludeProcessesFromStack c)
    (excludeThreadsFromStack c) (includeThreadAndProcessIds c)
    (annotations c) m (functions c) (nextFunctionID c) (locations c)
    (nextLocationID c) (samples c).

Definition set_functions (m : gmap string profile.Function.t) (next : N)
    (c : deepCopyToPprofConverter) : deepCopyToPprofConverter :=
  mkConverter (deepCopy c) (excludeProcessesFromStack c)
    (excludeThreadsFromStack c) (includeThreadAndProcessIds c)
    (annotations c) (consumedAnnotations c) m next (locations c)
    (nextLocationID c) (samples c).

Definition set_locations (m : gmap location profile.Location.t) (next : N)
    (c : deepCopyToPprofConverter) : deepCopyToPprofConverter :=
  mkConverter (deepCopy c) (excludeProcessesFromStack c)
    (excludeThreadsFromStack c) (includeThreadAndProcessIds c)
    (annotations c) (consumedAnnotations c) (functions c) (nextFunctionID c)
    m next (samples c).

Definition set_samples (l : list profile.Sample.t)
    (c : deepCopyToPprofConverter) : deepCopyToPprofConverter :=
  mkConverter (deepCopy c) (excludeProcessesFromStack c)
    (excludeThreadsFromStack c) (includeThreadAndProcessIds c)
    (annotations c) (consumedAnnotations c) (functions c) (nextFunctionID c)
    (locations c) (nextLocationID c) l.

(** What the converter prints. *)
Inductive message : Type :=
| AnnotationsIgnored
    (* "WARNING: Combined annotations with excluding process from the
       stack. Annotations will be ignored." *)
| UnusedAnnotations (unused : gmap N string).
    (* "WARNING: Not all annotations were used. The following pids could
       not be found:" and a line "pid: annotation" for every entry of
       [unused], in the order in which Go walks the map *)

(** The converter runs on the store that holds its input, on its own struct
    and on the standard output. *)
Record World : Type := mkWorld {
  heap : Store;
  toPprof : deepCopyToPprofConverter;
  stdout : list message
}.

Definition M (A : Type) : Type := World -> outcome (A * World).

Definition ret {A : Type} (a : A) : M A := fun w => Ok (a, w).

Definition bindM {A B : Type} (m : M A) (k : A -> M B) : M B :=
  fun w =>
    match m w with
    | Ok (a, w') => k a w'
    | Err e => Err e
    | Panic e => Panic e
    | Diverge => Diverge
    end.

Notation "x <~ m ;; k" := (bindM m (fun x => k))
  (at level 100, m at next level, right associativity).

Definition loadFrame (p : ptr) : M Frame.t :=
  fun w => do f <- deref (frames (heap w)) p; Ok (f, w).
Definition loadThread (p : ptr) : M Thread.t :=
  fun w => do t <- deref (threads (heap w)) p; Ok (t, w).
Definition loadProcess (p : ptr) : M Process.t :=
  fun w => do pr <- deref (procs (heap w)) p; Ok (pr, w).

Definition getConverter : M deepCopyToPprofConverter :=
  fun w => Ok (toPprof w, w).
Definition modifyConverter
    (f : deepCopyToPprofConverter -> deepCopyToPprofConverter) : M unit :=
  fun w => Ok (tt, mkWorld (heap w) (f (toPprof w)) (stdout w)).
Definition print (m : message) : M unit :=
  fun w => Ok (tt, mkWorld (heap w) (toPprof w) (stdout w ++ [m])).
Definition diverge {A : Type} : M A := fun _ => Diverge.

(* for _, x := range xs { body(x) } *)
Fixpoint range {A : Type} (xs : list A) (body : A -> M unit) : M unit :=
  match xs with
  | [] => ret tt
  | x :: rest => _ <~ body x ;; range rest body
  end.

Definition getFunction (name : string) : M profile.Function.t :=
  c <~ getConverter ;;
  match functions c !! name with
  | Some f => ret f
  | None =>
      let f := profile.Function.mk (nextFunctionID c) name name in
      _ <~ modifyConverter
             (set_functions (<[name := f]> (functions c))
                (wrapU64 (nextFunctionID c + 1))) ;;
      ret f
  end.

(* The lookup that ends getLocation, getThreadLocation and
   getProcessLocation (lines 202-212, 223-233, 252-262): the location
   stored under [id], or a new one for the function [name]. *)
Definition locationFor (id : location) (name : string) : M profile.Location.t :=
  c <~ getConverter ;;
  match locations c !! id with
  | Some loc => ret loc
  | None =>
      f <~ getFunction name ;;
      let loc := profile.Location.mk (nextLocationID c) [profile.Line.mk f] in
      c <~ getConverter ;;
      _ <~ modifyConverter
             (set_locations (<[id := loc]> (locations c))
                (wrapU64 (nextLocationID c + 1))) ;;
      ret loc
  end.

Definition getLocation (symbolName : string) (proc th : ptr)
  : M profile.Location.t :=
  p <~ loadProcess proc ;;
  t <~ loadThread th ;;
  locationFor (mkLocation (Process.Pid p) (Thread.Tid t) symbolName) symbolName.

Definition getThreadLocation (proc th : ptr) : M profile.Location.t :=
  c <~ getConverter ;;
  t <~ loadThread th ;;
  let name :=
    if includeThreadAndProcessIds c
    then Thread.Name t +:+ " [tid: 0x" +:+ FormatHex (Thread.Tid t) +:+ "]"
    else Thread.Name t in
  p <~ loadProcess proc ;;
  locationFor (mkLocation (Process.Pid p) (Thread.Tid t) name) name.

Definition getProcessLocation (proc : ptr) : M profile.Location.t :=
  c <~ getConverter ;;
  p <~ loadProcess proc ;;
  let name :=
    if includeThreadAndProcessIds c
    then Process.Name p +:+ " [pid: " +:+ FormatUint (Process.Pid p) +:+ "]"
    else Process.Name p in
  (* Skip unparsable pids. *)
  name <~ (if negb (Process.Pid p =? 0)%N then
             match annotations c !! Process.Pid p with
             | Some annotation =>
                 _ <~ modifyConverter
                        (set_consumedAnnotations
                           (<[Process.Pid p := annotation]>
                              (consumedAnnotations c))) ;;
                 ret (name +:+ " [" +:+ annotation +:+ "]")
             | None => ret name
             end
           else ret name) ;;
  locationFor (mkLocation (Process.Pid p) 0 (Process.Name p)) name.

(* The loop of convertSample (lines 268-274).  It ends at a nil Parent; a
   walk longer than the number of frames is in a cycle of Parent links and
   does not end. *)
Fixpoint stackOf (fuel : nat) (currentFrame : ptr) (proc th : ptr)
    (stackTrace : list profile.Location.t) : M (list profile.Location.t) :=
  match currentFrame with
  | None => ret stackTrace
  | Some _ =>
      match fuel with
      | O => diverge
      | S fuel' =>
          f <~ loadFrame currentFrame ;;
          loc <~ getLocation (Frame.SymbolName f) proc th ;;
          f <~ loadFrame currentFrame ;;
          stackOf fuel' (Frame.Parent f) proc th (stackTrace ++ [loc])
      end
  end.

Definition convertSample (sample th proc : ptr) : M profile.Sample.t :=
  c <~ getConverter ;;
  w <~ (fun w => Ok (w, w)) ;;
  stackTrace <~ stackOf (S (length (frames (heap w)))) sample proc th [] ;;
  stackTrace <~ (if negb (excludeThreadsFromStack c) then
                   loc <~ getThreadLocation proc th ;; ret (stackTrace ++ [loc])
                 else ret stackTrace) ;;
  stackTrace <~ (if negb (excludeProcessesFromStack c) then
                   loc <~ getProcessLocation proc ;; ret (stackTrace ++ [loc])
                 else ret stackTrace) ;;
  s <~ loadFrame sample ;;
  p <~ loadProcess proc ;;
  t <~ loadThread th ;;
  ret (profile.Sample.mk stackTrace [Frame.SelfWeightNs s]
         (list_to_map
            [("pid", [FormatUint (Process.Pid p)]);
             ("tid", [FormatUint (Thread.Tid t)]);
             ("process_name", [Process.Name p]);
             ("thread_name", [Thread.Name t])])).

(* The recursion follows the Children links; deeper than the number of
   frames, it is in a cycle of them and does not end. *)
Fixpoint findSamplesInFrame (fuel : nat) (proc th currentFrame : ptr) : M unit :=
  match fuel with
  | O => diverge
  | S fuel' =>
      f <~ loadFrame currentFrame ;;
      _ <~ (if negb (Frame.SelfWeightNs f =? 0) then
              s <~ convertSample currentFrame th proc ;;
              modifyConverter (fun c => set_samples (samples c ++ [s]) c)
            else ret tt) ;;
      f <~ loadFrame currentFrame ;;
      range (Frame.Children f) (findSamplesInFrame fuel' proc th)
  end.

Definition findSamples (proc th : ptr) : M unit :=
  t <~ loadThread th ;;
  match Thread.Frames t with
  | [] => ret tt
  | fs =>
      w <~ (fun w => Ok (w, w)) ;;
      range fs (findSamplesInFrame (S (length (frames (heap w)))) proc th)
  end.

(* Go leaves the order of a walk over a map open: the Location and
   Function lists hold the values of the two maps in the order of
   [map_to_list]. *)
Definition convertToPprof : M profile.Profile.t :=
  c <~ getConverter ;;
  _ <~ range (TimeProfile.Processes (deepCopy c))
         (fun proc =>
            p <~ loadProcess proc ;;
            range (Process.Threads p) (fun th => findSamples proc th)) ;;
  c <~ getConverter ;;
  let locations_ := (map_to_list (locations c)).*2 in
  let functions_ := (map_to_list (functions c)).*2 in
  _ <~ (if (size (consumedAnnotations c) <? size (annotations c))%nat then
          print (UnusedAnnotations
                   (filter (fun kv => consumedAnnotations c !! kv.1 = None)
                      (annotations c)))
        else ret tt) ;;
  ret (profile.Profile.mk [profile.ValueType.mk "cpu" "nanoseconds"]
         (samples c) locations_ functions_).

Definition TimeProfileToPprof (st : Store) (deepCopy : TimeProfile.t)
    (excludeProcessesFromStack excludeThreadsFromStack
       includeThreadAndProcessIds : bool)
    (annotations : gmap N string) : outcome (profile.Profile.t * World) :=
  let converter :=
    newPprofConverter deepCopy excludeProcessesFromStack
      excludeThreadsFromStack includeThreadAndProcessIds annotations in
  (_ <~ (if excludeProcessesFromStack && (0 <? size annotations)%nat
         then print AnnotationsIgnored else ret tt) ;;
   convertToPprof) (mkWorld st converter []).

End Pprof.

(** ** Inputs used below *)

Definition unlines (ls : list string) : string :=
  fold_right (fun l r => l +:+ GoStrings.newline +:+ r) EmptyString ls.

(** The input of TestSampleParsing. *)
Definition validSample : string :=
  unlines [
    "Analysis of sampling Process Name (pid 56690) every 1 millisecond";
    "Process:         ProcessName [56690]";
    "Path:            /Applications/Process.app/Contents/Frameworks/";
    "Load Address:    0x10b6ed000";
    "Identifier:      ProcessName";
    "Version:         ???";
    "Code Type:       X86-64";
    "Platform:        macOS";
    "";
    "Date/Time:       2021-03-15 15:41:58.406 +0100";
    "Launch Time:     2021-03-15 15:30:30.917 +0100";
    "OS Version:      macOS 11.2.2 (20D80)";
    "Report Version:  7";
    "Analysis Tool:   /usr/bin/sample";
    "";
    "Physical footprint:         530.5M";
    "Physical footprint (peak):  538.4M";
    "----";
    "";
    "Call graph:";
    "    4 Thread1 DispatchQueue1: com.apple.main-thread  (serial)";
    "    + 4 start";
    "    +   4 eatLunch";
    "    +   : 3 makeSandwhich";
    "    +   : ! 1 getBread(BreadType)";
    "    +   : !" +:+ GoStrings.tab +:+ "1 getCheese(CheeseType)";
    "    +   : 1 eatFood(Food const&)";
    "    1 Thread2 DispatchQueue1: com.apple.main-thread  (serial)";
    "    + 1 listenToMusic()"
  ] +:+ GoStrings.tab +:+ GoStrings.tab.

(** A sample file in which frame [a], two levels down, has 1 hit and its
    child [b] has 3. *)
Definition negativeChildSample : string :=
  unlines [
    "Process:         P [1]";
    "Call graph:";
    "    4 Thread_1";
    "    + 4 start";
    "    +   1 a";
    "    +   : 3 b"
  ].

(** The same with a frame [c] below [b]. *)
Definition unfixedSubtreeSample : string :=
  unlines [
    "Process:         P [1]";
    "Call graph:";
    "    10 Thread_1";
    "    + 10 start";
    "    +   1 a";
    "    +   : 3 b";
    "    +   : ! 3 c"
  ].

(** Two threads that both call [foo]. *)
Definition twoThreadsSample : string :=
  unlines [
    "Process:         P [1]";
    "Call graph:";
    "    1 Thread_1";
    "    + 1 foo";
    "    1 Thread_2";
    "    + 1 foo"
  ].

(** A header with a report version other than 7 and no process line. *)
Definition version6Sample : string :=
  unlines [ "Report Version:  6"; "Call graph:" ].

(** A header with no process line. *)
Definition noProcessSample : string :=
  unlines [ "Report Version:  7"; "Call graph:"; "    1 Thread_1" ].

Definition deepCopyLine (weight self symbol : string) : string :=
  weight +:+ GoStrings.tab +:+ self +:+ GoStrings.tab +:+ " " +:+
  GoStrings.tab +:+ symbol.

(** A deep copy whose last line has three fields and no space before the
    symbol name. *)
Definition threeFieldDeepCopy : list string := [
  deepCopyLine "0 s  100%" "0 s" "Main Process (123)";
  deepCopyLine "0 s  50%" "0 s" " Thread 1  0x1ee7";
  deepCopyLine "0 s  50%" "0 s" "  foo";
  "0 s  50%" +:+ GoStrings.tab +:+ "0 s" +:+ GoStrings.tab +:+ "bar"
].

(** A deep copy with a second thread, and one with a process line in the
    middle. *)
Definition twoThreadDeepCopy : list string := [
  deepCopyLine "0 s  100%" "0 s" "Main Process (123)";
  deepCopyLine "0 s  50%" "0 s" " Thread 1  0x1ee7";
  deepCopyLine "0 s  50%" "0 s" "  foo";
  deepCopyLine "0 s  50%" "0 s" "   bar";
  deepCopyLine "0 s  50%" "0 s" " Thread 2  0x7ee1";
  deepCopyLine "0 s  50%" "0 s" "  spin"
].

Definition nestedProcessDeepCopy : list string := [
  deepCopyLine "0 s  100%" "0 s" "Main Process (123)";
  deepCopyLine "0 s  50%" "0 s" " Thread 1  0x1ee7";
  deepCopyLine "0 s  50%" "0 s" "  foo";
  deepCopyLine "0 s  100%" "0 s" "Other Process (456)"
].

(** A deep copy in which [qux] comes back up two levels: its parent [foo]
    is found by the walk up from [baz]. *)
Definition walkDeepCopy : list string := [
  deepCopyLine "0 s  100%" "0 s" "Main Process (123)";
  deepCopyLine "0 s  50%" "0 s" " Thread 1  0x1ee7";
  deepCopyLine "0 s  50%" "0 s" "  foo";
  deepCopyLine "0 s  50%" "0 s" "   bar";
  deepCopyLine "0 s  50%" "0 s" "    baz";
  deepCopyLine "0 s  50%" "0 s" "   qux"
].

(** A no-break space (U+00A0) and a line separator (U+2028) in UTF-8. *)
Definition noBreakSpace : string :=
  String (ascii_of_N 194) (String (ascii_of_N 160) EmptyString).
Definition lineSeparator : string :=
  String (ascii_of_N 226)
    (String (ascii_of_N 128) (String (ascii_of_N 168) EmptyString)).

(** The input of TestLineParsing, and one with a line that has no count. *)
Definition collapsedTest : list string := [ "Bar;Baz 2"; "Foo 2" ].
Definition collapsedNoCount : list string := [ "Bar;Baz 2"; "oops"; "Foo 2" ].

(** MakeDeepCopy of the converter's tests, with the names and the leaf's
    weight left open. *)
Definition singleLeaf (leaf ancestor T P : string) (W : Z) : Store * TimeProfile.t :=
  (mkStore
     [ Frame.mk None [Some 1%nat] 0 ancestor 2;
       Frame.mk (Some 0%nat) [] W leaf 3 ]
     [ Thread.mk T 1 [Some 0%nat] ]
     [ Process.mk P 123 [Some 0%nat] ],
   TimeProfile.mk [Some 0%nat]).

Definition MakeDeepCopy : Store * TimeProfile.t :=
  singleLeaf "sub_frame" "first_frame" "thread1" "proc" 1.

(** The function names along a sample's stack trace. *)
Definition stackNames (s : profile.Sample.t) : list (list string) :=
  map (fun l => map (fun ln => profile.Function.Name (profile.Line.Function ln))
                  (profile.Location.Line l))
    (profile.Sample.Location s).

Definition stackIDs (s : profile.Sample.t) : list N :=
  map profile.Location.ID (profile.Sample.Location s).

(** The condition of C9 in the claim's words: a line that starts with
    "Call graph", with no line that starts with "Process:" before it. *)
Fixpoint callGraphBeforeProcessLine (lines : list string) : bool :=
  match lines with
  | [] => false
  | raw :: rest =>
      let line := GoStrings.TrimSpace raw in
      if GoStrings.HasPrefix line "Call graph" then true
      else if GoStrings.HasPrefix line "Process:" then false
      else callGraphBeforeProcessLine rest
  end.

(** A "Report Version" line that names version 7. *)
Definition namesVersion7 (line : string) : bool :=
  match GoStrings.Split line ":" with
  | [_; v] =>
      match GoStrconv.Atoi (GoStrings.TrimSpace v) with
      | (7, None) => true
      | _ => false
      end
  | _ => false
  end.

(** A line that starts with "Call graph"; before it no line starts with
    "Process", and every line that starts with "Report Version" names
    version 7. *)
Fixpoint callGraphBeforeProcess (lines : list string) : bool :=
  match lines with
  | [] => false
  | raw :: rest =>
      let line := GoStrings.TrimSpace raw in
      if GoStrings.HasPrefix line "Call graph" then true
      else if GoStrings.HasPrefix line "Process" then false
      else if GoStrings.HasPrefix line "Report Version"
           then namesVersion7 line && callGraphBeforeProcess rest
      else callGraphBeforeProcess rest
  end.

(** ** Properties of a run of the converter *)

(** Every run of [m] that returns relates the world before it to the world
    after it. *)
Definition relates {A : Type} (R : Pprof.World -> Pprof.World -> Prop)
    (m : Pprof.M A) : Prop :=
  forall w a w', m w = Ok (a, w') -> R w w'.

(** The store is as it was: every field of every Process, Thread and Frame. *)
Definition sameHeap (w w' : Pprof.World) : Prop := Pprof.heap w' = Pprof.heap w.

(** The methods of the converter. *)
Inductive converterCall : Type :=
| CallGetFunction (name : string)
| CallGetLocation (symbolName : string) (proc th : ptr)
| CallGetThreadLocation (proc th : ptr)
| CallGetProcessLocation (proc : ptr)
| CallConvertSample (sample th proc : ptr)
| CallFindSamples (proc th : ptr).

Definition runCall (c : converterCall) : Pprof.M unit :=
  match c with
  | CallGetFunction name =>
      Pprof.bindM (Pprof.getFunction name) (fun _ => Pprof.ret tt)
  | CallGetLocation symbolName proc th =>
      Pprof.bindM (Pprof.getLocation symbolName proc th) (fun _ => Pprof.ret tt)
  | CallGetThreadLocation proc th =>
      Pprof.bindM (Pprof.getThreadLocation proc th) (fun _ => Pprof.ret tt)
  | CallGetProcessLocation proc =>
      Pprof.bindM (Pprof.getProcessLocation proc) (fun _ => Pprof.ret tt)
  | CallConvertSample sample th proc =>
      Pprof.bindM (Pprof.convertSample sample th proc) (fun _ => Pprof.ret tt)
  | CallFindSamples proc th => Pprof.findSamples proc th
  end.

Definition runCalls (cs : list converterCall) : Pprof.M unit :=
  Pprof.range cs runCall.

(** The location ids handed out so far are below the next one and differ
    from key to key, as long as the counter has not wrapped around. *)
Definition locationIDsDistinct (c : Pprof.deepCopyToPprofConverter) : Prop :=
  (N.of_nat (size (Pprof.locations c)) + 1 < 2 ^ 64)%N ->
  Pprof.nextLocationID c = (N.of_nat (size (Pprof.locations c)) + 1)%N /\
  (forall id loc,
      Pprof.locations c !! id = Some loc ->
      (profile.Location.ID loc < Pprof.nextLocationID c)%N) /\
  (forall id1 id2 loc1 loc2,
      Pprof.locations c !! id1 = Some loc1 ->
      Pprof.locations c !! id2 = Some loc2 ->
      profile.Location.ID loc1 = profile.Location.ID loc2 -> id1 = id2).

(** The location table only grows, and its entries stay. *)
Definition locationsGrow (w w' : Pprof.World) : Prop :=
  Pprof.heap w' = Pprof.heap w /\
  Pprof.locations (Pprof.toPprof w) ⊆ Pprof.locations (Pprof.toPprof w') /\
  (locationIDsDistinct (Pprof.toPprof w) ->
   locationIDsDistinct (Pprof.toPprof w')).

(** A store with one process and two threads that have the same tid. *)
Definition sameTidStore : Store :=
  mkStore
    [ Frame.mk None [] 1 "foo" 1; Frame.mk None [] 1 "foo" 1 ]
    [ Thread.mk "Thread_1" 0 [Some 0%nat]; Thread.mk "Thread_2" 0 [Some 1%nat] ]
    [ Process.mk "P" 1 [Some 0%nat; Some 1%nat] ].

(** ** Two runs of the converter side by side *)

(** The converter without its annotations. *)
Definition withoutAnnotations (c : Pprof.deepCopyToPprofConverter)
  : Pprof.deepCopyToPprofConverter :=
  Pprof.mkConverter (Pprof.deepCopy c) (Pprof.excludeProcessesFromStack c)
    (Pprof.excludeThreadsFromStack c) (Pprof.includeThreadAndProcessIds c)
    ∅ (Pprof.consumedAnnotations c) (Pprof.functions c)
    (Pprof.nextFunctionID c) (Pprof.locations c) (Pprof.nextLocationID c)
    (Pprof.samples c).

(** Two converters that differ at most in the annotation for pid [k]. *)
Definition sameButAnnotation (k : N) (c1 c2 : Pprof.deepCopyToPprofConverter)
  : Prop :=
  withoutAnnotations c1 = withoutAnnotations c2 /\
  forall j, j <> k -> Pprof.annotations c1 !! j = Pprof.annotations c2 !! j.

(** Two worlds on the store [st] whose converters differ at most in the
    annotation for [k]; what has been printed is left out. *)
Definition sameButAnnotationW (k : N) (st : Store) (w1 w2 : Pprof.World) : Prop :=
  Pprof.heap w1 = st /\ Pprof.heap w2 = st /\
  sameButAnnotation k (Pprof.toPprof w1) (Pprof.toPprof w2).

(** Two outcomes that end the same way, with related values and worlds. *)
Definition agree {A : Type} (RA : A -> A -> Prop)
    (RW : Pprof.World -> Pprof.World -> Prop)
    (r1 r2 : outcome (A * Pprof.World)) : Prop :=
  match r1, r2 with
  | Ok (a1, w1), Ok (a2, w2) => RA a1 a2 /\ RW w1 w2
  | Err e1, Err e2 => e1 = e2
  | Panic e1, Panic e2 => e1 = e2
  | Diverge, Diverge => True
  | _, _ => False
  end.

Definition simulates {A : Type} (RW : Pprof.World -> Pprof.World -> Prop)
    (RA : A -> A -> Prop) (m1 m2 : Pprof.M A) : Prop :=
  forall w1 w2, RW w1 w2 -> agree RA RW (m1 w1) (m2 w2).

(** No process behind [proc] has the pid [k], unless [k] is 0. *)
Definition notPidOf (k : N) (st : Store) (proc : ptr) : Prop :=
  forall p, deref (procs st) proc = Ok p -> Process.Pid p = k -> k = 0%N.

(** On the store [st], a run keeps the annotations, consumes only
    annotations that were given, and does not consume the one for [k]. *)
Definition consumesGiven (k : N) (st : Store) (w w' : Pprof.World) : Prop :=
  Pprof.heap w = st ->
  Pprof.heap w' = st /\
  Pprof.annotations (Pprof.toPprof w') = Pprof.annotations (Pprof.toPprof w) /\
  (Pprof.consumedAnnotations (Pprof.toPprof w) !! k = None ->
   Pprof.consumedAnnotations (Pprof.toPprof w') !! k = None) /\
  (Pprof.consumedAnnotations (Pprof.toPprof w) ⊆
     Pprof.annotations (Pprof.toPprof w) ->
   Pprof.consumedAnnotations (Pprof.toPprof w') ⊆
     Pprof.annotations (Pprof.toPprof w')).

(** ** The self weights of a tree, in the order of a depth-first walk *)

Fixpoint treeWeights (t : FrameTree) : list Z :=
  match t with
  | NilFrame => []
  | FrameNode _ _ w children =>
      w :: (fix below (l : list FrameTree) : list Z :=
              match l with
              | [] => []
              | c :: l' => treeWeights c ++ below l'
              end) children
  end.

Definition forestWeights (l : list FrameTree) : list Z :=
  concat (map treeWeights l).

Definition threadWeights (t : ThreadTree) : list Z :=
  match t with
  | NilThread => []
  | ThreadNode _ _ fs => forestWeights fs
  end.

Definition processWeights (p : ProcessTree) : list Z :=
  match p with
  | NilProcess => []
  | ProcessNode _ _ ths => concat (map threadWeights ths)
  end.

Definition profileWeights (ps : list ProcessTree) : list Z :=
  concat (map processWeights ps).

(** The values of the samples that a profile with these self weights gets:
    one for every weight that is not zero. *)
Definition sampleValues (weights : list Z) : list (list Z) :=
  map (fun w => [w]) (filter (fun w => w <> 0) weights).

(** A run keeps the store and the samples made so far. *)
Definition keepsSamples (w w' : Pprof.World) : Prop :=
  Pprof.heap w' = Pprof.heap w /\
  Pprof.samples (Pprof.toPprof w') = Pprof.samples (Pprof.toPprof w).

(** A run keeps the store and adds samples with the values that the
    weights [ws] call for. *)
Definition addsSamples (ws : list Z) (w w' : Pprof.World) : Prop :=
  Pprof.heap w' = Pprof.heap w /\
  map profile.Sample.Value (Pprof.samples (Pprof.toPprof w')) =
  map profile.Sample.Value (Pprof.samples (Pprof.toPprof w)) ++ sampleValues ws.

(** ** The header of a sample file, as ParseSample needs it *)

Definition startsWith (p : string) (raw : string) : Prop :=
  GoStrings.HasPrefix (GoStrings.TrimSpace raw) p = true.

#[local] Instance startsWith_dec (p raw : string) : Decision (startsWith p raw).
Proof. unfold startsWith. apply _. Defined.

(** ** The frames as the depth-tree reconstructor links them

    [r] is the depth of the root frames of a thread.  A frame below the
    roots is anchored when it has a Parent; a Parent is an earlier frame,
    one level up, not above the roots, and anchored itself. *)
Definition anchored (r : Z) (f : Frame.t) : Prop :=
  r < Frame.Depth f -> Frame.Parent f <> None.

Definition linked (r : Z) (fs : list Frame.t) (a : nat) (f : Frame.t) : Prop :=
  match Frame.Parent f with
  | Some q =>
      (q < a)%nat /\
      exists g, fs !! q = Some g /\
                Frame.Depth g = Frame.Depth f - 1 /\ r <= Frame.Depth g /\
                anchored r g
  | None => True
  end.

Definition wellLinked (r : Z) (fs : list Frame.t) : Prop :=
  forall a f, fs !! a = Some f -> linked r fs a f.

(** A pointer to one of the first [n] objects of an arena. *)
Definition validPtr (n : nat) (p : ptr) : Prop :=
  exists a, p = Some a /\ (a < n)%nat.

(** The Children of the frame at [a] are frames allocated after it. *)
Definition laterPtr (fs : list Frame.t) (a : nat) (p : ptr) : Prop :=
  exists c, p = Some c /\ (a < c < length fs)%nat.

Definition childrenLater (fs : list Frame.t) : Prop :=
  forall a f, fs !! a = Some f -> Forall (laterPtr fs a) (Frame.Children f).

Definition threadsValid (st : Store) : Prop :=
  forall t th, threads st !! t = Some th ->
    Forall (validPtr (length (frames st))) (Thread.Frames th).

Definition procsValid (st : Store) : Prop :=
  forall a pr, procs st !! a = Some pr ->
    Forall (validPtr (length (threads st))) (Process.Threads pr).

(** Two lists of frames that differ at most in the weights. *)
Definition sameShape (fs fs' : list Frame.t) : Prop :=
  length fs' = length fs /\
  forall a f, fs !! a = Some f ->
    exists f', fs' !! a = Some f' /\ Frame.Children f' = Frame.Children f.

(** The state of the second loop of ParseSample between two lines. *)
Definition graphInv (process : ptr) (s : Sample.CallGraph) : Prop :=
  wellLinked 1 (frames (Sample.store s)) /\
  childrenLater (frames (Sample.store s)) /\
  threadsValid (Sample.store s) /\
  procsValid (Sample.store s) /\
  validPtr (length (procs (Sample.store s))) process /\
  match Sample.lastFrame s with
  | None => Sample.currentThread s = None
  | Some l =>
      (exists lf, frames (Sample.store s) !! l = Some lf /\ anchored 1 lf) /\
      validPtr (length (threads (Sample.store s))) (Sample.currentThread s)
  end.

(** An outcome that is a return: a value or an error. *)
Definition returns {A : Type} (m : outcome A) : Prop :=
  match m with
  | Ok _ | Err _ => True
  | Panic _ | Diverge => False
  end.

(** The state of the first loop of ParseSample: no frame and no thread
    yet, and processes without threads. *)
Definition headerInv (st : Store) (ps : list ptr) : Prop :=
  frames st = [] /\ threads st = [] /\
  Forall (fun pr => Process.Threads pr = []) (procs st) /\
  Forall (validPtr (length (procs st))) ps.

(** The variables of DeepCopyParser.ParseProfile between two lines. *)
Definition deepCopyInv (s : DeepCopy.State) : Prop :=
  wellLinked 2 (frames (DeepCopy.store s)) /\
  childrenLater (frames (DeepCopy.store s)) /\
  (DeepCopy.currentProcess s = None \/
   validPtr (length (procs (DeepCopy.store s))) (DeepCopy.currentProcess s)) /\
  (DeepCopy.currentThread s = None \/
   validPtr (length (threads (DeepCopy.store s))) (DeepCopy.currentThread s)) /\
  match DeepCopy.lastFrame s with
  | None => True
  | Some l => exists lf, frames (DeepCopy.store s) !! l = Some lf /\ anchored 2 lf
  end.

(** ** What the collapsed parser reads from a line *)

(** The text after the last space: the whole line when it holds no space. *)
Definition countText (line : string) : string :=
  let sep := GoStrings.LastIndex line " " in
  String.substring (Z.to_nat (sep + 1))
    (Z.to_nat (GoStrings.len line - (sep + 1))) line.

(** The text before the last space. *)
Definition stackText (line : string) : string :=
  String.substring 0 (Z.to_nat (GoStrings.LastIndex line " ")) line.

(** A line with no space in it that is a decimal integer. *)
Definition bareCount (line : string) : bool :=
  (GoStrings.LastIndex line " " <? 0) &&
  match GoStrconv.ParseInt (countText line) with
  | (_, None) => true
  | (_, Some _) => false
  end.

(** A stack of calls, outermost first: every frame has the next one as its
    only child, and the innermost one carries the weight. *)
Fixpoint stackTree (names : list string) (index : Z) (w : Z) : FrameTree :=
  match names with
  | [] => NilFrame
  | n :: rest =>
      match rest with
      | [] => FrameNode n index w []
      | _ :: _ => FrameNode n index 0 [stackTree rest (index + 1) w]
      end
  end.

(** The entry of the thread for a line: nil when the text after the last
    space is not a count. *)
Definition lineTree (line : string) : FrameTree :=
  match GoStrconv.ParseInt (countText line) with
  | (_, Some _) => NilFrame
  | (w, None) => stackTree (GoStrings.Split (stackText line) ";") 0 w
  end.

(** The frames that the loop of parseCallLine leaves: the ones before the
    innermost frame, and the innermost frame. *)
Fixpoint buildFrames (funs : list string) (index : Z) (pre : list Frame.t)
    (g : Frame.t) : list Frame.t * Frame.t :=
  match funs with
  | [] => (pre, g)
  | n :: rest =>
      buildFrames rest (index + 1)
        (pre ++ [Frame.set_Children
                   (Frame.Children g ++ [Some (S (length pre))]) g])
        (Frame.mk (Some (length pre)) [] 0 n index)
  end.

(** The tree below [p] is [t], whatever is allocated later. *)
Definition stableTree (fs : list Frame.t) (p : ptr) (t : FrameTree) : Prop :=
  forall ext fuel, (length fs < fuel)%nat -> frameTree fuel (fs ++ ext) p = t.

(** ** ProcessAnnotationMap (package internal)

    The flag value that maps a pid to an annotation. *)

Module ProcessAnnotationMap.
Import GoStrings GoStrconv.

Definition t : Type := gmap N string.

(* strings.SplitN(s, sep, 2) for a one-byte separator: the text before the
   first separator and the text after it, or the text alone when it holds
   no separator. *)
Fixpoint SplitN2 (s : string) (sep : ascii) : list string :=
  match s with
  | EmptyString => [EmptyString]
  | String c s' =>
      if Ascii.eqb c sep then [EmptyString; s']
      else match SplitN2 s' sep with
           | p :: rest => String c p :: rest
           | [] => [String c EmptyString]
           end
  end.

(* func (m *ProcessAnnotationMap) Set(value string) error: the map after a
   call that returns nil; a returned error leaves the map as it was.  The
   error of strconv is given by its Err field.  Set is a reserved word. *)
Definition Set_ (m : t) (value : string) : outcome t :=
  let sp := SplitN2 value ":" in
  match sp !! 0%nat with
  | None => Panic index_out_of_range
  | Some sp0 =>
      match ParseUint sp0 10 with
      | (_, Some err) => Err err
      | (pid, None) =>
          match sp !! 1%nat with
          | None => Panic index_out_of_range
          | Some annotation =>
              match m !! pid with
              | Some old =>
                  Err ("Duplicate annotation found on pid " +:+ FormatUint pid
                       +:+ ": " +:+ old)
              | None => Ok (<[pid := annotation]> m)
              end
          end
      end
  end.

End ProcessAnnotationMap.

(** The text holds no colon. *)
Definition noColon (value : string) : Prop :=
  ":"%char ∉ list_ascii_of_string value.

(** * Theorems *)

Lemma bind_Ok_inv {A B : Type} (m : outcome A) (k : A -> outcome B) (b : B) :
  bind m k = Ok b -> exists a, m = Ok a /\ k a = Ok b.
Proof. destruct m; simpl; intros H; try discriminate. eauto. Qed.

(** ** The tests of the repository *)

Example TestSampleParsing :
  mapOutcome profileTree (Sample.ParseSample validSample) =
  Ok [ ProcessNode "ProcessName" 56690
         [ ThreadNode "Thread1 DispatchQueue1: com.apple.main-thread  (serial)" 0
             [ FrameNode "start" 1 0
                 [ FrameNode "eatLunch" 2 0
                     [ FrameNode "makeSandwhich" 3 1000000
                         [ FrameNode "getBread(BreadType)" 4 1000000 [];
                           FrameNode "getCheese(CheeseType)" 4 1000000 [] ];
                       FrameNode "eatFood(Food const&)" 3 1000000 [] ] ] ];
           ThreadNode "Thread2 DispatchQueue1: com.apple.main-thread  (serial)" 0
             [ FrameNode "listenToMusic()" 1 1000000 [] ] ] ].
Proof. vm_compute. reflexivity. Qed.

Example TestLineParsing :
  mapOutcome profileTree (Collapsed.ParseProfile collapsedTest) =
  Ok [ ProcessNode "" 0
         [ ThreadNode "" 0
             [ FrameNode "Bar" 0 0 [ FrameNode "Baz" 1 2 [] ];
               FrameNode "Foo" 0 2 [] ] ] ].
Proof. vm_compute. reflexivity. Qed.

Example TestIncludeProcessAndThreads :
  mapOutcome (fun r => map stackNames (profile.Profile.Sample r.1))
    (Pprof.TimeProfileToPprof MakeDeepCopy.1 MakeDeepCopy.2 false false true ∅) =
  Ok [ [ ["sub_frame"]; ["first_frame"]; ["thread1 [tid: 0x1]"];
         ["proc [pid: 123]"] ] ].
Proof. vm_compute. reflexivity. Qed.

Example TestProcessAnnotations :
  mapOutcome (fun r => map stackNames (profile.Profile.Sample r.1))
    (Pprof.TimeProfileToPprof MakeDeepCopy.1 MakeDeepCopy.2 false true true
       (<[123%N := "MyAnnotation"]> (<[1337%N := "ExtraAnnotation"]> ∅))) =
  Ok [ [ ["sub_frame"]; ["first_frame"]; ["proc [pid: 123] [MyAnnotation]"] ] ].
Proof. vm_compute. reflexivity. Qed.

(** ** The fix-up pass of the sample parser *)

(** C2: the sample file [negativeChildSample] gives frame [a] 1 hit and its
    child [b] 3 hits.  ParseSample returns a profile and no error, and in it
    [a] has the self weight -2000000. *)
Theorem C2_negative_self_weight_is_returned :
  mapOutcome profileTree (Sample.ParseSample negativeChildSample) =
  Ok [ ProcessNode "P" 1
         [ ThreadNode "Thread_1" 0
             [ FrameNode "start" 1 3000000
                 [ FrameNode "a" 2 (-2000000)
                     [ FrameNode "b" 3 3000000 [] ] ] ] ] ].
Proof. vm_compute. reflexivity. Qed.

(** C1: on [unfixedSubtreeSample] ParseSample returns a profile.  Frame [b]
    has the cumulative weight 3000000 and the child [c]; in the returned
    tree its self weight and that of [c] add up to 6000000. *)
Theorem C1_round_trip_law_broken :
  mapOutcome (fun r => profileTree r.1) (Sample.readCallGraph unfixedSubtreeSample) =
  Ok [ ProcessNode "P" 1
         [ ThreadNode "Thread_1" 0
             [ FrameNode "start" 1 10000000
                 [ FrameNode "a" 2 1000000
                     [ FrameNode "b" 3 3000000
                         [ FrameNode "c" 4 3000000 [] ] ] ] ] ] ] /\
  mapOutcome profileTree (Sample.ParseSample unfixedSubtreeSample) =
  Ok [ ProcessNode "P" 1
         [ ThreadNode "Thread_1" 0
             [ FrameNode "start" 1 9000000
                 [ FrameNode "a" 2 (-2000000)
                     [ FrameNode "b" 3 3000000
                         [ FrameNode "c" 4 3000000 [] ] ] ] ] ] ] /\
  selfWeightSum (FrameNode "b" 3 3000000 [ FrameNode "c" 4 3000000 [] ]) = 6000000.
Proof. vm_compute. repeat split; reflexivity. Qed.

(** ** The collapsed parser *)

(** C7: the line "oops" of [collapsedNoCount] holds no count.  ParseProfile
    returns no error, the thread has three entries for the three lines, the
    second of them nil, and the converter panics on that profile. *)
Theorem C7_nil_frame_is_appended :
  mapOutcome
    (fun r => map (fun th => Thread.Frames th) (threads r.1))
    (Collapsed.ParseProfile collapsedNoCount) =
  Ok [ [ Some 0%nat; None; Some 2%nat ] ] /\
  mapOutcome profileTree (Collapsed.ParseProfile collapsedNoCount) =
  Ok [ ProcessNode "" 0
         [ ThreadNode "" 0
             [ FrameNode "Bar" 0 0 [ FrameNode "Baz" 1 2 [] ];
               NilFrame;
               FrameNode "Foo" 0 2 [] ] ] ] /\
  (do r <- Collapsed.ParseProfile collapsedNoCount;
   Pprof.TimeProfileToPprof r.1 r.2 false false true ∅) =
  Panic nil_dereference.
Proof. vm_compute. repeat split; reflexivity. Qed.

(** ** The parent walk of the deep-copy parser *)

Section DeepCopyExt.

Variable float64 : Type.
Variables ParseFloat ParseFloat' : string -> option float64.
Variable scaledToInt64 : float64 -> Z -> Z.
Hypothesis same : forall s, ParseFloat s = ParseFloat' s.

(** The parser looks at ParseFloat only through its results. *)
Lemma parseSelfWeight_ext (text : string) :
  DeepCopy.parseSelfWeight float64 ParseFloat scaledToInt64 text =
  DeepCopy.parseSelfWeight float64 ParseFloat' scaledToInt64 text.
Proof.
  unfold DeepCopy.parseSelfWeight.
  destruct (GoStrings.Split text " ") as [|a [|b [|c l]]]; try reflexivity.
  rewrite same. reflexivity.
Qed.

Lemma parseLine_ext (line : string) :
  DeepCopy.parseLine float64 ParseFloat scaledToInt64 line =
  DeepCopy.parseLine float64 ParseFloat' scaledToInt64 line.
Proof.
  unfold DeepCopy.parseLine.
  destruct (_ && _); [reflexivity|].
  destruct (_ !! 1%nat); [|reflexivity].
  destruct (_ !! _); [|reflexivity].
  rewrite parseSelfWeight_ext. reflexivity.
Qed.

Lemma parseProfileLine_ext (raw : string) (s : DeepCopy.State) :
  DeepCopy.parseProfileLine float64 ParseFloat scaledToInt64 raw s =
  DeepCopy.parseProfileLine float64 ParseFloat' scaledToInt64 raw s.
Proof.
  unfold DeepCopy.parseProfileLine. cbv zeta.
  rewrite !parseLine_ext. reflexivity.
Qed.

Lemma parseProfileLines_ext (lines : list string) (s : DeepCopy.State) :
  DeepCopy.parseProfileLines float64 ParseFloat scaledToInt64 lines s =
  DeepCopy.parseProfileLines float64 ParseFloat' scaledToInt64 lines s.
Proof.
  revert s. induction lines as [|raw rest IH]; intros s; simpl; [reflexivity|].
  rewrite parseProfileLine_ext.
  destruct (DeepCopy.parseProfileLine _ _ _ _ _); simpl; auto.
Qed.

Lemma ParseProfile_ext (lines : list string) :
  DeepCopy.ParseProfile float64 ParseFloat scaledToInt64 lines =
  DeepCopy.ParseProfile float64 ParseFloat' scaledToInt64 lines.
Proof. unfold DeepCopy.ParseProfile. rewrite parseProfileLines_ext. reflexivity. Qed.

End DeepCopyExt.

(** C3: the last line of [threeFieldDeepCopy] has three fields and depth -1.
    Whatever the floating-point reading of "0" is, ParseProfile does not
    return an error: the walk up from [foo] reads the Depth of a nil
    parent. *)
Theorem C3_parent_walk_dereferences_nil
    (float64 : Type) (ParseFloat : string -> option float64)
    (scaledToInt64 : float64 -> Z -> Z) :
  ParseFloat "0" <> None ->
  DeepCopy.ParseProfile float64 ParseFloat scaledToInt64 threeFieldDeepCopy =
  Panic nil_dereference.
Proof.
  intros H. destruct (ParseFloat "0") as [z|] eqn:E; [|congruence].
  rewrite (ParseProfile_ext float64 ParseFloat
             (fun s => if String.eqb s "0" then Some z else ParseFloat s)).
  - vm_compute. reflexivity.
  - intros s. destruct (String.eqb_spec s "0") as [->|]; [exact E|reflexivity].
Qed.

Lemma C3_parent_walk_dereferences_nil_witness :
  (fun _ : string => Some 0) "0" <> None /\
  DeepCopy.ParseProfile Z (fun _ => Some 0) Z.mul threeFieldDeepCopy =
  Panic nil_dereference.
Proof.
  split; [discriminate|].
  apply (C3_parent_walk_dereferences_nil Z (fun _ => Some 0) Z.mul). discriminate.
Defined.

(** ** The header of a sample file *)

Lemma HasPrefix_head (c d : ascii) (s p : string) :
  GoStrings.HasPrefix (String c s) (String d p) = true -> d = c.
Proof.
  unfold GoStrings.HasPrefix. simpl.
  destruct (ascii_dec d c); [auto|discriminate].
Qed.

Lemma HasPrefix_tail (c : ascii) (s p : string) :
  GoStrings.HasPrefix (String c s) (String c p) = true ->
  GoStrings.HasPrefix s p = true.
Proof.
  unfold GoStrings.HasPrefix. simpl.
  destruct (ascii_dec c c); [auto|discriminate].
Qed.

Lemma HasPrefix_nil (d : ascii) (p : string) :
  GoStrings.HasPrefix EmptyString (String d p) = false.
Proof. reflexivity. Qed.

(** Two prefixes with different first bytes exclude each other. *)
Lemma HasPrefix_exclusive (line : string) (c d : ascii) (p q : string) :
  c <> d ->
  GoStrings.HasPrefix line (String c p) = true ->
  GoStrings.HasPrefix line (String d q) = false.
Proof.
  intros Hne H. destruct line as [|a line]; [reflexivity|].
  apply HasPrefix_head in H. subst a.
  unfold GoStrings.HasPrefix. simpl.
  destruct (ascii_dec d c); [congruence|reflexivity].
Qed.

Lemma Split_length_cons (c sep : ascii) (s : string) :
  length (GoStrings.Split (String c s) sep) =
  if Ascii.eqb c sep then S (length (GoStrings.Split s sep))
  else length (GoStrings.Split s sep).
Proof.
  simpl. destruct (Ascii.eqb c sep); [reflexivity|].
  destruct (GoStrings.Split s sep) eqn:E; [|reflexivity].
  destruct s; simpl in E; [discriminate|].
  destruct (Ascii.eqb a sep); [discriminate|].
  destruct (GoStrings.Split s sep); discriminate.
Qed.

Lemma Split_length_pos (s : string) (sep : ascii) :
  (1 <= length (GoStrings.Split s sep))%nat.
Proof.
  destruct s as [|c s]; [simpl; lia|].
  rewrite Split_length_cons.
  destruct (Ascii.eqb c sep); [lia|].
  revert c. induction s as [|d s IH]; intros c; [simpl; lia|].
  rewrite Split_length_cons. destruct (Ascii.eqb d sep); [lia|]. apply (IH d).
Qed.

Lemma HasPrefix_append (p s : string) :
  GoStrings.HasPrefix s p = true -> exists t, s = String.append p t.
Proof.
  revert s. induction p as [|c p IH]; intros s H.
  - exists s. reflexivity.
  - destruct s as [|a s]; [discriminate H|].
    pose proof (HasPrefix_head _ _ _ _ H) as ->.
    apply HasPrefix_tail, IH in H as [t ->]. exists t. reflexivity.
Qed.

Lemma Split_length_append (p t : string) (sep : ascii) :
  (length (GoStrings.Split p sep) <=
   length (GoStrings.Split (String.append p t) sep))%nat.
Proof.
  induction p as [|c p IH].
  - simpl. apply Split_length_pos.
  - change (String.append (String c p) t) with (String c (String.append p t)).
    rewrite (Split_length_cons c sep p).
    rewrite (Split_length_cons c sep (String.append p t)).
    destruct (Ascii.eqb c sep); lia.
Qed.

(** A line that starts with "Analysis of sampling" has three fields or
    more: parseSampleRate finds the last two of them. *)
Lemma parseSampleRate_Ok (line : string) :
  GoStrings.HasPrefix line "Analysis of sampling" = true ->
  Sample.parseSampleRate line = Ok 1000000.
Proof.
  intros H. apply HasPrefix_append in H as [t ->].
  pose proof (Split_length_append "Analysis of sampling" t " ") as Hlen.
  change (length (GoStrings.Split "Analysis of sampling" " ")) with 3%nat in Hlen.
  unfold Sample.parseSampleRate.
  set (parts := GoStrings.Split _ " ") in *.
  destruct (lookup_lt_is_Some_2 parts (length parts - 1)%nat) as [x ->]; [lia|].
  destruct (2 <=? length parts)%nat eqn:E; [|apply Nat.leb_gt in E; lia].
  destruct (lookup_lt_is_Some_2 parts (length parts - 2)%nat) as [y ->]; [lia|].
  reflexivity.
Qed.

Lemma namesVersion7_Ok (line : string) :
  namesVersion7 line = true -> Sample.checkReportVersion line = Ok tt.
Proof.
  unfold namesVersion7, Sample.checkReportVersion.
  destruct (GoStrings.Split line ":") as [|a [|v [|? ?]]]; try discriminate.
  destruct (GoStrconv.Atoi _) as [n [e|]].
  - destruct n as [|p|p]; try discriminate.
    do 3 (destruct p; try discriminate).
  - intros H. assert (n = 7) as ->; [|reflexivity].
    destruct n as [|p|p]; try discriminate.
    do 3 (destruct p; try discriminate). reflexivity.
Qed.

(** The first loop leaves p.Processes empty when it meets no process line. *)
Lemma parseHeader_no_process (lines : list string) (st : Store) (rate : Z) :
  callGraphBeforeProcess lines = true ->
  exists rate' rest, Sample.parseHeader lines st [] rate = Ok (st, [], rate', rest).
Proof.
  revert rate. induction lines as [|raw lines IH]; intros rate H; [discriminate|].
  simpl in H. simpl.
  set (line := GoStrings.TrimSpace raw) in *.
  destruct (GoStrings.HasPrefix line "Call graph") eqn:Hcg.
  - rewrite (HasPrefix_exclusive line "C" "A" _ _ ltac:(discriminate) Hcg).
    rewrite (HasPrefix_exclusive line "C" "R" _ _ ltac:(discriminate) Hcg).
    rewrite (HasPrefix_exclusive line "C" "P" _ _ ltac:(discriminate) Hcg).
    simpl. eauto.
  - destruct (GoStrings.HasPrefix line "Process") eqn:Hp; [discriminate|].
    destruct (GoStrings.HasPrefix line "Report Version") eqn:Hrv.
    + apply andb_prop in H as [Hv H].
      rewrite (HasPrefix_exclusive line "R" "A" _ _ ltac:(discriminate) Hrv).
      rewrite (namesVersion7_Ok _ Hv). simpl. apply IH, H.
    + destruct (GoStrings.HasPrefix line "Analysis of sampling") eqn:Ha.
      * rewrite (parseSampleRate_Ok _ Ha). simpl. apply IH, H.
      * simpl. apply IH, H.
Qed.

(** C9, amended: when the header reaches a line that starts with
    "Call graph" and before it no line starts with "Process" and every
    "Report Version" line names version 7, ParseSample returns neither a
    profile nor an error: it panics on index 0 of the empty process list. *)
Theorem C9_missing_process_panics (file : string) :
  callGraphBeforeProcess (Sample.ReadString file) = true ->
  Sample.ParseSample file = Panic index_out_of_range.
Proof.
  intros H.
  destruct (parseHeader_no_process _ emptyStore 1000000 H) as (rate & rest & E).
  unfold Sample.ParseSample, Sample.readCallGraph. rewrite E. reflexivity.
Qed.

Lemma C9_missing_process_panics_witness :
  callGraphBeforeProcess (Sample.ReadString noProcessSample) = true /\
  Sample.ParseSample noProcessSample = Panic index_out_of_range.
Proof.
  split; [reflexivity|].
  apply (C9_missing_process_panics noProcessSample). reflexivity.
Defined.

(** C9 as stated fails: [version6Sample] has a "Call graph" line and no
    "Process:" line before it, and ParseSample returns an error value. *)
Lemma C9_counterexample :
  callGraphBeforeProcessLine (Sample.ReadString version6Sample) = true /\
  Sample.ParseSample version6Sample =
  Err "Report Version was 6, only report version 7 is supported".
Proof. split; vm_compute; reflexivity. Qed.

(** ** The converter: what a run changes *)

Section Relates.

Variable R : Pprof.World -> Pprof.World -> Prop.
Hypothesis R_refl : forall w, R w w.
Hypothesis R_trans : forall w1 w2 w3, R w1 w2 -> R w2 w3 -> R w1 w3.

Lemma relates_ret {A : Type} (a : A) : relates R (Pprof.ret a).
Proof. intros w a' w' H. inversion H; subst. apply R_refl. Qed.

Lemma relates_bind {A B : Type} (m : Pprof.M A) (k : A -> Pprof.M B) :
  relates R m -> (forall a, relates R (k a)) -> relates R (Pprof.bindM m k).
Proof.
  intros Hm Hk w b w' H. unfold Pprof.bindM in H.
  destruct (m w) as [[a w1]| | |] eqn:E; try discriminate.
  eapply R_trans; [eapply Hm, E | eapply Hk, H].
Qed.

Lemma relates_diverge {A : Type} : relates R (@Pprof.diverge A).
Proof. intros w a w' H. discriminate. Qed.

Lemma relates_loadFrame (p : ptr) : relates R (Pprof.loadFrame p).
Proof.
  intros w a w' H. unfold Pprof.loadFrame in H.
  destruct (deref _ p); simpl in H; inversion H; subst. apply R_refl.
Qed.

Lemma relates_loadThread (p : ptr) : relates R (Pprof.loadThread p).
Proof.
  intros w a w' H. unfold Pprof.loadThread in H.
  destruct (deref _ p); simpl in H; inversion H; subst. apply R_refl.
Qed.

Lemma relates_loadProcess (p : ptr) : relates R (Pprof.loadProcess p).
Proof.
  intros w a w' H. unfold Pprof.loadProcess in H.
  destruct (deref _ p); simpl in H; inversion H; subst. apply R_refl.
Qed.

Lemma relates_getConverter : relates R Pprof.getConverter.
Proof. intros w a w' H. inversion H; subst. apply R_refl. Qed.

Lemma relates_getWorld : relates R (fun w => Ok (w, w)).
Proof. intros w a w' H. inversion H; subst. apply R_refl. Qed.

Lemma relates_range {A : Type} (xs : list A) (body : A -> Pprof.M unit) :
  (forall x, relates R (body x)) -> relates R (Pprof.range xs body).
Proof.
  intros Hb. induction xs as [|x xs IH]; simpl.
  - apply relates_ret.
  - apply relates_bind; [apply Hb | intros _; apply IH].
Qed.

(** getProcessLocation, when [R] allows every write to the consumed
    annotations. *)
Lemma relates_getProcessLocation_of (proc : ptr) :
  (forall id name, relates R (Pprof.locationFor id name)) ->
  (forall m, relates R (Pprof.modifyConverter (Pprof.set_consumedAnnotations m))) ->
  relates R (Pprof.getProcessLocation proc).
Proof.
  intros R_locationFor R_consume.
  unfold Pprof.getProcessLocation.
  apply relates_bind; [apply relates_getConverter|]. intros c.
  apply relates_bind; [apply relates_loadProcess|]. intros p.
  apply relates_bind; [|intros name; apply R_locationFor].
  destruct (negb _); [|apply relates_ret].
  destruct (_ !! _); [|apply relates_ret].
  apply relates_bind; [apply R_consume|]. intros _. apply relates_ret.
Qed.

Section Writes.

(** What is left to show for the methods of the converter: that the writes
    to its tables, to the other fields of its struct and to the standard
    output respect [R]. *)
Hypothesis R_getFunction : forall name, relates R (Pprof.getFunction name).
Hypothesis R_locationFor : forall id name, relates R (Pprof.locationFor id name).
Hypothesis R_getProcessLocation :
  forall proc, relates R (Pprof.getProcessLocation proc).
Hypothesis R_sample :
  forall s, relates R (Pprof.modifyConverter
                         (fun c => Pprof.set_samples (Pprof.samples c ++ [s]) c)).
Hypothesis R_print : forall m, relates R (Pprof.print m).

Lemma relates_getLocation (symbolName : string) (proc th : ptr) :
  relates R (Pprof.getLocation symbolName proc th).
Proof.
  unfold Pprof.getLocation.
  apply relates_bind; [apply relates_loadProcess|]. intros p.
  apply relates_bind; [apply relates_loadThread|]. intros t.
  apply R_locationFor.
Qed.

Lemma relates_getThreadLocation (proc th : ptr) :
  relates R (Pprof.getThreadLocation proc th).
Proof.
  unfold Pprof.getThreadLocation.
  apply relates_bind; [apply relates_getConverter|]. intros c.
  apply relates_bind; [apply relates_loadThread|]. intros t.
  apply relates_bind; [apply relates_loadProcess|]. intros p.
  apply R_locationFor.
Qed.

Lemma relates_stackOf (fuel : nat) (currentFrame proc th : ptr)
    (stackTrace : list profile.Location.t) :
  relates R (Pprof.stackOf fuel currentFrame proc th stackTrace).
Proof.
  revert currentFrame stackTrace.
  induction fuel as [|fuel IH]; intros [a|] stackTrace; simpl;
    try apply relates_ret; try apply relates_diverge.
  apply relates_bind; [apply relates_loadFrame|]. intros f.
  apply relates_bind; [apply relates_getLocation|]. intros loc.
  apply relates_bind; [apply relates_loadFrame|]. intros f'.
  apply IH.
Qed.

Lemma relates_convertSample (sample th proc : ptr) :
  relates R (Pprof.convertSample sample th proc).
Proof.
  unfold Pprof.convertSample.
  apply relates_bind; [apply relates_getConverter|]. intros c.
  apply relates_bind; [apply relates_getWorld|]. intros w.
  apply relates_bind; [apply relates_stackOf|]. intros s1.
  apply relates_bind.
  { destruct (negb _); [|apply relates_ret].
    apply relates_bind; [apply relates_getThreadLocation|].
    intros loc. apply relates_ret. }
  intros s2. apply relates_bind.
  { destruct (negb _); [|apply relates_ret].
    apply relates_bind; [apply R_getProcessLocation|].
    intros loc. apply relates_ret. }
  intros s3.
  apply relates_bind; [apply relates_loadFrame|]. intros f.
  apply relates_bind; [apply relates_loadProcess|]. intros p.
  apply relates_bind; [apply relates_loadThread|]. intros t.
  apply relates_ret.
Qed.

Lemma relates_findSamplesInFrame (fuel : nat) (proc th currentFrame : ptr) :
  relates R (Pprof.findSamplesInFrame fuel proc th currentFrame).
Proof.
  revert currentFrame. induction fuel as [|fuel IH]; intros currentFrame; simpl.
  - apply relates_diverge.
  - apply relates_bind; [apply relates_loadFrame|]. intros f.
    apply relates_bind.
    { destruct (negb _); [|apply relates_ret].
      apply relates_bind; [apply relates_convertSample|].
      intros s. apply R_sample. }
    intros _.
    apply relates_bind; [apply relates_loadFrame|]. intros f'.
    apply relates_range. apply IH.
Qed.

Lemma relates_findSamples (proc th : ptr) : relates R (Pprof.findSamples proc th).
Proof.
  unfold Pprof.findSamples.
  apply relates_bind; [apply relates_loadThread|]. intros t.
  destruct (Thread.Frames t) as [|x xs]; [apply relates_ret|].
  apply relates_bind; [apply relates_getWorld|]. intros w.
  apply relates_range. intros y. apply relates_findSamplesInFrame.
Qed.

Lemma relates_convertToPprof : relates R Pprof.convertToPprof.
Proof.
  unfold Pprof.convertToPprof.
  apply relates_bind; [apply relates_getConverter|]. intros c.
  apply relates_bind.
  { apply relates_range. intros proc.
    apply relates_bind; [apply relates_loadProcess|]. intros p.
    apply relates_range. intros th. apply relates_findSamples. }
  intros _.
  apply relates_bind; [apply relates_getConverter|]. intros c'.
  apply relates_bind; [|intros _; apply relates_ret].
  destruct (_ <? _)%nat; [apply R_print|apply relates_ret].
Qed.

Lemma relates_TimeProfileToPprof (st : Store) (deepCopy : TimeProfile.t)
    (exP exT ids : bool) (annotations : gmap N string)
    (p : profile.Profile.t) (w : Pprof.World) :
  Pprof.TimeProfileToPprof st deepCopy exP exT ids annotations = Ok (p, w) ->
  R (Pprof.mkWorld st (Pprof.newPprofConverter deepCopy exP exT ids annotations) [])
    w.
Proof.
  unfold Pprof.TimeProfileToPprof.
  apply relates_bind; [|intros _; apply relates_convertToPprof].
  destruct (_ && _); [apply R_print|apply relates_ret].
Qed.

Lemma relates_runCall (c : converterCall) : relates R (runCall c).
Proof.
  destruct c; simpl;
    try (apply relates_bind; [|intros ?; apply relates_ret]).
  - apply R_getFunction.
  - apply relates_getLocation.
  - apply relates_getThreadLocation.
  - apply R_getProcessLocation.
  - apply relates_convertSample.
  - apply relates_findSamples.
Qed.

Lemma relates_runCalls (cs : list converterCall) : relates R (runCalls cs).
Proof. apply relates_range, relates_runCall. Qed.

End Writes.

End Relates.

(** *** The store *)

Lemma sameHeap_refl (w : Pprof.World) : sameHeap w w.
Proof. reflexivity. Qed.

Lemma sameHeap_trans (w1 w2 w3 : Pprof.World) :
  sameHeap w1 w2 -> sameHeap w2 w3 -> sameHeap w1 w3.
Proof. unfold sameHeap. congruence. Qed.

Lemma sameHeap_modify
    (f : Pprof.deepCopyToPprofConverter -> Pprof.deepCopyToPprofConverter) :
  relates sameHeap (Pprof.modifyConverter f).
Proof. intros w a w' H. inversion H; subst. reflexivity. Qed.

Lemma sameHeap_print (m : Pprof.message) : relates sameHeap (Pprof.print m).
Proof. intros w a w' H. inversion H; subst. reflexivity. Qed.

Lemma sameHeap_getFunction (name : string) :
  relates sameHeap (Pprof.getFunction name).
Proof.
  unfold Pprof.getFunction.
  apply relates_bind;
    [apply sameHeap_trans|apply relates_getConverter, sameHeap_refl|].
  intros c. destruct (_ !! name); [apply relates_ret, sameHeap_refl|].
  apply relates_bind; [apply sameHeap_trans|apply sameHeap_modify|].
  intros _. apply relates_ret, sameHeap_refl.
Qed.

Lemma sameHeap_locationFor (id : Pprof.location) (name : string) :
  relates sameHeap (Pprof.locationFor id name).
Proof.
  unfold Pprof.locationFor.
  apply relates_bind;
    [apply sameHeap_trans|apply relates_getConverter, sameHeap_refl|].
  intros c. destruct (_ !! id); [apply relates_ret, sameHeap_refl|].
  apply relates_bind; [apply sameHeap_trans|apply sameHeap_getFunction|].
  intros f.
  apply relates_bind;
    [apply sameHeap_trans|apply relates_getConverter, sameHeap_refl|].
  intros c'.
  apply relates_bind; [apply sameHeap_trans|apply sameHeap_modify|].
  intros _. apply relates_ret, sameHeap_refl.
Qed.

(** Whatever methods of the converter are called, in whatever order, the
    store that holds the Processes, Threads and Frames is not written. *)
Theorem converter_calls_keep_store (cs : list converterCall) (w w' : Pprof.World) :
  runCalls cs w = Ok (tt, w') -> Pprof.heap w' = Pprof.heap w.
Proof.
  intros H.
  apply (relates_runCalls sameHeap sameHeap_refl sameHeap_trans) in H;
    [exact H | | | |].
  - apply sameHeap_getFunction.
  - apply sameHeap_locationFor.
  - intros proc.
    apply (relates_getProcessLocation_of sameHeap sameHeap_refl sameHeap_trans);
      [apply sameHeap_locationFor|intros m; apply sameHeap_modify].
  - intros s. apply sameHeap_modify.
Qed.

Lemma converter_calls_keep_store_witness :
  exists w',
    runCalls [CallFindSamples (Some 0%nat) (Some 0%nat);
              CallGetProcessLocation (Some 0%nat)]
      (Pprof.mkWorld MakeDeepCopy.1
         (Pprof.newPprofConverter MakeDeepCopy.2 false false true ∅) []) =
    Ok (tt, w') /\ Pprof.heap w' = MakeDeepCopy.1.
Proof.
  eexists. split; [vm_compute; reflexivity|].
  match goal with
  | |- Pprof.heap ?w' = _ =>
      apply (converter_calls_keep_store
               [CallFindSamples (Some 0%nat) (Some 0%nat);
                CallGetProcessLocation (Some 0%nat)]
               (Pprof.mkWorld MakeDeepCopy.1
                  (Pprof.newPprofConverter MakeDeepCopy.2 false false true ∅) [])
               w')
  end.
  vm_compute. reflexivity.
Defined.

(** A conversion that returns leaves the store that holds its input as it
    was, for every TimeProfile, flag combination and annotation map. *)
Theorem TimeProfileToPprof_keeps_store (st : Store) (deepCopy : TimeProfile.t)
    (excludeProcessesFromStack excludeThreadsFromStack
       includeThreadAndProcessIds : bool)
    (annotations : gmap N string) (p : profile.Profile.t) (w : Pprof.World) :
  Pprof.TimeProfileToPprof st deepCopy excludeProcessesFromStack
    excludeThreadsFromStack includeThreadAndProcessIds annotations = Ok (p, w) ->
  Pprof.heap w = st.
Proof.
  intros H.
  apply (relates_TimeProfileToPprof sameHeap sameHeap_refl sameHeap_trans) in H;
    [exact H | | | |].
  - apply sameHeap_locationFor.
  - intros proc.
    apply (relates_getProcessLocation_of sameHeap sameHeap_refl sameHeap_trans);
      [apply sameHeap_locationFor|intros m; apply sameHeap_modify].
  - intros s. apply sameHeap_modify.
  - apply sameHeap_print.
Qed.

Lemma TimeProfileToPprof_keeps_store_witness :
  exists p w,
    Pprof.TimeProfileToPprof MakeDeepCopy.1 MakeDeepCopy.2 false false true
      (<[123%N := "MyAnnotation"]> ∅) = Ok (p, w) /\
    Pprof.heap w = MakeDeepCopy.1.
Proof.
  destruct (Pprof.TimeProfileToPprof MakeDeepCopy.1 MakeDeepCopy.2 false false true
              (<[123%N := "MyAnnotation"]> ∅)) as [[p w]| | |] eqn:E;
    try (vm_compute in E; discriminate E).
  exists p, w. split; [reflexivity|].
  exact (TimeProfileToPprof_keeps_store _ _ _ _ _ _ _ _ E).
Defined.

(** *** The location table *)

Lemma bindM_Ok_inv {A B : Type} (m : Pprof.M A) (k : A -> Pprof.M B)
    (w : Pprof.World) (r : B * Pprof.World) :
  Pprof.bindM m k w = Ok r ->
  exists a w1, m w = Ok (a, w1) /\ k a w1 = Ok r.
Proof.
  unfold Pprof.bindM. destruct (m w) as [[a w1]| | |]; try discriminate.
  eauto.
Qed.

Lemma wrapU64_small (n : N) : (n < 2 ^ 64)%N -> Pprof.wrapU64 n = n.
Proof. intros H. unfold Pprof.wrapU64. apply N.mod_small, H. Qed.

Lemma locationsGrow_refl (w : Pprof.World) : locationsGrow w w.
Proof. split; [reflexivity|]. split; [reflexivity|auto]. Qed.

Lemma locationsGrow_trans (w1 w2 w3 : Pprof.World) :
  locationsGrow w1 w2 -> locationsGrow w2 w3 -> locationsGrow w1 w3.
Proof.
  intros (H1 & H2 & H3) (H4 & H5 & H6).
  split; [congruence|]. split; [etrans; eassumption|auto].
Qed.

(** A write that leaves the location table and its counter alone. *)
Lemma locationsGrow_modify
    (f : Pprof.deepCopyToPprofConverter -> Pprof.deepCopyToPprofConverter) :
  (forall c, Pprof.locations (f c) = Pprof.locations c /\
             Pprof.nextLocationID (f c) = Pprof.nextLocationID c) ->
  relates locationsGrow (Pprof.modifyConverter f).
Proof.
  intros Hf w a w' H. inversion H; subst; clear H.
  destruct (Hf (Pprof.toPprof w)) as [HL HN].
  split; [reflexivity|]. split; simpl.
  - rewrite HL. reflexivity.
  - unfold locationIDsDistinct. rewrite HL, HN. auto.
Qed.

Lemma locationsGrow_print (m : Pprof.message) : relates locationsGrow (Pprof.print m).
Proof.
  intros w a w' H. inversion H; subst.
  split; [reflexivity|]. split; [reflexivity|auto].
Qed.

Lemma locationsGrow_getFunction (name : string) :
  relates locationsGrow (Pprof.getFunction name).
Proof.
  unfold Pprof.getFunction.
  apply relates_bind;
    [apply locationsGrow_trans
    |apply relates_getConverter, locationsGrow_refl|].
  intros c. destruct (_ !! name); [apply relates_ret, locationsGrow_refl|].
  apply relates_bind; [apply locationsGrow_trans| |].
  - apply locationsGrow_modify. intros c0. split; reflexivity.
  - intros _. apply relates_ret, locationsGrow_refl.
Qed.

(** locationFor returns the entry of the table under [id], as it is after
    the call; a new entry gets the next id. *)
Lemma locationFor_spec (id : Pprof.location) (name : string)
    (w w' : Pprof.World) (loc : profile.Location.t) :
  Pprof.locationFor id name w = Ok (loc, w') ->
  Pprof.locations (Pprof.toPprof w') !! id = Some loc /\ locationsGrow w w'.
Proof.
  unfold Pprof.locationFor. intros H.
  apply bindM_Ok_inv in H as (c & w1 & Hc & H).
  inversion Hc; subst; clear Hc.
  destruct (Pprof.locations (Pprof.toPprof w1) !! id) as [l|] eqn:E.
  - inversion H; subst. split; [exact E|apply locationsGrow_refl].
  - apply bindM_Ok_inv in H as (f & w2 & Hf & H).
    pose proof (locationsGrow_getFunction name _ _ _ Hf) as (Hh & Hsub & Hinv).
    apply bindM_Ok_inv in H as (c2 & w3 & Hc & H).
    inversion Hc; subst; clear Hc.
    apply bindM_Ok_inv in H as ([] & w4 & Hm & H).
    inversion Hm; subst; clear Hm.
    inversion H; subst; clear H. simpl.
    assert (HL : Pprof.locations (Pprof.toPprof w3) =
                 Pprof.locations (Pprof.toPprof w1)).
    { unfold Pprof.getFunction in Hf.
      apply bindM_Ok_inv in Hf as (c & w5 & Hc & Hf).
      inversion Hc; subst; clear Hc.
      destruct (_ !! name).
      - inversion Hf; subst. reflexivity.
      - apply bindM_Ok_inv in Hf as ([] & w6 & Hm & Hf).
        inversion Hm; subst; clear Hm. inversion Hf; subst. reflexivity. }
    assert (HN : Pprof.nextLocationID (Pprof.toPprof w3) =
                 Pprof.nextLocationID (Pprof.toPprof w1)).
    { unfold Pprof.getFunction in Hf.
      apply bindM_Ok_inv in Hf as (c & w5 & Hc & Hf).
      inversion Hc; subst; clear Hc.
      destruct (_ !! name).
      - inversion Hf; subst. reflexivity.
      - apply bindM_Ok_inv in Hf as ([] & w6 & Hm & Hf).
        inversion Hm; subst; clear Hm. inversion Hf; subst. reflexivity. }
    rewrite HL.
    split; [apply lookup_insert_eq|].
    split; [exact Hh|]. split; simpl.
    + apply insert_subseteq, E.
    + intros Hold Hbound. simpl in *.
      rewrite map_size_insert_None in Hbound by exact E.
      rewrite map_size_insert_None by exact E.
      destruct Hold as (Hnext & Hlt & Hinj); [lia|].
      rewrite HN, Hnext.
      rewrite wrapU64_small by lia.
      split; [lia|]. split.
      * intros id0 loc0 Hl. rewrite lookup_insert in Hl.
        case_decide.
        -- inversion Hl; subst. simpl. lia.
        -- apply Hlt in Hl. lia.
      * intros id1 id2 loc1 loc2 Hl1 Hl2 Heq.
        rewrite lookup_insert in Hl1. rewrite lookup_insert in Hl2.
        destruct (decide (id = id1)) as [e1|n1];
          destruct (decide (id = id2)) as [e2|n2].
        -- congruence.
        -- inversion Hl1; subst loc1. apply Hlt in Hl2. simpl in Heq. lia.
        -- inversion Hl2; subst loc2. apply Hlt in Hl1. simpl in Heq. lia.
        -- eapply Hinj; eassumption.
Qed.

Lemma locationsGrow_locationFor (id : Pprof.location) (name : string) :
  relates locationsGrow (Pprof.locationFor id name).
Proof. intros w a w' H. apply (locationFor_spec _ _ _ _ _ H). Qed.

Lemma locationsGrow_runCalls (cs : list converterCall) :
  relates locationsGrow (runCalls cs).
Proof.
  apply (relates_runCalls locationsGrow locationsGrow_refl locationsGrow_trans).
  - apply locationsGrow_getFunction.
  - apply locationsGrow_locationFor.
  - intros proc.
    apply (relates_getProcessLocation_of locationsGrow locationsGrow_refl
             locationsGrow_trans); [apply locationsGrow_locationFor|].
    intros m. apply locationsGrow_modify. intros c. split; reflexivity.
  - intros s. apply locationsGrow_modify. intros c. split; reflexivity.
Qed.

Lemma locationIDsDistinct_new (deepCopy : TimeProfile.t) (exP exT ids : bool)
    (annotations : gmap N string) :
  locationIDsDistinct (Pprof.newPprofConverter deepCopy exP exT ids annotations).
Proof.
  intros _. simpl. split; [reflexivity|].
  split; intros *; rewrite lookup_empty; discriminate.
Qed.

(** getLocation returns the entry under (pid, tid, symbol name). *)
Lemma getLocation_spec (symbolName : string) (proc th : ptr)
    (w w' : Pprof.World) (loc : profile.Location.t)
    (p : Process.t) (t : Thread.t) :
  Pprof.getLocation symbolName proc th w = Ok (loc, w') ->
  deref (procs (Pprof.heap w)) proc = Ok p ->
  deref (threads (Pprof.heap w)) th = Ok t ->
  Pprof.locations (Pprof.toPprof w') !!
    Pprof.mkLocation (Process.Pid p) (Thread.Tid t) symbolName = Some loc /\
  locationsGrow w w'.
Proof.
  unfold Pprof.getLocation. intros H Hp Ht.
  apply bindM_Ok_inv in H as (p' & w1 & Hp' & H).
  unfold Pprof.loadProcess in Hp'. rewrite Hp in Hp'. inversion Hp'; subst.
  apply bindM_Ok_inv in H as (t' & w2 & Ht' & H).
  unfold Pprof.loadThread in Ht'. rewrite Ht in Ht'. inversion Ht'; subst.
  eapply locationFor_spec, H.
Qed.

(** On a converter made by newPprofConverter, two calls of getLocation,
    with any other calls of its methods before and between them, return the
    same location id exactly when the symbol names, the pids of the
    processes and the tids of the threads are the same; the ids are uint64
    and the table must hold fewer than 2^64 - 1 locations. *)
Theorem getLocation_same_id_iff_same_key
    (st : Store) (deepCopy : TimeProfile.t) (exP exT ids : bool)
    (annotations : gmap N string) (before between : list converterCall)
    (name1 name2 : string) (proc1 th1 proc2 th2 : ptr)
    (p1 p2 : Process.t) (t1 t2 : Thread.t)
    (w1 w2 w3 w4 : Pprof.World) (loc1 loc2 : profile.Location.t) :
  runCalls before
    (Pprof.mkWorld st
       (Pprof.newPprofConverter deepCopy exP exT ids annotations) []) =
  Ok (tt, w1) ->
  Pprof.getLocation name1 proc1 th1 w1 = Ok (loc1, w2) ->
  runCalls between w2 = Ok (tt, w3) ->
  Pprof.getLocation name2 proc2 th2 w3 = Ok (loc2, w4) ->
  deref (procs st) proc1 = Ok p1 -> deref (threads st) th1 = Ok t1 ->
  deref (procs st) proc2 = Ok p2 -> deref (threads st) th2 = Ok t2 ->
  (N.of_nat (size (Pprof.locations (Pprof.toPprof w4))) + 1 < 2 ^ 64)%N ->
  profile.Location.ID loc1 = profile.Location.ID loc2 <->
  name1 = name2 /\ Process.Pid p1 = Process.Pid p2 /\ Thread.Tid t1 = Thread.Tid t2.
Proof.
  intros H0 H1 H2 H3 Hp1 Ht1 Hp2 Ht2 Hbound.
  apply locationsGrow_runCalls in H0 as (Hh0 & _ & Hi0). simpl in Hh0.
  rewrite <- Hh0 in Hp1, Ht1.
  destruct (getLocation_spec _ _ _ _ _ _ _ _ H1 Hp1 Ht1) as (Hl1 & Hh1 & _ & Hi1).
  apply locationsGrow_runCalls in H2 as (Hh2 & Hs2 & Hi2).
  assert (Hh3 : Pprof.heap w3 = st) by congruence.
  rewrite <- Hh3 in Hp2, Ht2.
  destruct (getLocation_spec _ _ _ _ _ _ _ _ H3 Hp2 Ht2) as (Hl2 & _ & Hs3 & Hi3).
  assert (Hl1' : Pprof.locations (Pprof.toPprof w4) !!
                   Pprof.mkLocation (Process.Pid p1) (Thread.Tid t1) name1 =
                 Some loc1).
  { eapply lookup_weaken; [|exact Hs3].
    eapply lookup_weaken; [exact Hl1|exact Hs2]. }
  assert (Hinv : locationIDsDistinct (Pprof.toPprof w4)).
  { apply Hi3, Hi2, Hi1, Hi0, locationIDsDistinct_new. }
  destruct (Hinv Hbound) as (_ & _ & Hinj).
  split.
  - intros Heq. specialize (Hinj _ _ _ _ Hl1' Hl2 Heq).
    unfold Pprof.mkLocation in Hinj. inversion Hinj. auto.
  - intros (-> & Hp & Ht). rewrite Hp, Ht in Hl1'.
    rewrite Hl1' in Hl2. inversion Hl2. reflexivity.
Qed.

Lemma getLocation_same_id_iff_same_key_witness :
  exists w1 w2 w3 w4 loc1 loc2,
    runCalls [CallFindSamples (Some 0%nat) (Some 0%nat)]
      (Pprof.mkWorld sameTidStore
         (Pprof.newPprofConverter (TimeProfile.mk [Some 0%nat])
            false false true ∅) []) = Ok (tt, w1) /\
    Pprof.getLocation "foo" (Some 0%nat) (Some 0%nat) w1 = Ok (loc1, w2) /\
    runCalls [CallGetProcessLocation (Some 0%nat)] w2 = Ok (tt, w3) /\
    Pprof.getLocation "foo" (Some 0%nat) (Some 1%nat) w3 = Ok (loc2, w4) /\
    (profile.Location.ID loc1 = profile.Location.ID loc2 <->
     "foo" = "foo" /\ 1%N = 1%N /\ 0%N = 0%N).
Proof.
  do 6 eexists.
  split; [vm_compute; reflexivity|].
  split; [vm_compute; reflexivity|].
  split; [vm_compute; reflexivity|].
  split; [vm_compute; reflexivity|].
  eapply (getLocation_same_id_iff_same_key sameTidStore
            (TimeProfile.mk [Some 0%nat]) false false true ∅
            [CallFindSamples (Some 0%nat) (Some 0%nat)]
            [CallGetProcessLocation (Some 0%nat)]
            "foo" "foo" (Some 0%nat) (Some 0%nat) (Some 0%nat) (Some 1%nat)
            (Process.mk "P" 1 [Some 0%nat; Some 1%nat])
            (Process.mk "P" 1 [Some 0%nat; Some 1%nat])
            (Thread.mk "Thread_1" 0 [Some 0%nat])
            (Thread.mk "Thread_2" 0 [Some 1%nat]));
    try (vm_compute; reflexivity).
Defined.

(** ** An annotation for a pid that no process has *)

Section Simulation.

Variable k : N.
Variable st : Store.

Local Abbreviation RW := (sameButAnnotationW k st).
Local Abbreviation RC := (sameButAnnotation k).

Lemma sameButAnnotation_fields (c1 c2 : Pprof.deepCopyToPprofConverter) :
  RC c1 c2 ->
  Pprof.deepCopy c1 = Pprof.deepCopy c2 /\
  Pprof.excludeProcessesFromStack c1 = Pprof.excludeProcessesFromStack c2 /\
  Pprof.excludeThreadsFromStack c1 = Pprof.excludeThreadsFromStack c2 /\
  Pprof.includeThreadAndProcessIds c1 = Pprof.includeThreadAndProcessIds c2 /\
  Pprof.consumedAnnotations c1 = Pprof.consumedAnnotations c2 /\
  Pprof.functions c1 = Pprof.functions c2 /\
  Pprof.nextFunctionID c1 = Pprof.nextFunctionID c2 /\
  Pprof.locations c1 = Pprof.locations c2 /\
  Pprof.nextLocationID c1 = Pprof.nextLocationID c2 /\
  Pprof.samples c1 = Pprof.samples c2.
Proof.
  intros [H _]. unfold withoutAnnotations in H. inversion H. tauto.
Qed.

Lemma sim_ret {A : Type} (RA : A -> A -> Prop) (a1 a2 : A) :
  RA a1 a2 -> simulates RW RA (Pprof.ret a1) (Pprof.ret a2).
Proof. intros H w1 w2 Hw. simpl. auto. Qed.

Lemma sim_bind {A B : Type} (RA : A -> A -> Prop) (RB : B -> B -> Prop)
    (m1 m2 : Pprof.M A) (k1 k2 : A -> Pprof.M B) :
  simulates RW RA m1 m2 ->
  (forall a1 a2, RA a1 a2 -> simulates RW RB (k1 a1) (k2 a2)) ->
  simulates RW RB (Pprof.bindM m1 k1) (Pprof.bindM m2 k2).
Proof.
  intros Hm Hk w1 w2 Hw. specialize (Hm w1 w2 Hw).
  unfold Pprof.bindM, agree in *.
  destruct (m1 w1) as [[a1 w1']| | |], (m2 w2) as [[a2 w2']| | |];
    try contradiction; try assumption.
  destruct Hm as [Ha Hw']. apply (Hk a1 a2 Ha w1' w2' Hw').
Qed.

Lemma sim_diverge {A : Type} (RA : A -> A -> Prop) :
  simulates RW RA (@Pprof.diverge A) (@Pprof.diverge A).
Proof. intros w1 w2 Hw. exact I. Qed.

Lemma sim_loadFrame (p : ptr) :
  simulates RW eq (Pprof.loadFrame p) (Pprof.loadFrame p).
Proof.
  intros w1 w2 Hw. pose proof Hw as (H1 & H2 & _).
  unfold Pprof.loadFrame. rewrite H1, H2.
  destruct (deref (frames st) p); simpl; auto.
Qed.

Lemma sim_loadThread (p : ptr) :
  simulates RW eq (Pprof.loadThread p) (Pprof.loadThread p).
Proof.
  intros w1 w2 Hw. pose proof Hw as (H1 & H2 & _).
  unfold Pprof.loadThread. rewrite H1, H2.
  destruct (deref (threads st) p); simpl; auto.
Qed.

(** A loaded process is one of the store. *)
Lemma sim_loadProcess (p : ptr) :
  simulates RW (fun a1 a2 => a1 = a2 /\ deref (procs st) p = Ok a1)
    (Pprof.loadProcess p) (Pprof.loadProcess p).
Proof.
  intros w1 w2 Hw. pose proof Hw as (H1 & H2 & _).
  unfold Pprof.loadProcess. rewrite H1, H2.
  destruct (deref (procs st) p); simpl; auto.
Qed.

Lemma sim_getConverter : simulates RW RC Pprof.getConverter Pprof.getConverter.
Proof. intros w1 w2 Hw. simpl. split; [apply Hw|exact Hw]. Qed.

Lemma sim_getWorld :
  simulates RW (fun w1 w2 => Pprof.heap w1 = Pprof.heap w2)
    (fun w => Ok (w, w)) (fun w => Ok (w, w)).
Proof.
  intros w1 w2 Hw. simpl. split; [|exact Hw].
  destruct Hw as (H1 & H2 & _). congruence.
Qed.

Lemma sim_modify
    (f1 f2 : Pprof.deepCopyToPprofConverter -> Pprof.deepCopyToPprofConverter) :
  (forall c1 c2, RC c1 c2 -> RC (f1 c1) (f2 c2)) ->
  simulates RW eq (Pprof.modifyConverter f1) (Pprof.modifyConverter f2).
Proof.
  intros Hf w1 w2 (H1 & H2 & Hc). simpl. split; [reflexivity|].
  split; [exact H1|]. split; [exact H2|]. apply Hf, Hc.
Qed.

Lemma sim_print (m1 m2 : Pprof.message) :
  simulates RW eq (Pprof.print m1) (Pprof.print m2).
Proof.
  intros w1 w2 (H1 & H2 & Hc). simpl. split; [reflexivity|].
  split; [exact H1|]. split; [exact H2|exact Hc].
Qed.

Lemma sim_range {A : Type} (xs : list A) (body1 body2 : A -> Pprof.M unit) :
  (forall x, x ∈ xs -> simulates RW eq (body1 x) (body2 x)) ->
  simulates RW eq (Pprof.range xs body1) (Pprof.range xs body2).
Proof.
  induction xs as [|x xs IH]; intros Hb; simpl.
  - apply sim_ret. reflexivity.
  - apply (sim_bind eq).
    + apply Hb. left.
    + intros _ _ _. apply IH. intros y Hy. apply Hb. right. exact Hy.
Qed.

Lemma sim_getFunction (name : string) :
  simulates RW eq (Pprof.getFunction name) (Pprof.getFunction name).
Proof.
  unfold Pprof.getFunction.
  apply (sim_bind RC); [apply sim_getConverter|].
  intros c1 c2 Hc.
  destruct (sameButAnnotation_fields _ _ Hc)
    as (_ & _ & _ & _ & _ & HF & HN & _).
  rewrite HF, HN.
  destruct (Pprof.functions c2 !! name); [apply sim_ret; reflexivity|].
  apply (sim_bind eq).
  - apply sim_modify. intros d1 d2 Hd.
    destruct (sameButAnnotation_fields _ _ Hd)
      as (? & ? & ? & ? & ? & ? & ? & ? & ? & ?).
    split; [|apply Hd].
    unfold withoutAnnotations, Pprof.set_functions. simpl. congruence.
  - intros _ _ _. apply sim_ret. reflexivity.
Qed.

Lemma sim_locationFor (id : Pprof.location) (name : string) :
  simulates RW eq (Pprof.locationFor id name) (Pprof.locationFor id name).
Proof.
  unfold Pprof.locationFor.
  apply (sim_bind RC); [apply sim_getConverter|].
  intros c1 c2 Hc.
  destruct (sameButAnnotation_fields _ _ Hc)
    as (_ & _ & _ & _ & _ & _ & _ & HL & HN & _).
  rewrite HL, HN.
  destruct (Pprof.locations c2 !! id); [apply sim_ret; reflexivity|].
  apply (sim_bind eq); [apply sim_getFunction|].
  intros f ? <-.
  apply (sim_bind RC); [apply sim_getConverter|].
  intros d1 d2 Hd.
  destruct (sameButAnnotation_fields _ _ Hd)
    as (_ & _ & _ & _ & _ & _ & _ & HL' & HN' & _).
  rewrite HL', HN'.
  apply (sim_bind eq).
  - apply sim_modify. intros e1 e2 He.
    destruct (sameButAnnotation_fields _ _ He)
      as (? & ? & ? & ? & ? & ? & ? & ? & ? & ?).
    split; [|apply He].
    unfold withoutAnnotations, Pprof.set_locations. simpl. congruence.
  - intros _ _ _. apply sim_ret. reflexivity.
Qed.

Lemma sim_getLocation (symbolName : string) (proc th : ptr) :
  simulates RW eq (Pprof.getLocation symbolName proc th)
    (Pprof.getLocation symbolName proc th).
Proof.
  unfold Pprof.getLocation.
  eapply sim_bind; [apply sim_loadProcess|]. intros p ? [<- _].
  apply (sim_bind eq); [apply sim_loadThread|]. intros t ? <-.
  apply sim_locationFor.
Qed.

Lemma sim_getThreadLocation (proc th : ptr) :
  simulates RW eq (Pprof.getThreadLocation proc th)
    (Pprof.getThreadLocation proc th).
Proof.
  unfold Pprof.getThreadLocation.
  apply (sim_bind RC); [apply sim_getConverter|].
  intros c1 c2 Hc.
  destruct (sameButAnnotation_fields _ _ Hc) as (_ & _ & _ & HI & _).
  rewrite HI.
  apply (sim_bind eq); [apply sim_loadThread|]. intros t ? <-.
  eapply sim_bind; [apply sim_loadProcess|]. intros p ? [<- _].
  apply sim_locationFor.
Qed.

(** The one place that reads the annotations. *)
Lemma sim_getProcessLocation (proc : ptr) :
  notPidOf k st proc ->
  simulates RW eq (Pprof.getProcessLocation proc) (Pprof.getProcessLocation proc).
Proof.
  intros Hproc. unfold Pprof.getProcessLocation.
  apply (sim_bind RC); [apply sim_getConverter|].
  intros c1 c2 Hc.
  destruct (sameButAnnotation_fields _ _ Hc) as (_ & _ & _ & HI & HC & _).
  rewrite HI, HC.
  eapply sim_bind; [apply sim_loadProcess|]. intros p ? [<- Hp].
  apply (sim_bind eq); [|intros name ? <-; apply sim_locationFor].
  destruct (N.eqb_spec (Process.Pid p) 0) as [E|E]; simpl;
    [apply sim_ret; reflexivity|].
  assert (Hne : Process.Pid p <> k).
  { intros Hk. apply E. rewrite Hk. apply (Hproc p Hp Hk). }
  destruct Hc as [_ Hann]. rewrite (Hann _ Hne).
  destruct (Pprof.annotations c2 !! Process.Pid p);
    [|apply sim_ret; reflexivity].
  apply (sim_bind eq).
  - apply sim_modify. intros e1 e2 He.
    destruct (sameButAnnotation_fields _ _ He)
      as (? & ? & ? & ? & ? & ? & ? & ? & ? & ?).
    split; [|apply He].
    unfold withoutAnnotations, Pprof.set_consumedAnnotations. simpl. congruence.
  - intros _ _ _. apply sim_ret. reflexivity.
Qed.

Lemma sim_stackOf (fuel : nat) (currentFrame proc th : ptr)
    (stackTrace : list profile.Location.t) :
  simulates RW eq (Pprof.stackOf fuel currentFrame proc th stackTrace)
    (Pprof.stackOf fuel currentFrame proc th stackTrace).
Proof.
  revert currentFrame stackTrace.
  induction fuel as [|fuel IH]; intros [a|] stackTrace; simpl;
    try (apply sim_ret; reflexivity); try apply sim_diverge.
  apply (sim_bind eq); [apply sim_loadFrame|]. intros f ? <-.
  apply (sim_bind eq); [apply sim_getLocation|]. intros loc ? <-.
  apply (sim_bind eq); [apply sim_loadFrame|]. intros f' ? <-.
  apply IH.
Qed.

Lemma sim_convertSample (sample th proc : ptr) :
  notPidOf k st proc ->
  simulates RW eq (Pprof.convertSample sample th proc)
    (Pprof.convertSample sample th proc).
Proof.
  intros Hproc. unfold Pprof.convertSample.
  apply (sim_bind RC); [apply sim_getConverter|].
  intros c1 c2 Hc.
  destruct (sameButAnnotation_fields _ _ Hc) as (_ & HP & HT & _).
  rewrite HP, HT.
  eapply sim_bind; [apply sim_getWorld|]. intros w1 w2 Hw. simpl in Hw.
  rewrite Hw.
  apply (sim_bind eq); [apply sim_stackOf|]. intros s1 ? <-.
  apply (sim_bind eq).
  { destruct (negb _); [|apply sim_ret; reflexivity].
    apply (sim_bind eq); [apply sim_getThreadLocation|].
    intros loc ? <-. apply sim_ret. reflexivity. }
  intros s2 ? <-.
  apply (sim_bind eq).
  { destruct (negb _); [|apply sim_ret; reflexivity].
    apply (sim_bind eq); [apply sim_getProcessLocation, Hproc|].
    intros loc ? <-. apply sim_ret. reflexivity. }
  intros s3 ? <-.
  apply (sim_bind eq); [apply sim_loadFrame|]. intros f ? <-.
  eapply sim_bind; [apply sim_loadProcess|]. intros p ? [<- _].
  apply (sim_bind eq); [apply sim_loadThread|]. intros t ? <-.
  apply sim_ret. reflexivity.
Qed.

Lemma sim_findSamplesInFrame (fuel : nat) (proc th currentFrame : ptr) :
  notPidOf k st proc ->
  simulates RW eq (Pprof.findSamplesInFrame fuel proc th currentFrame)
    (Pprof.findSamplesInFrame fuel proc th currentFrame).
Proof.
  intros Hproc. revert currentFrame.
  induction fuel as [|fuel IH]; intros currentFrame; simpl.
  - apply sim_diverge.
  - apply (sim_bind eq); [apply sim_loadFrame|]. intros f ? <-.
    apply (sim_bind eq).
    { destruct (negb _); [|apply sim_ret; reflexivity].
      apply (sim_bind eq); [apply sim_convertSample, Hproc|].
      intros s ? <-. apply sim_modify. intros e1 e2 He.
      destruct (sameButAnnotation_fields _ _ He)
        as (? & ? & ? & ? & ? & ? & ? & ? & ? & ?).
      split; [|apply He].
      unfold withoutAnnotations, Pprof.set_samples. simpl. congruence. }
    intros _ _ _.
    apply (sim_bind eq); [apply sim_loadFrame|]. intros f' ? <-.
    apply sim_range. intros x _. apply IH.
Qed.

Lemma sim_findSamples (proc th : ptr) :
  notPidOf k st proc ->
  simulates RW eq (Pprof.findSamples proc th) (Pprof.findSamples proc th).
Proof.
  intros Hproc. unfold Pprof.findSamples.
  apply (sim_bind eq); [apply sim_loadThread|]. intros t ? <-.
  destruct (Thread.Frames t) as [|x xs]; [apply sim_ret; reflexivity|].
  eapply sim_bind; [apply sim_getWorld|]. intros w1 w2 Hw. simpl in Hw.
  rewrite Hw.
  apply sim_range. intros y _. apply sim_findSamplesInFrame, Hproc.
Qed.

Lemma sim_maybe_print (b1 b2 : bool) (m1 m2 : Pprof.message) :
  simulates RW eq (if b1 then Pprof.print m1 else Pprof.ret tt)
    (if b2 then Pprof.print m2 else Pprof.ret tt).
Proof.
  intros w1 w2 (H1 & H2 & Hc).
  destruct b1, b2; simpl; (split; [reflexivity|]);
    (split; [exact H1|]); (split; [exact H2|exact Hc]).
Qed.

Lemma sim_convertToPprof (w1 w2 : Pprof.World) :
  RW w1 w2 ->
  (forall proc,
      proc ∈ TimeProfile.Processes (Pprof.deepCopy (Pprof.toPprof w1)) ->
      notPidOf k st proc) ->
  agree eq RW (Pprof.convertToPprof w1) (Pprof.convertToPprof w2).
Proof.
  intros Hw Hprocs. unfold Pprof.convertToPprof.
  match goal with
  | |- agree _ _ (Pprof.bindM _ ?k1 _) (Pprof.bindM _ ?k2 _) =>
      change (agree eq RW (k1 (Pprof.toPprof w1) w1) (k2 (Pprof.toPprof w2) w2))
  end.
  cbv beta.
  pose proof Hw as (_ & _ & Hc).
  destruct (sameButAnnotation_fields _ _ Hc) as (HD & _).
  rewrite <- HD.
  apply (sim_bind eq); [| |exact Hw].
  - apply sim_range. intros proc Hin.
    eapply sim_bind; [apply sim_loadProcess|]. intros p ? [<- _].
    apply sim_range. intros th _. apply sim_findSamples, Hprocs, Hin.
  - intros _ _ _.
    apply (sim_bind (sameButAnnotation k)); [apply sim_getConverter|].
    intros c1 c2 Hc'.
    destruct (sameButAnnotation_fields _ _ Hc')
      as (_ & _ & _ & _ & _ & HF & _ & HL & _ & HS).
    rewrite HF, HL, HS.
    apply (sim_bind eq); [apply sim_maybe_print|].
    intros _ _ _. apply sim_ret. reflexivity.
Qed.

End Simulation.

Lemma agree_eq_profile {A : Type} (RW : Pprof.World -> Pprof.World -> Prop)
    (r1 r2 : outcome (A * Pprof.World)) :
  agree eq RW r1 r2 -> mapOutcome fst r1 = mapOutcome fst r2.
Proof.
  unfold agree.
  destruct r1 as [[a1 w1]| | |], r2 as [[a2 w2]| | |]; simpl;
    try contradiction; try congruence.
  intros [-> _]. reflexivity.
Qed.

Lemma bind_maybe_print {A : Type} (b : bool) (m : Pprof.message)
    (k : unit -> Pprof.M A) (w : Pprof.World) :
  Pprof.bindM (if b then Pprof.print m else Pprof.ret tt) k w =
  k tt (Pprof.mkWorld (Pprof.heap w) (Pprof.toPprof w)
          (if b then Pprof.stdout w ++ [m] else Pprof.stdout w)).
Proof. destruct b, w; reflexivity. Qed.

(** Adding or changing the annotation for a pid [k] that no process of the
    TimeProfile has, or for pid 0, changes nothing in the conversion but
    what is printed: it ends the same way, and a profile that is returned
    is the same profile. *)
Theorem unmatched_annotation_changes_nothing
    (st : Store) (deepCopy : TimeProfile.t) (exP exT ids : bool)
    (annotations : gmap N string) (k : N) (annotation : string) :
  (forall proc, proc ∈ TimeProfile.Processes deepCopy -> notPidOf k st proc) ->
  mapOutcome fst
    (Pprof.TimeProfileToPprof st deepCopy exP exT ids
       (<[k := annotation]> annotations)) =
  mapOutcome fst
    (Pprof.TimeProfileToPprof st deepCopy exP exT ids annotations).
Proof.
  intros Hprocs. apply (agree_eq_profile (sameButAnnotationW k st)).
  unfold Pprof.TimeProfileToPprof.
  rewrite !bind_maybe_print.
  apply sim_convertToPprof; [|exact Hprocs].
  split; [reflexivity|]. split; [reflexivity|]. split; [reflexivity|].
  intros j Hj. simpl. apply lookup_insert_ne. congruence.
Qed.

Lemma unmatched_annotation_changes_nothing_witness :
  (forall proc, proc ∈ TimeProfile.Processes MakeDeepCopy.2 ->
                notPidOf 1337 MakeDeepCopy.1 proc) /\
  mapOutcome fst
    (Pprof.TimeProfileToPprof MakeDeepCopy.1 MakeDeepCopy.2 false true true
       (<[1337%N := "ExtraAnnotation"]> (<[123%N := "MyAnnotation"]> ∅))) =
  mapOutcome fst
    (Pprof.TimeProfileToPprof MakeDeepCopy.1 MakeDeepCopy.2 false true true
       (<[123%N := "MyAnnotation"]> ∅)).
Proof.
  assert (H : forall proc, proc ∈ TimeProfile.Processes MakeDeepCopy.2 ->
                           notPidOf 1337 MakeDeepCopy.1 proc).
  { intros proc Hin p Hp Hk. simpl in Hin.
    apply list_elem_of_singleton in Hin. subst proc.
    simpl in Hp. inversion Hp; subst p. discriminate Hk. }
  split; [exact H|].
  apply (unmatched_annotation_changes_nothing MakeDeepCopy.1 MakeDeepCopy.2
           false true true (<[123%N := "MyAnnotation"]> ∅) 1337 "ExtraAnnotation" H).
Defined.

(** ** The advisory about unused annotations *)

Section Consumed.

Variable k : N.
Variable st : Store.
Hypothesis no_process_k : forall proc, notPidOf k st proc.

Local Abbreviation RK := (consumesGiven k st).

Lemma consumesGiven_refl (w : Pprof.World) : RK w w.
Proof. intros H. auto. Qed.

Lemma consumesGiven_trans (w1 w2 w3 : Pprof.World) :
  RK w1 w2 -> RK w2 w3 -> RK w1 w3.
Proof.
  intros H12 H23 H1. destruct (H12 H1) as (H2 & Ha & Hk & Hs).
  destruct (H23 H2) as (H3 & Ha' & Hk' & Hs').
  split; [exact H3|]. split; [congruence|]. split; [auto|].
  intros H. apply Hs', Hs, H.
Qed.

(** A write that leaves the annotations and the consumed ones alone. *)
Lemma consumesGiven_modify
    (f : Pprof.deepCopyToPprofConverter -> Pprof.deepCopyToPprofConverter) :
  (forall c, Pprof.annotations (f c) = Pprof.annotations c /\
             Pprof.consumedAnnotations (f c) = Pprof.consumedAnnotations c) ->
  relates RK (Pprof.modifyConverter f).
Proof.
  intros Hf w a w' H. inversion H; subst; clear H. intros Hh.
  destruct (Hf (Pprof.toPprof w)) as [HA HC]. simpl.
  rewrite HA, HC. auto.
Qed.

Lemma consumesGiven_print (m : Pprof.message) : relates RK (Pprof.print m).
Proof. intros w a w' H. inversion H; subst. intros Hh. simpl. auto. Qed.

Lemma consumesGiven_getFunction (name : string) :
  relates RK (Pprof.getFunction name).
Proof.
  unfold Pprof.getFunction.
  apply relates_bind;
    [apply consumesGiven_trans
    |apply relates_getConverter, consumesGiven_refl|].
  intros c. destruct (_ !! name); [apply relates_ret, consumesGiven_refl|].
  apply relates_bind; [apply consumesGiven_trans| |].
  - apply consumesGiven_modify. intros c0. split; reflexivity.
  - intros _. apply relates_ret, consumesGiven_refl.
Qed.

Lemma consumesGiven_locationFor (id : Pprof.location) (name : string) :
  relates RK (Pprof.locationFor id name).
Proof.
  unfold Pprof.locationFor.
  apply relates_bind;
    [apply consumesGiven_trans
    |apply relates_getConverter, consumesGiven_refl|].
  intros c. destruct (_ !! id); [apply relates_ret, consumesGiven_refl|].
  apply relates_bind;
    [apply consumesGiven_trans|apply consumesGiven_getFunction|].
  intros f.
  apply relates_bind;
    [apply consumesGiven_trans
    |apply relates_getConverter, consumesGiven_refl|].
  intros c'.
  apply relates_bind; [apply consumesGiven_trans| |].
  - apply consumesGiven_modify. intros c0. split; reflexivity.
  - intros _. apply relates_ret, consumesGiven_refl.
Qed.

(** getProcessLocation consumes the annotation of the process it is given,
    and no other. *)
Lemma consumesGiven_getProcessLocation (proc : ptr) :
  relates RK (Pprof.getProcessLocation proc).
Proof.
  intros w loc w' H. unfold Pprof.getProcessLocation in H.
  apply bindM_Ok_inv in H as (c & w1 & Hc & H).
  inversion Hc; subst; clear Hc.
  apply bindM_Ok_inv in H as (p & w2 & Hp & H).
  unfold Pprof.loadProcess in Hp.
  destruct (deref (procs (Pprof.heap w1)) proc) as [p'| | |] eqn:Ep;
    simpl in Hp; inversion Hp; subst; clear Hp.
  apply bindM_Ok_inv in H as (name & w3 & Hn & H).
  apply consumesGiven_locationFor in H.
  eapply consumesGiven_trans; [|exact H]. clear H.
  destruct (N.eqb_spec (Process.Pid p) 0) as [E|E]; simpl in Hn.
  { inversion Hn; subst. apply consumesGiven_refl. }
  destruct (Pprof.annotations (Pprof.toPprof w2) !! Process.Pid p)
    as [annotation|] eqn:Ea.
  2:{ inversion Hn; subst. apply consumesGiven_refl. }
  apply bindM_Ok_inv in Hn as ([] & w4 & Hm & Hn).
  inversion Hm; subst; clear Hm. inversion Hn; subst; clear Hn.
  intros Hh. simpl. split; [exact Hh|]. split; [reflexivity|]. split.
  - intros Hk. rewrite lookup_insert_ne; [exact Hk|].
    intros Heq. apply E. rewrite Heq.
    rewrite Hh in Ep. apply (no_process_k proc p Ep Heq).
  - intros Hs. apply insert_subseteq_l; assumption.
Qed.

Lemma consumesGiven_traversal (Processes : list ptr) :
  relates RK
    (Pprof.range Processes
       (fun proc =>
          Pprof.bindM (Pprof.loadProcess proc)
            (fun p => Pprof.range (Process.Threads p)
                        (fun th => Pprof.findSamples proc th)))).
Proof.
  apply (relates_range RK consumesGiven_refl consumesGiven_trans).
  intros proc.
  apply (relates_bind RK consumesGiven_trans);
    [apply relates_loadProcess, consumesGiven_refl|].
  intros p. apply (relates_range RK consumesGiven_refl consumesGiven_trans).
  intros th.
  apply (relates_findSamples RK consumesGiven_refl consumesGiven_trans).
  - apply consumesGiven_locationFor.
  - apply consumesGiven_getProcessLocation.
  - intros s. apply consumesGiven_modify. intros c. split; reflexivity.
Qed.

End Consumed.

(** When the annotation map has an entry for a pid [k] that no process in
    the store has (or for pid 0), a conversion that returns has printed, as
    its last message, the advisory about unused annotations, and the
    advisory names that entry. *)
Theorem unused_annotation_is_reported
    (st : Store) (deepCopy : TimeProfile.t) (exP exT ids : bool)
    (annotations : gmap N string) (k : N) (annotation : string)
    (p : profile.Profile.t) (w : Pprof.World) :
  annotations !! k = Some annotation ->
  (forall proc, notPidOf k st proc) ->
  Pprof.TimeProfileToPprof st deepCopy exP exT ids annotations = Ok (p, w) ->
  exists unused,
    last (Pprof.stdout w) = Some (Pprof.UnusedAnnotations unused) /\
    unused !! k = Some annotation.
Proof.
  intros Hk Hprocs H. unfold Pprof.TimeProfileToPprof in H.
  rewrite bind_maybe_print in H.
  unfold Pprof.convertToPprof in H.
  apply bindM_Ok_inv in H as (c & w1 & Hc & H).
  inversion Hc; subst; clear Hc.
  apply bindM_Ok_inv in H as ([] & w2 & Ht & H).
  apply (consumesGiven_traversal k st Hprocs) in Ht.
  destruct Ht as (Hh & Ha & Hck & Hsub); [reflexivity|].
  simpl in Ha, Hck, Hsub.
  specialize (Hck (lookup_empty _)).
  specialize (Hsub (map_empty_subseteq _)).
  apply bindM_Ok_inv in H as (c2 & w3 & Hc & H).
  inversion Hc; subst; clear Hc.
  apply bindM_Ok_inv in H as ([] & w4 & Hpr & H).
  inversion H; subst; clear H.
  assert (Hlt : (size (Pprof.consumedAnnotations (Pprof.toPprof w3)) <
                 size (Pprof.annotations (Pprof.toPprof w3)))%nat).
  { apply map_subset_size. split; [exact Hsub|].
    intros Hrev. try rewrite Ha in Hrev.
    pose proof (lookup_weaken _ _ _ _ Hk Hrev) as Hc. congruence. }
  apply Nat.ltb_lt in Hlt. rewrite Hlt in Hpr.
  inversion Hpr; subst; clear Hpr. simpl.
  eexists. split; [apply last_snoc|].
  apply map_lookup_filter_Some. split; [try rewrite Ha; exact Hk|exact Hck].
Qed.

Lemma unused_annotation_is_reported_witness :
  exists p w unused,
    Pprof.TimeProfileToPprof MakeDeepCopy.1 MakeDeepCopy.2 false true true
      (<[1337%N := "ExtraAnnotation"]> (<[123%N := "MyAnnotation"]> ∅)) =
    Ok (p, w) /\
    last (Pprof.stdout w) = Some (Pprof.UnusedAnnotations unused) /\
    unused !! 1337%N = Some "ExtraAnnotation".
Proof.
  destruct (Pprof.TimeProfileToPprof MakeDeepCopy.1 MakeDeepCopy.2 false true true
              (<[1337%N := "ExtraAnnotation"]> (<[123%N := "MyAnnotation"]> ∅)))
    as [[p w]| | |] eqn:E; try (vm_compute in E; discriminate E).
  assert (Hprocs : forall proc, notPidOf 1337 MakeDeepCopy.1 proc).
  { intros [[|a]|] pr Hp Hpid; simpl in Hp; try discriminate Hp.
    inversion Hp; subst pr. discriminate Hpid. }
  destruct (unused_annotation_is_reported MakeDeepCopy.1 MakeDeepCopy.2
              false true true
              (<[1337%N := "ExtraAnnotation"]> (<[123%N := "MyAnnotation"]> ∅))
              1337 "ExtraAnnotation" p w (lookup_insert_eq _ _ _) Hprocs E)
    as (unused & H1 & H2).
  exists p, w, unused. auto.
Defined.

(** ** One sample for every frame with a self weight *)

Lemma treeWeights_node (n : string) (d w : Z) (children : list FrameTree) :
  treeWeights (FrameNode n d w children) = w :: forestWeights children.
Proof.
  simpl. f_equal. unfold forestWeights.
  induction children as [|c l IH]; simpl; [reflexivity|]. rewrite IH. reflexivity.
Qed.

Lemma sampleValues_app (l1 l2 : list Z) :
  sampleValues (l1 ++ l2) = sampleValues l1 ++ sampleValues l2.
Proof. unfold sampleValues. rewrite filter_app, map_app. reflexivity. Qed.

Lemma keepsSamples_refl (w : Pprof.World) : keepsSamples w w.
Proof. split; reflexivity. Qed.

Lemma keepsSamples_trans (w1 w2 w3 : Pprof.World) :
  keepsSamples w1 w2 -> keepsSamples w2 w3 -> keepsSamples w1 w3.
Proof. intros [H1 H2] [H3 H4]. split; congruence. Qed.

Lemma keepsSamples_modify
    (f : Pprof.deepCopyToPprofConverter -> Pprof.deepCopyToPprofConverter) :
  (forall c, Pprof.samples (f c) = Pprof.samples c) ->
  relates keepsSamples (Pprof.modifyConverter f).
Proof.
  intros Hf w a w' H. inversion H; subst. split; [reflexivity|apply Hf].
Qed.

Lemma keepsSamples_getFunction (name : string) :
  relates keepsSamples (Pprof.getFunction name).
Proof.
  unfold Pprof.getFunction.
  apply relates_bind;
    [apply keepsSamples_trans|apply relates_getConverter, keepsSamples_refl|].
  intros c. destruct (_ !! name); [apply relates_ret, keepsSamples_refl|].
  apply relates_bind; [apply keepsSamples_trans| |].
  - apply keepsSamples_modify. reflexivity.
  - intros _. apply relates_ret, keepsSamples_refl.
Qed.

Lemma keepsSamples_locationFor (id : Pprof.location) (name : string) :
  relates keepsSamples (Pprof.locationFor id name).
Proof.
  unfold Pprof.locationFor.
  apply relates_bind;
    [apply keepsSamples_trans|apply relates_getConverter, keepsSamples_refl|].
  intros c. destruct (_ !! id); [apply relates_ret, keepsSamples_refl|].
  apply relates_bind; [apply keepsSamples_trans|apply keepsSamples_getFunction|].
  intros f.
  apply relates_bind;
    [apply keepsSamples_trans|apply relates_getConverter, keepsSamples_refl|].
  intros c'.
  apply relates_bind; [apply keepsSamples_trans| |].
  - apply keepsSamples_modify. reflexivity.
  - intros _. apply relates_ret, keepsSamples_refl.
Qed.

Lemma keepsSamples_getProcessLocation (proc : ptr) :
  relates keepsSamples (Pprof.getProcessLocation proc).
Proof.
  apply (relates_getProcessLocation_of keepsSamples keepsSamples_refl
           keepsSamples_trans); [apply keepsSamples_locationFor|].
  intros m. apply keepsSamples_modify. reflexivity.
Qed.

(** convertSample makes a sample with the frame's self weight as its value;
    it does not add it to the samples. *)
Lemma convertSample_spec (sample th proc : ptr) (w w' : Pprof.World)
    (s : profile.Sample.t) :
  Pprof.convertSample sample th proc w = Ok (s, w') ->
  keepsSamples w w' /\
  exists f, deref (frames (Pprof.heap w)) sample = Ok f /\
            profile.Sample.Value s = [Frame.SelfWeightNs f].
Proof.
  intros H. unfold Pprof.convertSample in H.
  apply bindM_Ok_inv in H as (c & w1 & Hc & H). inversion Hc; subst; clear Hc.
  apply bindM_Ok_inv in H as (w0 & w2 & Hw & H). inversion Hw; subst; clear Hw.
  apply bindM_Ok_inv in H as (s1 & w3 & H1 & H).
  apply (relates_stackOf keepsSamples keepsSamples_refl keepsSamples_trans
           keepsSamples_locationFor) in H1.
  apply bindM_Ok_inv in H as (s2 & w4 & H2 & H).
  assert (K2 : keepsSamples w3 w4).
  { destruct (negb (Pprof.excludeThreadsFromStack _)).
    - apply bindM_Ok_inv in H2 as (l & w5 & Hl & H2).
      inversion H2; subst; clear H2.
      apply (relates_getThreadLocation keepsSamples keepsSamples_refl
               keepsSamples_trans keepsSamples_locationFor) in Hl. exact Hl.
    - inversion H2; subst. apply keepsSamples_refl. }
  apply bindM_Ok_inv in H as (s3 & w5 & H3 & H).
  assert (K3 : keepsSamples w4 w5).
  { destruct (negb (Pprof.excludeProcessesFromStack _)).
    - apply bindM_Ok_inv in H3 as (l & w6 & Hl & H3).
      inversion H3; subst; clear H3.
      apply keepsSamples_getProcessLocation in Hl. exact Hl.
    - inversion H3; subst. apply keepsSamples_refl. }
  assert (K : keepsSamples w2 w5)
    by (eapply keepsSamples_trans; [eapply keepsSamples_trans|]; eassumption).
  apply bindM_Ok_inv in H as (f & w6 & Hf & H).
  unfold Pprof.loadFrame in Hf.
  destruct (deref (frames (Pprof.heap w5)) sample) as [f'| | |] eqn:Ef;
    simpl in Hf; inversion Hf; subst; clear Hf.
  apply bindM_Ok_inv in H as (p & w7 & Hp & H).
  unfold Pprof.loadProcess in Hp.
  destruct (deref (procs (Pprof.heap w6)) proc) as [p'| | |];
    simpl in Hp; inversion Hp; subst; clear Hp.
  apply bindM_Ok_inv in H as (t & w8 & Ht & H).
  unfold Pprof.loadThread in Ht.
  destruct (deref (threads (Pprof.heap w7)) th) as [t'| | |];
    simpl in Ht; inversion Ht; subst; clear Ht.
  inversion H; subst; clear H.
  split; [exact K|].
  exists f. destruct K as [Kh _]. rewrite <- Kh. split; [exact Ef|reflexivity].
Qed.

Lemma addsSamples_nil (w w' : Pprof.World) :
  keepsSamples w w' -> addsSamples [] w w'.
Proof.
  intros [H1 H2]. split; [exact H1|]. rewrite H2.
  unfold sampleValues. simpl. rewrite app_nil_r. reflexivity.
Qed.

Lemma addsSamples_app (l1 l2 : list Z) (w1 w2 w3 : Pprof.World) :
  addsSamples l1 w1 w2 -> addsSamples l2 w2 w3 -> addsSamples (l1 ++ l2) w1 w3.
Proof.
  intros [H1 H2] [H3 H4]. split; [congruence|].
  rewrite H4, H2, sampleValues_app, app_assoc. reflexivity.
Qed.

Lemma deref_Ok {A : Type} (arena : list A) (p : ptr) (x : A) :
  deref arena p = Ok x -> exists a, p = Some a /\ arena !! a = Some x.
Proof.
  destruct p as [a|]; simpl; [|discriminate].
  destruct (arena !! a) eqn:E; [|discriminate].
  intros H. inversion H; subst. eauto.
Qed.

Lemma loadFrame_Ok (p : ptr) (w w' : Pprof.World) (f : Frame.t) :
  Pprof.loadFrame p w = Ok (f, w') ->
  w' = w /\ exists a, p = Some a /\ frames (Pprof.heap w) !! a = Some f.
Proof.
  unfold Pprof.loadFrame. intros H.
  destruct (deref (frames (Pprof.heap w)) p) as [f'| | |] eqn:E;
    simpl in H; inversion H; subst.
  split; [reflexivity|]. apply deref_Ok, E.
Qed.

Lemma loadThread_Ok (p : ptr) (w w' : Pprof.World) (t : Thread.t) :
  Pprof.loadThread p w = Ok (t, w') ->
  w' = w /\ exists a, p = Some a /\ threads (Pprof.heap w) !! a = Some t.
Proof.
  unfold Pprof.loadThread. intros H.
  destruct (deref (threads (Pprof.heap w)) p) as [f'| | |] eqn:E;
    simpl in H; inversion H; subst.
  split; [reflexivity|]. apply deref_Ok, E.
Qed.

Lemma loadProcess_Ok (p : ptr) (w w' : Pprof.World) (pr : Process.t) :
  Pprof.loadProcess p w = Ok (pr, w') ->
  w' = w /\ exists a, p = Some a /\ procs (Pprof.heap w) !! a = Some pr.
Proof.
  unfold Pprof.loadProcess. intros H.
  destruct (deref (procs (Pprof.heap w)) p) as [f'| | |] eqn:E;
    simpl in H; inversion H; subst.
  split; [reflexivity|]. apply deref_Ok, E.
Qed.

(** A loop whose every round adds the samples of one element adds those of
    all of them. *)
Lemma range_addsSamples {A : Type} (xs : list A) (body : A -> Pprof.M unit)
    (weights : Store -> A -> list Z) (w w' : Pprof.World) :
  (forall x w1 w2, body x w1 = Ok (tt, w2) ->
                   addsSamples (weights (Pprof.heap w1) x) w1 w2) ->
  Pprof.range xs body w = Ok (tt, w') ->
  addsSamples (concat (map (weights (Pprof.heap w)) xs)) w w'.
Proof.
  intros Hb. revert w. induction xs as [|x xs IH]; intros w H; simpl in *.
  - inversion H; subst. apply addsSamples_nil, keepsSamples_refl.
  - apply bindM_Ok_inv in H as ([] & w1 & H1 & H).
    apply Hb in H1. apply IH in H.
    destruct H1 as [Hh H1']. rewrite Hh in H.
    eapply addsSamples_app; [split; eassumption|exact H].
Qed.

Lemma findSamplesInFrame_adds (fuel : nat) (proc th currentFrame : ptr)
    (w w' : Pprof.World) :
  Pprof.findSamplesInFrame fuel proc th currentFrame w = Ok (tt, w') ->
  addsSamples
    (treeWeights (frameTree fuel (frames (Pprof.heap w)) currentFrame)) w w'.
Proof.
  revert currentFrame w w'.
  induction fuel as [|fuel IH]; intros currentFrame w w' H; [discriminate H|].
  simpl in H.
  apply bindM_Ok_inv in H as (f & w1 & Hf & H).
  apply loadFrame_Ok in Hf as (-> & a & -> & Ha).
  apply bindM_Ok_inv in H as ([] & w2 & Hs & H).
  apply bindM_Ok_inv in H as (f' & w3 & Hf' & H).
  apply loadFrame_Ok in Hf' as (-> & a' & Ea & Ha'). inversion Ea; subst a'.
  simpl. rewrite Ha. rewrite treeWeights_node.
  change (Frame.SelfWeightNs f :: ?l) with ([Frame.SelfWeightNs f] ++ l).
  assert (Hfirst : addsSamples [Frame.SelfWeightNs f] w w2).
  { destruct (Z.eqb_spec (Frame.SelfWeightNs f) 0) as [E|E]; simpl in Hs.
    - inversion Hs; subst. split; [reflexivity|].
      unfold sampleValues. rewrite filter_cons_False by (intros ?; congruence).
      simpl. rewrite app_nil_r. reflexivity.
    - apply bindM_Ok_inv in Hs as (s & w4 & Hc & Hs).
      apply convertSample_spec in Hc as ([Kh Ks] & f0 & Hd & Hv).
      inversion Hs; subst; clear Hs. simpl.
      simpl in Hd. rewrite Ha in Hd. inversion Hd; subst f0.
      split; [exact Kh|].
      simpl. rewrite map_app, Ks. simpl. rewrite Hv.
      unfold sampleValues. rewrite filter_cons_True by exact E.
      reflexivity. }
  eapply addsSamples_app; [exact Hfirst|].
  destruct Hfirst as [Hh _].
  assert (Hf2 : f' = f) by (rewrite Hh, Ha in Ha'; congruence). subst f'.
  rewrite <- Hh.
  apply (range_addsSamples (Frame.Children f) _
           (fun st c => treeWeights (frameTree fuel (frames st) c))) in H.
  - unfold forestWeights. rewrite map_map. exact H.
  - intros x w4 w5 Hx. eapply IH, Hx.
Qed.

Lemma findSamples_adds (proc th : ptr) (w w' : Pprof.World) :
  Pprof.findSamples proc th w = Ok (tt, w') ->
  addsSamples (threadWeights (threadTree (Pprof.heap w) th)) w w'.
Proof.
  intros H. unfold Pprof.findSamples in H.
  apply bindM_Ok_inv in H as (t & w1 & Ht & H).
  apply loadThread_Ok in Ht as (-> & a & -> & Ha).
  simpl. rewrite Ha. simpl. unfold threadTrees.
  destruct (Thread.Frames t) as [|x xs] eqn:E.
  - inversion H; subst. apply addsSamples_nil, keepsSamples_refl.
  - apply bindM_Ok_inv in H as (w0 & w2 & Hw & H).
    inversion Hw; subst; clear Hw.
    apply (range_addsSamples (x :: xs) _
             (fun st c =>
                treeWeights
                  (frameTree (S (length (frames (Pprof.heap w2)))) (frames st) c)))
      in H.
    + unfold forestWeights. rewrite map_map. exact H.
    + intros y w3 w4 Hy. eapply findSamplesInFrame_adds, Hy.
Qed.

Lemma traversal_adds (Processes : list ptr) (w w' : Pprof.World) :
  Pprof.range Processes
    (fun proc =>
       Pprof.bindM (Pprof.loadProcess proc)
         (fun p => Pprof.range (Process.Threads p)
                     (fun th => Pprof.findSamples proc th))) w = Ok (tt, w') ->
  addsSamples (profileWeights (map (processTree (Pprof.heap w)) Processes)) w w'.
Proof.
  intros H.
  apply (range_addsSamples Processes _
           (fun st proc => processWeights (processTree st proc))) in H.
  - unfold profileWeights. rewrite map_map. exact H.
  - clear. intros proc w1 w2 H.
    apply bindM_Ok_inv in H as (p & w3 & Hp & H).
    apply loadProcess_Ok in Hp as (-> & a & -> & Ha).
    simpl. rewrite Ha. simpl.
    apply (range_addsSamples (Process.Threads p) _
             (fun st th => threadWeights (threadTree st th))) in H.
    + rewrite map_map. exact H.
    + intros th w4 w5 Hth. eapply findSamples_adds, Hth.
Qed.

(** A conversion that returns has made one sample for every frame whose
    self weight is not zero, in the order of the depth-first walk over the
    processes, threads and frames, each with that self weight as its only
    value; a frame with self weight 0 gets no sample. *)
Theorem samples_are_the_nonzero_self_weights
    (st : Store) (deepCopy : TimeProfile.t) (exP exT ids : bool)
    (annotations : gmap N string) (p : profile.Profile.t) (w : Pprof.World) :
  Pprof.TimeProfileToPprof st deepCopy exP exT ids annotations = Ok (p, w) ->
  map profile.Sample.Value (profile.Profile.Sample p) =
  sampleValues (profileWeights (profileTree (st, deepCopy))).
Proof.
  intros H. unfold Pprof.TimeProfileToPprof in H.
  rewrite bind_maybe_print in H.
  unfold Pprof.convertToPprof in H.
  apply bindM_Ok_inv in H as (c & w1 & Hc & H).
  inversion Hc; subst; clear Hc.
  apply bindM_Ok_inv in H as ([] & w2 & Ht & H).
  apply traversal_adds in Ht as [_ Hs]. simpl in Hs.
  apply bindM_Ok_inv in H as (c2 & w3 & Hc & H).
  inversion Hc; subst; clear Hc.
  apply bindM_Ok_inv in H as ([] & w4 & Hpr & H).
  inversion H; subst; clear H. simpl. exact Hs.
Qed.

Lemma samples_are_the_nonzero_self_weights_witness :
  exists p w,
    Pprof.TimeProfileToPprof MakeDeepCopy.1 MakeDeepCopy.2 false false true ∅ =
    Ok (p, w) /\
    map profile.Sample.Value (profile.Profile.Sample p) =
    sampleValues (profileWeights (profileTree MakeDeepCopy)).
Proof.
  destruct (Pprof.TimeProfileToPprof MakeDeepCopy.1 MakeDeepCopy.2 false false true ∅)
    as [[p w]| | |] eqn:E; try (vm_compute in E; discriminate E).
  exists p, w. split; [reflexivity|].
  exact (samples_are_the_nonzero_self_weights _ _ _ _ _ _ _ _ E).
Defined.

(** ** White space as strings.TrimSpace sees it *)

Example TrimSpace_unicode :
  GoStrings.TrimSpace
    (noBreakSpace +:+ " Process: P [1]" +:+ lineSeparator +:+ GoStrings.newline) =
  "Process: P [1]".
Proof. vm_compute. reflexivity. Qed.

(** A byte that is no encoding of a rune stops the trimming. *)
Example TrimSpace_invalid_encoding :
  GoStrings.TrimSpace (String (ascii_of_N 133) " a ") =
  String (ascii_of_N 133) " a".
Proof. vm_compute. reflexivity. Qed.

(** A process line behind a no-break space is a process line. *)
Example ParseSample_trims_unicode_space :
  mapOutcome profileTree
    (Sample.ParseSample
       (unlines [ noBreakSpace +:+ "Process: P [1]"; "Call graph:" ])) =
  Ok [ ProcessNode "P" 1 [] ].
Proof. vm_compute. reflexivity. Qed.

(** ** What ParseSample asks of the header *)

Lemma namesVersion7_of_Ok (line : string) :
  Sample.checkReportVersion line = Ok tt -> namesVersion7 line = true.
Proof.
  unfold namesVersion7, Sample.checkReportVersion.
  destruct (GoStrings.Split line ":") as [|a [|v [|? ?]]]; try discriminate.
  destruct (GoStrconv.Atoi _) as [n [e|]]; [discriminate|].
  destruct (Z.eqb_spec n 7) as [->|]; [reflexivity|discriminate].
Qed.

(** The first loop ends at the first line that starts with "Call graph";
    the lines before it hold as many "Process" lines as it has added
    processes, and their "Report Version" lines name version 7. *)
Lemma parseHeader_Ok (lines : list string) (st st' : Store)
    (ps ps' : list ptr) (rate rate' : Z) (rest : list string) :
  Sample.parseHeader lines st ps rate = Ok (st', ps', rate', rest) ->
  exists pre line,
    lines = pre ++ line :: rest /\
    startsWith "Call graph" line /\
    Forall (fun l => ~ startsWith "Call graph" l) pre /\
    length ps' = (length ps + length (filter (startsWith "Process") pre))%nat /\
    (length ps' <= 1 \/ ps' = ps)%nat /\
    Forall (fun l => startsWith "Report Version" l ->
                     namesVersion7 (GoStrings.TrimSpace l) = true) pre.
Proof.
  revert st ps rate.
  induction lines as [|raw lines IH]; intros st ps rate H; [discriminate H|].
  simpl in H.
  set (line := GoStrings.TrimSpace raw) in *.
  apply bind_Ok_inv in H as (rate1 & _ & H).
  apply bind_Ok_inv in H as ([] & Hv & H).
  apply bind_Ok_inv in H as ([st1 ps1] & Hp & H).
  destruct (GoStrings.HasPrefix line "Call graph") eqn:Hcg.
  - inversion H; subst; clear H.
    rewrite (HasPrefix_exclusive line "C" "P" _ _ ltac:(discriminate) Hcg) in Hp.
    inversion Hp; subst; clear Hp.
    exists [], raw. simpl. repeat split; auto.
  - apply IH in H as (pre & l0 & -> & Hl0 & Hpre & Hlen & Hone & Hrv).
    exists (raw :: pre), l0. split; [reflexivity|]. split; [exact Hl0|].
    split.
    { constructor; [|exact Hpre]. unfold startsWith. fold line.
      rewrite Hcg. discriminate. }
    assert (Hrv' : Forall (fun l => startsWith "Report Version" l ->
                                    namesVersion7 (GoStrings.TrimSpace l) = true)
                     (raw :: pre)).
    { constructor; [|exact Hrv]. unfold startsWith. fold line. intros Hr.
      rewrite Hr in Hv. apply namesVersion7_of_Ok, Hv. }
    destruct (GoStrings.HasPrefix line "Process") eqn:Hpr.
    + destruct ps as [|p0 ps0]; [|discriminate Hp].
      apply bind_Ok_inv in Hp as (pr & _ & Hp).
      unfold allocProcess, alloc in Hp. inversion Hp; subst; clear Hp.
      rewrite filter_cons_True by (unfold startsWith; fold line; exact Hpr).
      simpl in *. split; [lia|]. split; [|exact Hrv'].
      destruct Hone as [Hone| ->]; [left; exact Hone|left; simpl; lia].
    + inversion Hp; subst; clear Hp.
      rewrite filter_cons_False
        by (unfold startsWith; fold line; rewrite Hpr; discriminate).
      split; [exact Hlen|]. split; [exact Hone|exact Hrv'].
Qed.

(** ParseSample returns a profile only for an input with a line that starts
    with "Call graph", exactly one line that starts with "Process" before
    it, and no "Report Version" line before it that names another version
    than 7; the profile then has exactly one process. *)
Theorem ParseSample_header (file : string) (st : Store) (p : TimeProfile.t) :
  Sample.ParseSample file = Ok (st, p) ->
  exists pre line rest,
    Sample.ReadString file = pre ++ line :: rest /\
    startsWith "Call graph" line /\
    Forall (fun l => ~ startsWith "Call graph" l) pre /\
    length (filter (startsWith "Process") pre) = 1%nat /\
    Forall (fun l => startsWith "Report Version" l ->
                     namesVersion7 (GoStrings.TrimSpace l) = true) pre /\
    length (TimeProfile.Processes p) = 1%nat.
Proof.
  intros H. unfold Sample.ParseSample in H.
  apply bind_Ok_inv in H as ([[st1 p1] process] & Hr & H).
  apply bind_Ok_inv in H as (st2 & _ & H). inversion H; subst; clear H.
  unfold Sample.readCallGraph in Hr.
  apply bind_Ok_inv in Hr as ([[[st0 ps] rate] rest] & Hh & Hr).
  apply parseHeader_Ok in Hh as (pre & line & Hl & Hcg & Hpre & Hlen & Hone & Hrv).
  destruct ps as [|p0 ps]; [discriminate Hr|].
  apply bind_Ok_inv in Hr as (s & _ & Hr). inversion Hr; subst; clear Hr.
  simpl in Hlen.
  destruct Hone as [Hone|Hone]; [|discriminate Hone].
  simpl in Hone.
  exists pre, line, rest. repeat split; auto; simpl; lia.
Qed.

Lemma ParseSample_header_witness :
  exists st p pre line rest,
    Sample.ParseSample validSample = Ok (st, p) /\
    Sample.ReadString validSample = pre ++ line :: rest /\
    startsWith "Call graph" line /\
    length (filter (startsWith "Process") pre) = 1%nat /\
    length (TimeProfile.Processes p) = 1%nat.
Proof.
  destruct (Sample.ParseSample validSample) as [[st p]| | |] eqn:E;
    try (vm_compute in E; discriminate E).
  destruct (ParseSample_header validSample st p E)
    as (pre & line & rest & H1 & H2 & _ & H3 & _ & H4).
  exists st, p, pre, line, rest. auto.
Defined.

(** ** The depth-tree reconstructor *)

Lemma update_Some {A : Type} (arena : list A) (a : nat) (x : A) (f : A -> A) :
  arena !! a = Some x -> update arena (Some a) f = Ok (<[a := f x]> arena).
Proof. intros H. unfold update. simpl. rewrite H. reflexivity. Qed.

Lemma appendChild_Some (fs : list Frame.t) (q c : nat) (g cf : Frame.t) :
  fs !! q = Some g -> fs !! c = Some cf -> q <> c ->
  DepthTree.appendChild fs (Some q) (Some c) =
  Ok (<[c := Frame.set_Parent (Some q) cf]>
        (<[q := Frame.set_Children (Frame.Children g ++ [Some c]) g]> fs)).
Proof.
  intros Hq Hc Hne. unfold DepthTree.appendChild.
  rewrite (update_Some _ _ _ _ Hq). simpl.
  rewrite (update_Some _ c cf); [reflexivity|].
  rewrite list_lookup_insert_ne by exact Hne. exact Hc.
Qed.



(** ** Children are later frames *)

Lemma laterPtr_length (fs fs' : list Frame.t) (a : nat) (p : ptr) :
  (length fs <= length fs')%nat -> laterPtr fs a p -> laterPtr fs' a p.
Proof. intros Hl (c & -> & Hc). exists c. split; [reflexivity|lia]. Qed.

Lemma childrenLater_insert (fs : list Frame.t) (a : nat) (f' : Frame.t) :
  childrenLater fs ->
  Forall (laterPtr fs a) (Frame.Children f') ->
  childrenLater (<[a := f']> fs).
Proof.
  intros Hcl Hf b h Hb.
  assert (Hlen : length (<[a := f']> fs) = length fs) by apply length_insert.
  destruct (decide (b = a)) as [->|Hne].
  - assert (Halt : (a < length fs)%nat).
    { apply lookup_lt_Some in Hb. rewrite Hlen in Hb. exact Hb. }
    rewrite list_lookup_insert_eq in Hb by exact Halt.
    inversion Hb; subst h.
    eapply Forall_impl; [exact Hf|]. intros p. apply laterPtr_length. lia.
  - rewrite list_lookup_insert_ne in Hb by congruence.
    eapply Forall_impl; [exact (Hcl b h Hb)|]. intros p.
    apply laterPtr_length. lia.
Qed.

Lemma childrenLater_alloc (fs : list Frame.t) (f : Frame.t) :
  childrenLater fs -> Frame.Children f = [] -> childrenLater (fs ++ [f]).
Proof.
  intros Hcl Hf b h Hb.
  destruct (decide (b < length fs)%nat) as [Hlt|Hge].
  - rewrite lookup_app_l in Hb by exact Hlt.
    eapply Forall_impl; [exact (Hcl b h Hb)|]. intros p.
    apply laterPtr_length. rewrite length_app. lia.
  - rewrite lookup_app_r in Hb by lia.
    destruct (b - length fs)%nat; simpl in Hb; [|discriminate Hb].
    inversion Hb; subst h. rewrite Hf. constructor.
Qed.

Lemma childrenLater_appendChild (fs : list Frame.t) (q c : nat) (g cf : Frame.t) :
  childrenLater fs -> fs !! q = Some g -> fs !! c = Some cf -> (q < c)%nat ->
  childrenLater
    (<[c := Frame.set_Parent (Some q) cf]>
       (<[q := Frame.set_Children (Frame.Children g ++ [Some c]) g]> fs)).
Proof.
  intros Hcl Hq Hc Hqc.
  assert (Hclen : (c < length fs)%nat) by (eapply lookup_lt_Some; eassumption).
  apply childrenLater_insert.
  - apply childrenLater_insert; [exact Hcl|]. simpl.
    apply Forall_app. split; [exact (Hcl q g Hq)|].
    constructor; [|constructor]. exists c. split; [reflexivity|lia].
  - simpl. eapply Forall_impl; [exact (Hcl c cf Hc)|]. intros p.
    apply laterPtr_length. rewrite length_insert. lia.
Qed.

Section Linked.

Variable r : Z.

(** The walk up the Parent links from an earlier frame finds the ancestor
    one level above the new frame [c]: it neither meets nil nor runs on. *)
Lemma findParent_finds (fs : list Frame.t) (c : nat) (cf : Frame.t) :
  wellLinked r fs -> fs !! c = Some cf -> r <= Frame.Depth cf - 1 ->
  forall (q fuel : nat) (g : Frame.t),
    fs !! q = Some g -> anchored r g ->
    (q < c)%nat -> (q < fuel)%nat ->
    Frame.Depth cf - 1 <= Frame.Depth g ->
    exists q' g',
      fs !! q' = Some g' /\ anchored r g' /\ (q' < c)%nat /\
      Frame.Depth g' = Frame.Depth cf - 1 /\
      DepthTree.findParent fuel fs (Some q) (Some c) =
      DepthTree.appendChild fs (Some q') (Some c).
Proof.
  intros Hwl Hc Hr q.
  induction q as [q IH] using lt_wf_ind. intros fuel g Hq Hanch Hqc Hfuel Hd.
  destruct fuel as [|fuel]; [lia|]. simpl.
  rewrite Hq, Hc. simpl.
  destruct (Z.eqb_spec (Frame.Depth g) (Frame.Depth cf - 1)) as [E|E].
  - exists q, g. auto.
  - pose proof (Hwl q g Hq) as Hg. unfold linked in Hg.
    unfold anchored in Hanch.
    destruct (Frame.Parent g) as [q2|]; [|exfalso; apply Hanch; [lia|reflexivity]].
    destruct Hg as (Hlt & g2 & Hq2 & Hd2 & Hr2 & Hanch2).
    destruct (IH q2 Hlt fuel g2 Hq2 Hanch2 ltac:(lia) ltac:(lia) ltac:(lia))
      as (q' & g' & H1 & H2 & H3 & H4 & H5).
    exists q', g'. auto.
Qed.

(** Replacing a frame by one with the same Parent and Depth keeps the links
    well formed. *)
Lemma wellLinked_insert_same (fs : list Frame.t) (a : nat) (f f' : Frame.t) :
  wellLinked r fs -> fs !! a = Some f ->
  Frame.Parent f' = Frame.Parent f -> Frame.Depth f' = Frame.Depth f ->
  wellLinked r (<[a := f']> fs).
Proof.
  intros Hwl Ha HP HD b h Hb.
  assert (Halen : (a < length fs)%nat) by (eapply lookup_lt_Some; eassumption).
  assert (Hkeep : forall b h,
             fs !! b = Some h ->
             exists h', (<[a := f']> fs) !! b = Some h' /\
                        Frame.Depth h' = Frame.Depth h /\
                        Frame.Parent h' = Frame.Parent h).
  { intros b0 h0 Hb0. destruct (decide (b0 = a)) as [->|Hne].
    - rewrite list_lookup_insert_eq by exact Halen.
      rewrite Ha in Hb0. inversion Hb0; subst. eauto.
    - rewrite list_lookup_insert_ne by congruence. eauto. }
  assert (Hold : exists h0, fs !! b = Some h0 /\
                            Frame.Parent h = Frame.Parent h0 /\
                            Frame.Depth h = Frame.Depth h0).
  { destruct (decide (b = a)) as [->|Hne].
    - rewrite list_lookup_insert_eq in Hb by exact Halen.
      inversion Hb; subst h. exists f. auto.
    - rewrite list_lookup_insert_ne in Hb by congruence. eauto. }
  destruct Hold as (h0 & Hh0 & HP0 & HD0).
  pose proof (Hwl b h0 Hh0) as H0. unfold linked in *. rewrite HP0, HD0.
  destruct (Frame.Parent h0) as [p0|]; [|exact I].
  destruct H0 as (Hlt & g0 & Hg0 & Hd0 & Hr0 & Ha0).
  split; [exact Hlt|].
  destruct (Hkeep p0 g0 Hg0) as (g0' & Hg0' & Hdg0 & Hpg0).
  exists g0'. split; [exact Hg0'|]. unfold anchored in *.
  rewrite Hdg0, Hpg0. auto.
Qed.

(** Setting the Parent of the unlinked frame [c] to a frame one level up. *)
Lemma wellLinked_set_Parent (fs : list Frame.t) (q c : nat) (g cf : Frame.t) :
  wellLinked r fs -> fs !! q = Some g -> fs !! c = Some cf -> (q < c)%nat ->
  Frame.Parent cf = None ->
  Frame.Depth g = Frame.Depth cf - 1 -> r <= Frame.Depth g -> anchored r g ->
  wellLinked r (<[c := Frame.set_Parent (Some q) cf]> fs).
Proof.
  intros Hwl Hq Hc Hqc HPc Hd Hr Hanch b h Hb.
  assert (Hclen : (c < length fs)%nat) by (eapply lookup_lt_Some; eassumption).
  assert (Hkeep : forall b h,
             fs !! b = Some h -> anchored r h ->
             exists h', (<[c := Frame.set_Parent (Some q) cf]> fs) !! b = Some h' /\
                        Frame.Depth h' = Frame.Depth h /\ anchored r h').
  { intros b0 h0 Hb0 Ha0. destruct (decide (b0 = c)) as [->|Hne].
    - rewrite list_lookup_insert_eq by exact Hclen.
      rewrite Hc in Hb0. inversion Hb0; subst.
      eexists. split; [reflexivity|]. split; [reflexivity|].
      intros _. discriminate.
    - rewrite list_lookup_insert_ne by congruence. eauto. }
  unfold linked.
  destruct (decide (b = c)) as [->|Hne].
  - rewrite list_lookup_insert_eq in Hb by exact Hclen.
    inversion Hb; subst h. simpl. split; [exact Hqc|].
    destruct (Hkeep q g Hq Hanch) as (g' & Hg' & Hdg & Hag).
    exists g'. rewrite Hdg. auto.
  - rewrite list_lookup_insert_ne in Hb by congruence.
    pose proof (Hwl b h Hb) as H0. unfold linked in H0.
    destruct (Frame.Parent h) as [p0|]; [|exact I].
    destruct H0 as (Hlt & g0 & Hg0 & Hd0 & Hr0 & Ha0).
    split; [exact Hlt|].
    destruct (Hkeep p0 g0 Hg0 Ha0) as (g0' & Hg0' & Hdg0 & Hag0).
    exists g0'. rewrite Hdg0. auto.
Qed.

(** Linking the new frame [c] below a frame one level up. *)
Lemma wellLinked_appendChild (fs : list Frame.t) (q c : nat) (g cf : Frame.t) :
  wellLinked r fs -> fs !! q = Some g -> fs !! c = Some cf -> (q < c)%nat ->
  Frame.Parent cf = None ->
  Frame.Depth g = Frame.Depth cf - 1 -> r <= Frame.Depth g -> anchored r g ->
  wellLinked r
    (<[c := Frame.set_Parent (Some q) cf]>
       (<[q := Frame.set_Children (Frame.Children g ++ [Some c]) g]> fs)).
Proof.
  intros Hwl Hq Hc Hqc HPc Hd Hr Hanch.
  assert (Hqlen : (q < length fs)%nat) by (eapply lookup_lt_Some; eassumption).
  eapply wellLinked_set_Parent with
    (g := Frame.set_Children (Frame.Children g ++ [Some c]) g); auto.
  - eapply wellLinked_insert_same; eauto.
  - apply list_lookup_insert_eq. exact Hqlen.
  - rewrite list_lookup_insert_ne by lia. exact Hc.
Qed.

(** A new frame that is not linked. *)
Lemma wellLinked_alloc (fs : list Frame.t) (f : Frame.t) :
  wellLinked r fs -> Frame.Parent f = None -> wellLinked r (fs ++ [f]).
Proof.
  intros Hwl HP a h Ha. unfold linked.
  destruct (decide (a < length fs)%nat) as [Hlt|Hge].
  - rewrite lookup_app_l in Ha by exact Hlt.
    pose proof (Hwl a h Ha) as H0. unfold linked in H0.
    destruct (Frame.Parent h) as [q|]; [|exact I].
    destruct H0 as (Hq & g & Hg & Hd & Hr & Hanch).
    split; [exact Hq|]. exists g. split; [|auto].
    rewrite lookup_app_l; [exact Hg|]. lia.
  - rewrite lookup_app_r in Ha by lia.
    destruct (a - length fs)%nat; simpl in Ha; [|discriminate Ha].
    inversion Ha; subst h. rewrite HP. exact I.
Qed.

(** Attaching the new frame, the last of the list, below the most recent
    frame or one of its ancestors returns: with well-formed links, or with
    the error for a skipped depth. *)
Lemma attach_returns (skipped : Frame.t -> Frame.t -> string)
    (fs : list Frame.t) (l : nat) (lf cf : Frame.t) :
  wellLinked r fs -> childrenLater fs ->
  fs !! l = Some lf -> anchored r lf ->
  Frame.Parent cf = None -> Frame.Children cf = [] -> r < Frame.Depth cf ->
  match DepthTree.attach skipped (fs ++ [cf]) (Some l) (Some (length fs)) with
  | Ok fs' =>
      wellLinked r fs' /\ childrenLater fs' /\ length fs' = S (length fs) /\
      exists cf', fs' !! length fs = Some cf' /\ anchored r cf'
  | Err _ => True
  | Panic _ | Diverge => False
  end.
Proof.
  intros Hwl Hcl Hl Hanch HP HC Hd.
  assert (Hllen : (l < length fs)%nat) by (eapply lookup_lt_Some; eassumption).
  assert (Hc : (fs ++ [cf]) !! length fs = Some cf).
  { rewrite lookup_app_r by lia. rewrite Nat.sub_diag. reflexivity. }
  assert (Hl' : (fs ++ [cf]) !! l = Some lf).
  { rewrite lookup_app_l by exact Hllen. exact Hl. }
  assert (Hwl' : wellLinked r (fs ++ [cf])) by (apply wellLinked_alloc; assumption).
  assert (Hcl' : childrenLater (fs ++ [cf])) by (apply childrenLater_alloc; assumption).
  assert (Hdone : forall q g,
             (fs ++ [cf]) !! q = Some g -> anchored r g -> (q < length fs)%nat ->
             Frame.Depth g = Frame.Depth cf - 1 ->
             match DepthTree.appendChild (fs ++ [cf]) (Some q) (Some (length fs)) with
             | Ok fs' =>
                 wellLinked r fs' /\ childrenLater fs' /\
                 length fs' = S (length fs) /\
                 exists cf', fs' !! length fs = Some cf' /\ anchored r cf'
             | Err _ => True
             | Panic _ | Diverge => False
             end).
  { intros q g Hq Hag Hqc Hdg.
    rewrite (appendChild_Some _ _ _ _ _ Hq Hc) by lia.
    split; [apply wellLinked_appendChild; auto; lia|].
    split; [apply childrenLater_appendChild; auto|].
    split; [rewrite !length_insert, length_app; simpl; lia|].
    eexists. split.
    - apply list_lookup_insert_eq. rewrite length_insert, length_app. simpl. lia.
    - intros _. discriminate. }
  unfold DepthTree.attach, deref, bind. rewrite Hc, Hl'.
  destruct (Z.gtb_spec (Frame.Depth cf) (Frame.Depth lf)) as [Hgt|Hle].
  - destruct (Z.eqb_spec (Frame.Depth cf - Frame.Depth lf) 1) as [E|E];
      simpl; [|exact I].
    apply (Hdone l lf Hl' Hanch Hllen). lia.
  - pose proof (Hwl' l lf Hl') as Hlf. unfold linked in Hlf.
    unfold anchored in Hanch.
    destruct (Frame.Parent lf) as [q|];
      [|exfalso; apply Hanch; [lia|reflexivity]].
    destruct Hlf as (Hql & g & Hg & Hdg & Hrg & Hag).
    destruct (findParent_finds (fs ++ [cf]) (length fs) cf Hwl' Hc ltac:(lia)
                q (S (length (fs ++ [cf]))) g Hg Hag ltac:(lia)
                ltac:(rewrite length_app; simpl; lia) ltac:(lia))
      as (q' & g' & Hq' & Hag' & Hq'c & Hdg' & ->).
    apply (Hdone q' g' Hq' Hag' Hq'c Hdg').
Qed.

End Linked.

(** ** The second loop of ParseSample *)

(** A call line gives a frame that is not linked yet, at a depth that is
    not negative; parseCallLine returns. *)
Lemma parseCallLine_returns (line : string) :
  match Sample.parseCallLine line with
  | Ok f => Frame.Parent f = None /\ Frame.Children f = [] /\ 0 <= Frame.Depth f
  | Err _ => True
  | Panic _ | Diverge => False
  end.
Proof.
  unfold Sample.parseCallLine.
  destruct (Sample.functionRe line) as [[[m1 m2] m3]|]; [|exact I].
  destruct (GoStrconv.ParseInt m2) as [hits [e|]]; [exact I|]. simpl.
  split; [reflexivity|]. split; [reflexivity|].
  apply Z.quot_pos; [unfold GoStrings.len; lia|lia].
Qed.

Lemma validPtr_le (n m : nat) (p : ptr) :
  (n <= m)%nat -> validPtr n p -> validPtr m p.
Proof. intros H (a & -> & Ha). exists a. split; [reflexivity|lia]. Qed.

Lemma childrenLater_same (fs : list Frame.t) (a : nat) (f f' : Frame.t) :
  childrenLater fs -> fs !! a = Some f ->
  Frame.Children f' = Frame.Children f ->
  childrenLater (<[a := f']> fs).
Proof.
  intros Hcl Ha HC. apply childrenLater_insert; [exact Hcl|].
  rewrite HC. exact (Hcl a f Ha).
Qed.

Lemma anchored_same (r : Z) (f f' : Frame.t) :
  Frame.Parent f' = Frame.Parent f -> Frame.Depth f' = Frame.Depth f ->
  anchored r f -> anchored r f'.
Proof. unfold anchored. intros -> ->. auto. Qed.

(** One line of the call graph: from a state as the loop keeps it, the
    step returns, unless the line is a frame below a thread and no thread
    line came before it. *)
Lemma callGraphLine_step (process : ptr) (rate : Z) (line : string)
    (s : Sample.CallGraph) :
  graphInv process s ->
  match Sample.callGraphLine process rate line s with
  | Ok s' => graphInv process s' /\ Sample.lastFrame s' <> None
  | Err _ => True
  | Panic _ =>
      Sample.lastFrame s = None /\
      exists f, Sample.parseCallLine line = Ok f /\ 1 <= Frame.Depth f
  | Diverge => False
  end.
Proof.
  intros (Hwl & Hcl & Htv & Hpv & (pa & -> & Hpa) & Hlast).
  unfold Sample.callGraphLine.
  pose proof (parseCallLine_returns line) as Hparse.
  destruct (Sample.parseCallLine line) as [f|e|e|]; try exact I; try contradiction.
  destruct Hparse as (HP & HC & HD).
  destruct s as [[fs ts ps] cth lfp]. simpl in *.
  rename Hpa into Hpalt.
  destruct (lookup_lt_is_Some_2 ps pa Hpalt) as [pr0 Hpa].
  unfold allocFrame, alloc. simpl.
  assert (Hc : (fs ++ [f]) !! length fs = Some f).
  { rewrite lookup_app_r by lia. rewrite Nat.sub_diag. reflexivity. }
  assert (Hwl1 : wellLinked 1 (fs ++ [f])) by (apply wellLinked_alloc; assumption).
  assert (Hcl1 : childrenLater (fs ++ [f])) by (apply childrenLater_alloc; assumption).
  assert (Hlen1 : length (fs ++ [f]) = S (length fs))
    by (rewrite length_app; simpl; lia).
  (* what the last write of the step leaves, for each of the three ways *)
  assert (Hfinal : forall fs1 ts1 ps1 th cf,
             wellLinked 1 fs1 -> childrenLater fs1 ->
             length fs1 = S (length fs) ->
             fs1 !! length fs = Some cf -> anchored 1 cf ->
             threadsValid (mkStore fs1 ts1 ps1) ->
             procsValid (mkStore fs1 ts1 ps1) ->
             (pa < length ps1)%nat ->
             validPtr (length ts1) th ->
             match
               (do fs2 <- update fs1 (Some (length fs))
                            (fun c => Frame.set_SelfWeightNs
                                        (wrap64 (Frame.SelfWeightNs c * rate)) c);
                Ok (Sample.mkCallGraph (set_frames fs2 (mkStore fs1 ts1 ps1)) th
                      (Some (length fs))))
             with
             | Ok s' => graphInv (Some pa) s' /\ Sample.lastFrame s' <> None
             | Err _ => True
             | Panic _ =>
                 lfp = None /\ exists f0, Ok f = Ok f0 /\ 1 <= Frame.Depth f0
             | Diverge => False
             end).
  { intros fs1 ts1 ps1 th cf Hw Hc1 Hl1 Hcf Hacf Htv1 Hpv1 Hpa1 Hth.
    rewrite (update_Some _ _ _ _ Hcf). simpl.
    split; [|discriminate].
    unfold graphInv. simpl.
    split; [eapply wellLinked_insert_same; eauto|].
    split; [eapply childrenLater_same; eauto|].
    split.
    { intros t th0 Ht. simpl in *. rewrite length_insert. exact (Htv1 t th0 Ht). }
    split; [exact Hpv1|].
    split; [exists pa; auto|].
    split; [|exact Hth].
    eexists. split.
    - apply list_lookup_insert_eq. lia.
    - eapply anchored_same; [| |exact Hacf]; reflexivity. }
  destruct (Z.eqb_spec (Frame.Depth f) 0) as [E0|E0].
  - (* a thread line *)
    unfold allocThread, alloc. simpl.
    rewrite (update_Some _ _ _ _ Hpa). simpl.
    apply Hfinal with (cf := f); auto.
    + intros ?. lia.
    + intros t th0 Ht. simpl in *.
      destruct (decide (t < length ts)%nat) as [Hlt|Hge].
      * rewrite lookup_app_l in Ht by exact Hlt.
        eapply Forall_impl; [exact (Htv t th0 Ht)|].
        intros p. apply validPtr_le. simpl; rewrite ?length_insert, ?length_app; simpl; lia.
      * rewrite lookup_app_r in Ht by lia.
        destruct (t - length ts)%nat; simpl in Ht; [|discriminate Ht].
        inversion Ht; subst th0. constructor.
    + intros a pr Ha. simpl in *.
      assert (Hmono : forall p, validPtr (length ts) p ->
                                validPtr (length (ts ++ [Thread.mk (Frame.SymbolName f) 0 []])) p).
      { intros p. apply validPtr_le. rewrite length_app. lia. }
      destruct (decide (a = pa)) as [->|Hne].
      * rewrite list_lookup_insert_eq in Ha by (eapply lookup_lt_Some; eauto).
        inversion Ha; subst pr. simpl.
        apply Forall_app. split.
        -- eapply Forall_impl; [exact (Hpv pa _ Hpa)|]. exact Hmono.
        -- constructor; [|constructor]. exists (length ts).
           split; [reflexivity|]. simpl; rewrite ?length_insert, ?length_app; simpl; lia.
      * rewrite list_lookup_insert_ne in Ha by congruence.
        eapply Forall_impl; [exact (Hpv a pr Ha)|]. exact Hmono.
    + rewrite length_insert. eapply lookup_lt_Some; eauto.
    + exists (length ts). split; [reflexivity|]. simpl; rewrite ?length_insert, ?length_app; simpl; lia.
  - destruct (Z.eqb_spec (Frame.Depth f) 1) as [E1|E1].
    + (* a root frame of the current thread *)
      destruct lfp as [l|].
      * destruct Hlast as ((lf & Hl & Hanch) & (t & -> & Ht)).
        destruct (lookup_lt_is_Some_2 ts t Ht) as [th Hth].
        rewrite (update_Some _ _ _ _ Hth). simpl.
        apply Hfinal with (cf := f); auto.
        -- intros ?. lia.
        -- intros t0 th0 Ht0. simpl in *.
           assert (Hmono : forall p, validPtr (length fs) p ->
                                     validPtr (length (fs ++ [f])) p).
           { intros p. apply validPtr_le. simpl; rewrite ?length_insert, ?length_app; simpl; lia. }
           destruct (decide (t0 = t)) as [->|Hne].
           ++ rewrite list_lookup_insert_eq in Ht0 by exact Ht.
              inversion Ht0; subst th0. simpl.
              apply Forall_app. split.
              ** eapply Forall_impl; [exact (Htv t th Hth)|]. exact Hmono.
              ** constructor; [|constructor]. exists (length fs).
                 split; [reflexivity|]. simpl; rewrite ?length_insert, ?length_app; simpl; lia.
           ++ rewrite list_lookup_insert_ne in Ht0 by congruence.
              eapply Forall_impl; [exact (Htv t0 th0 Ht0)|]. exact Hmono.
        -- intros a pr Ha. simpl in *. rewrite length_insert.
           exact (Hpv a pr Ha).
        -- exists t. split; [reflexivity|]. rewrite length_insert. exact Ht.
      * rewrite Hlast. simpl. split; [reflexivity|].
        exists f. split; [reflexivity|lia].
    + (* a frame further down *)
      destruct lfp as [l|].
      * destruct Hlast as ((lf & Hl & Hanch) & Hth).
        pose proof (attach_returns 1 Sample.skipped fs l lf f Hwl Hcl Hl Hanch
                      HP HC ltac:(lia)) as Hatt.
        destruct (DepthTree.attach Sample.skipped (fs ++ [f]) (Some l)
                    (Some (length fs))) as [fs1|e|e|]; try exact I; try contradiction.
        destruct Hatt as (Hw1 & Hc1 & Hl1 & cf' & Hcf' & Hacf'). simpl.
        apply Hfinal with (cf := cf'); auto.
        -- intros t0 th0 Ht0. simpl in *.
           eapply Forall_impl; [exact (Htv t0 th0 Ht0)|].
           intros p. apply validPtr_le. simpl; rewrite ?length_insert, ?length_app; simpl; lia.
      * unfold DepthTree.attach, deref, bind. rewrite Hc.
        split; [reflexivity|]. exists f. split; [reflexivity|lia].
Qed.

(** The second loop returns from a state as it keeps it, unless its first
    line is a frame below a thread and no thread line came before. *)
Lemma parseCallGraph_outcome (process : ptr) (rate : Z) (lines : list string) :
  forall s : Sample.CallGraph,
  graphInv process s ->
  match Sample.parseCallGraph process rate lines s with
  | Ok s' => graphInv process s'
  | Err _ => True
  | Panic _ =>
      Sample.lastFrame s = None /\
      exists raw rest f,
        lines = raw :: rest /\
        Sample.parseCallLine (GoStrings.TrimSpace raw) = Ok f /\
        1 <= Frame.Depth f
  | Diverge => False
  end.
Proof.
  induction lines as [|raw rest IH]; intros s Hinv; [exact Hinv|].
  simpl.
  destruct (GoStrings.TrimSpace raw) as [|ch line] eqn:Hline; [exact Hinv|].
  pose proof (callGraphLine_step process rate (String ch line) s Hinv) as Hstep.
  destruct (Sample.callGraphLine process rate (String ch line) s)
    as [s'|e|e|]; simpl; try exact I; try contradiction.
  - destruct Hstep as (Hinv' & Hlast').
    pose proof (IH s' Hinv') as Hrest.
    destruct (Sample.parseCallGraph process rate rest s')
      as [s''|e|e|]; try exact I; try contradiction; [exact Hrest|].
    destruct Hrest as (Hnone & _). contradiction.
  - destruct Hstep as (Hlast & f & Hf & Hd).
    split; [exact Hlast|]. exists raw, rest, f. rewrite Hline. auto.
Qed.

(** A frame below a thread with no thread line before it: the loop panics
    on a nil pointer. *)
Lemma parseCallGraph_panics (process : ptr) (rate : Z) (raw : string)
    (rest : list string) (st : Store) (f : Frame.t) :
  Sample.parseCallLine (GoStrings.TrimSpace raw) = Ok f ->
  1 <= Frame.Depth f ->
  Sample.parseCallGraph process rate (raw :: rest)
    (Sample.mkCallGraph st None None) = Panic nil_dereference.
Proof.
  intros Hf Hd. simpl.
  destruct (GoStrings.TrimSpace raw) as [|ch line] eqn:Hline;
    [vm_compute in Hf; discriminate Hf|].
  unfold Sample.callGraphLine. rewrite Hf. simpl.
  destruct (Z.eqb_spec (Frame.Depth f) 0) as [E0|E0]; [lia|].
  destruct (Frame.Depth f =? 1); [reflexivity|].
  unfold DepthTree.attach, deref, bind.
  rewrite lookup_app_r by lia. rewrite Nat.sub_diag. reflexivity.
Qed.

(** ** The third loop of ParseSample *)

Lemma sameShape_refl (fs : list Frame.t) : sameShape fs fs.
Proof. split; [reflexivity|]. eauto. Qed.

Lemma sameShape_trans (fs1 fs2 fs3 : list Frame.t) :
  sameShape fs1 fs2 -> sameShape fs2 fs3 -> sameShape fs1 fs3.
Proof.
  intros (L1 & H1) (L2 & H2). split; [congruence|].
  intros a f Ha. destruct (H1 a f Ha) as (f' & Ha' & HC').
  destruct (H2 a f' Ha') as (f'' & Ha'' & HC''). exists f''.
  split; [exact Ha''|congruence].
Qed.

Lemma sameShape_set_weight (fs : list Frame.t) (a : nat) (f : Frame.t) (w : Z) :
  fs !! a = Some f -> sameShape fs (<[a := Frame.set_SelfWeightNs w f]> fs).
Proof.
  intros Ha. split; [apply length_insert|].
  intros b h Hb. destruct (decide (b = a)) as [->|Hne].
  - rewrite list_lookup_insert_eq by (eapply lookup_lt_Some; eauto).
    rewrite Ha in Hb. inversion Hb; subst h. eauto.
  - rewrite list_lookup_insert_ne by congruence. eauto.
Qed.

Lemma childrenLater_sameShape (fs fs' : list Frame.t) :
  childrenLater fs -> sameShape fs fs' -> childrenLater fs'.
Proof.
  intros Hcl (Hlen & Hsame) a f' Ha'.
  assert (Hlt : (a < length fs)%nat).
  { apply lookup_lt_Some in Ha'. lia. }
  destruct (lookup_lt_is_Some_2 fs a Hlt) as [f Ha].
  destruct (Hsame a f Ha) as (f'' & Ha'' & HC).
  rewrite Ha' in Ha''. inversion Ha''; subst f''. rewrite HC.
  eapply Forall_impl; [exact (Hcl a f Ha)|].
  intros p. apply laterPtr_length. lia.
Qed.

(** fixSelfWeight returns when the Children of every frame are later
    frames: the fuel is never used up, and only weights change. *)
Lemma fixSelfWeight_returns (fuel : nat) :
  forall (fs : list Frame.t) (a : nat),
    childrenLater fs -> (a < length fs)%nat -> (length fs <= fuel + a)%nat ->
    exists r fs',
      Sample.fixSelfWeight fuel (Some a) fs = Ok (r, fs') /\ sameShape fs fs'.
Proof.
  induction fuel as [|fuel IH]; intros fs a Hcl Ha Hfuel; [lia|].
  destruct (lookup_lt_is_Some_2 fs a Ha) as [f0 Hf0].
  simpl. rewrite Hf0. simpl.
  match goal with
  | |- context [?F (Frame.Children f0) fs] => set (loop := F)
  end.
  cut (forall children fs1,
          Forall (laterPtr fs a) children -> sameShape fs fs1 ->
          exists r fs', loop children fs1 = Ok (r, fs') /\ sameShape fs fs').
  { intros Hloop. apply Hloop; [exact (Hcl a f0 Hf0)|apply sameShape_refl]. }
  clear f0 Hf0.
  induction children as [|child rest IHc]; intros fs1 Hch Hshape.
  - simpl. eauto.
  - inversion Hch as [|? ? (ci & -> & Hci) Hrest]; subst.
    destruct Hshape as (Hlen & Hsame).
    destruct (lookup_lt_is_Some_2 fs1 a ltac:(lia)) as [f Hf].
    destruct (lookup_lt_is_Some_2 fs1 ci ltac:(lia)) as [c Hc].
    simpl. rewrite Hf, Hc. simpl.
    rewrite (update_Some _ _ _ _ Hf). simpl.
    set (w := wrap64 (Frame.SelfWeightNs f - Frame.SelfWeightNs c)).
    assert (Hshape2 : sameShape fs (<[a := Frame.set_SelfWeightNs w f]> fs1)).
    { eapply sameShape_trans; [split; eassumption|].
      apply sameShape_set_weight, Hf. }
    destruct (w <? 0); [eauto|].
    destruct (IH (<[a := Frame.set_SelfWeightNs w f]> fs1) ci)
      as (r & fs3 & -> & Hshape3).
    + eapply childrenLater_sameShape; eassumption.
    + rewrite length_insert. lia.
    + rewrite length_insert. lia.
    + simpl. apply IHc; [exact Hrest|].
      eapply sameShape_trans; eassumption.
Qed.

Lemma fixFrames_returns (roots : list ptr) :
  forall fs : list Frame.t,
    childrenLater fs -> Forall (validPtr (length fs)) roots ->
    match Sample.fixFrames roots fs with
    | Ok fs' => sameShape fs fs'
    | Err _ => True
    | Panic _ | Diverge => False
    end.
Proof.
  induction roots as [|root rest IH]; intros fs Hcl Hroots;
    [apply sameShape_refl|].
  inversion Hroots as [|? ? (a & -> & Ha) Hrest]; subst.
  unfold Sample.fixFrames; fold Sample.fixFrames.
  destruct (fixSelfWeight_returns (S (length fs)) fs a Hcl Ha ltac:(lia))
    as ([e|] & fs' & -> & Hshape); simpl; [exact I|].
  assert (Hcl' : childrenLater fs') by (eapply childrenLater_sameShape; eassumption).
  assert (Hrest' : Forall (validPtr (length fs')) rest).
  { destruct Hshape as (-> & _). exact Hrest. }
  pose proof (IH fs' Hcl' Hrest') as H.
  destruct (Sample.fixFrames rest fs'); try exact H.
  eapply sameShape_trans; eassumption.
Qed.

Lemma fixThreads_returns (ths : list ptr) :
  forall st : Store,
    childrenLater (frames st) -> threadsValid st ->
    Forall (validPtr (length (threads st))) ths ->
    returns (Sample.fixThreads ths st).
Proof.
  induction ths as [|th rest IH]; intros st Hcl Htv Hths; [exact I|].
  inversion Hths as [|? ? (t & -> & Ht) Hrest]; subst.
  destruct (lookup_lt_is_Some_2 (threads st) t Ht) as [thr Hthr].
  simpl. rewrite Hthr. simpl.
  pose proof (fixFrames_returns (Thread.Frames thr) (frames st) Hcl
                (Htv t thr Hthr)) as H.
  destruct (Sample.fixFrames (Thread.Frames thr) (frames st))
    as [fs'|e|e|]; simpl; try exact I; try contradiction.
  apply IH.
  - simpl. eapply childrenLater_sameShape; eassumption.
  - intros t0 th0 Ht0. simpl in *. destruct H as (-> & _).
    exact (Htv t0 th0 Ht0).
  - exact Hrest.
Qed.

Lemma fixWeights_returns (process : ptr) (s : Sample.CallGraph) :
  graphInv process s -> returns (Sample.fixWeights process (Sample.store s)).
Proof.
  intros (Hwl & Hcl & Htv & Hpv & (pa & -> & Hpa) & _).
  destruct (lookup_lt_is_Some_2 _ pa Hpa) as [pr Hpr].
  unfold Sample.fixWeights. simpl. rewrite Hpr. simpl.
  apply fixThreads_returns; auto. exact (Hpv pa pr Hpr).
Qed.

(** ** The first loop of ParseSample *)

Lemma parseProcess_returns (line : string) :
  match Sample.parseProcess line with
  | Ok pr => Process.Threads pr = []
  | Err _ => True
  | Panic _ | Diverge => False
  end.
Proof.
  unfold Sample.parseProcess.
  destruct (negb (GoStrings.HasPrefix line "Process")); [exact I|].
  destruct (GoStrings.Split line ":") as [|a [|part [|? ?]]]; try exact I.
  destruct (Sample.pidRe _) as [[name digits]|]; [|exact I].
  destruct (GoStrconv.ParseUint digits 10). reflexivity.
Qed.

Lemma checkReportVersion_returns (line : string) :
  returns (Sample.checkReportVersion line).
Proof.
  unfold Sample.checkReportVersion.
  destruct (GoStrings.Split line ":") as [|a [|v [|? ?]]]; try exact I.
  destruct (GoStrconv.Atoi _) as [n [e|]]; [exact I|].
  destruct (negb (n =? 7)); exact I.
Qed.

(** The first loop returns, and leaves a store with processes only. *)
Lemma parseHeader_outcome (lines : list string) :
  forall (st : Store) (ps : list ptr) (rate : Z),
    headerInv st ps ->
    match Sample.parseHeader lines st ps rate with
    | Ok (st', ps', _, _) => headerInv st' ps'
    | Err _ => True
    | Panic _ | Diverge => False
    end.
Proof.
  induction lines as [|raw lines IH]; intros st ps rate Hinv; [exact I|].
  simpl. set (line := GoStrings.TrimSpace raw).
  assert (Hrate : exists rate1,
             (if GoStrings.HasPrefix line "Analysis of sampling"
              then Sample.parseSampleRate line else Ok rate) = Ok rate1).
  { destruct (GoStrings.HasPrefix line "Analysis of sampling") eqn:Ha; [|eauto].
    rewrite (parseSampleRate_Ok _ Ha). eauto. }
  destruct Hrate as (rate1 & ->). simpl.
  assert (Hver : returns (if GoStrings.HasPrefix line "Report Version"
                          then Sample.checkReportVersion line else Ok tt)).
  { destruct (GoStrings.HasPrefix line "Report Version"); [|exact I].
    apply checkReportVersion_returns. }
  destruct (if GoStrings.HasPrefix line "Report Version"
            then Sample.checkReportVersion line else Ok tt)
    as [[]|e|e|]; simpl; try exact I; try contradiction.
  assert (Hproc :
            match
              (if GoStrings.HasPrefix line "Process" then
                 match ps with
                 | _ :: _ =>
                     Err "More than one process line present. Currupt sample file"
                 | [] =>
                     do process <- Sample.parseProcess line;
                     let '(p, st') := allocProcess process st in
                     Ok (st', ps ++ [p])
                 end
               else Ok (st, ps))
            with
            | Ok (st', ps') => headerInv st' ps'
            | Err _ => True
            | Panic _ | Diverge => False
            end).
  { destruct (GoStrings.HasPrefix line "Process"); [|exact Hinv].
    destruct ps as [|p0 ps0]; [|exact I].
    pose proof (parseProcess_returns line) as Hp.
    destruct (Sample.parseProcess line) as [pr|e|e|]; simpl;
      try exact I; try contradiction.
    destruct Hinv as (Hf & Ht & Hpr & _).
    unfold headerInv. simpl.
    split; [exact Hf|]. split; [exact Ht|]. split.
    - apply Forall_app. split; [exact Hpr|]. constructor; [exact Hp|constructor].
    - constructor; [|constructor]. exists (length (procs st)).
      split; [reflexivity|]. rewrite length_app. simpl. lia. }
  destruct (if GoStrings.HasPrefix line "Process" then _ else _)
    as [[st1 ps1]|e|e|]; simpl; try exact I; try contradiction.
  destruct (GoStrings.HasPrefix line "Call graph"); [exact Hproc|].
  apply IH, Hproc.
Qed.

(** ParseSample never runs on forever, and it panics in two cases
    only: the first loop has reached the "Call graph" line without a process
    (index 0 of the empty p.Processes), or the first line after
    "Call graph" is a call line at depth 1 or more, a frame before any thread
    line (a nil thread or a nil last frame).  In every other case it returns
    a profile or an error; the walk up the Parent links in particular always
    finds the ancestor it looks for. *)
Theorem ParseSample_panics_iff (file : string) :
  Sample.ParseSample file <> Diverge /\
  ((exists e, Sample.ParseSample file = Panic e) <->
   exists st ps rate rest,
     Sample.parseHeader (Sample.ReadString file) emptyStore [] 1000000 =
       Ok (st, ps, rate, rest) /\
     (ps = [] \/
      exists raw rest' f,
        rest = raw :: rest' /\
        Sample.parseCallLine (GoStrings.TrimSpace raw) = Ok f /\
        1 <= Frame.Depth f)).
Proof.
  unfold Sample.ParseSample, Sample.readCallGraph.
  assert (H0 : headerInv emptyStore []).
  { unfold headerInv. simpl. auto. }
  pose proof (parseHeader_outcome (Sample.ReadString file) emptyStore []
                1000000 H0) as Hh.
  destruct (Sample.parseHeader (Sample.ReadString file) emptyStore [] 1000000)
    as [[[[st ps] rate] rest]|e|e|]; try contradiction.
  - destruct ps as [|process ps]; simpl.
    { split; [discriminate|]. split; [|eauto].
      intros _. exists st, [], rate, rest. auto. }
    destruct Hh as (Hf & Ht & Hpr & Hps).
    inversion Hps as [|? ? Hprocess _]; subst.
    assert (Hinv : graphInv process (Sample.mkCallGraph st None None)).
    { unfold graphInv. simpl. rewrite Hf.
      split; [intros a f Ha; discriminate Ha|].
      split; [intros a f Ha; discriminate Ha|].
      split; [intros t th Hth; rewrite Ht in Hth; discriminate Hth|].
      split; [|auto].
      intros a pr Ha. apply list_elem_of_lookup_2 in Ha.
      rewrite Forall_forall in Hpr. rewrite (Hpr pr Ha). constructor. }
    pose proof (parseCallGraph_outcome process rate rest _ Hinv) as Hg.
    assert (Hnot : (forall e,
                      Sample.parseCallGraph process rate rest
                        (Sample.mkCallGraph st None None) <> Panic e) ->
                   ~ (exists (st0 : Store) (ps0 : list ptr) (rate0 : Z)
                             (rest0 : list string),
                         Ok (st, process :: ps, rate, rest) =
                           Ok (st0, ps0, rate0, rest0) /\
                         (ps0 = [] \/
                          exists raw rest' f,
                            rest0 = raw :: rest' /\
                            Sample.parseCallLine (GoStrings.TrimSpace raw) = Ok f /\
                            1 <= Frame.Depth f))).
    { intros Hne (st0 & ps0 & rate0 & rest0 & Heq & [->|Hc]); [discriminate Heq|].
      destruct Hc as (raw & rest' & f & -> & Hparse & Hd).
      assert (E4 : rest = raw :: rest') by congruence.
      rewrite E4 in Hne.
      rewrite (parseCallGraph_panics process rate raw rest' st f Hparse Hd) in Hne.
      exact (Hne _ eq_refl). }
    destruct (Sample.parseCallGraph process rate rest
                (Sample.mkCallGraph st None None)) as [s|e|e|] eqn:Hloop;
      simpl; try contradiction.
    + pose proof (fixWeights_returns process s Hg) as Hfix.
      specialize (Hnot ltac:(intros e0; discriminate)).
      destruct (Sample.fixWeights process (Sample.store s)) as [st'|e|e|];
        simpl; try contradiction.
      * split; [discriminate|]. split; [intros (e & H); discriminate H|].
        intros H. contradiction.
      * split; [discriminate|]. split; [intros (e0 & H); discriminate H|].
        intros H. contradiction.
    + specialize (Hnot ltac:(intros e0; discriminate)).
      split; [discriminate|]. split; [intros (e0 & H); discriminate H|].
      intros H. contradiction.
    + split; [discriminate|]. split; [|eauto].
      intros _. destruct Hg as (_ & raw & rest' & f & Hr & Hparse & Hd).
      exists st, (process :: ps), rate, rest. split; [reflexivity|].
      right. exists raw, rest', f. auto.
  - simpl. split; [discriminate|].
    split; [intros (e0 & H); discriminate H|].
    intros (st & ps & rate & rest & H & _). discriminate H.
Qed.

(** The second case on an input: a frame at depth 3 right after the
    "Call graph" line. *)
Example ParseSample_frame_before_thread :
  Sample.ParseSample
    (unlines [ "Process:         P [1]"; "Call graph:"; "    + 1 foo" ]) =
  Panic nil_dereference.
Proof. vm_compute. reflexivity. Qed.


(** ** The loop of DeepCopyParser.ParseProfile *)

Lemma dropWhile_length (p : ascii -> bool) (s : string) :
  (String.length (GoStrings.dropWhile p s) <= String.length s)%nat.
Proof.
  induction s as [|c s IH]; simpl; [lia|].
  destruct (p c); simpl; lia.
Qed.

Section DeepCopyReturns.

Variable float64 : Type.
Variable ParseFloat : string -> option float64.
Variable scaledToInt64 : float64 -> Z -> Z.

Local Abbreviation parseLine := (DeepCopy.parseLine float64 ParseFloat scaledToInt64).
Local Abbreviation parseProfileLine :=
  (DeepCopy.parseProfileLine float64 ParseFloat scaledToInt64).
Local Abbreviation parseProfileLines :=
  (DeepCopy.parseProfileLines float64 ParseFloat scaledToInt64).

Lemma parseSelfWeight_returns (text : string) :
  returns (DeepCopy.parseSelfWeight float64 ParseFloat scaledToInt64 text).
Proof.
  unfold DeepCopy.parseSelfWeight.
  destruct (GoStrings.Split text " ") as [|a [|b [|c l]]]; try exact I.
  destruct (ParseFloat a); [|exact I].
  repeat (destruct (String.eqb b _); [exact I|]). exact I.
Qed.

(** parseLine returns: a line with three or four fields has the fields it
    reads.  The frame is not linked, and its depth is -1 at least. *)
Lemma parseLine_returns (line : string) :
  match parseLine line with
  | Ok f => Frame.Parent f = None /\ Frame.Children f = [] /\ -1 <= Frame.Depth f
  | Err _ => True
  | Panic _ | Diverge => False
  end.
Proof.
  unfold DeepCopy.parseLine.
  set (fields := GoStrings.Split line "009").
  assert (Hfields : (length fields = 3 \/ length fields = 4)%nat ->
            exists self lastField,
              fields !! 1%nat = Some self /\
              fields !! (length fields - 1)%nat = Some lastField).
  { intros H.
    destruct (lookup_lt_is_Some_2 fields 1 ltac:(lia)) as [self Hs].
    destruct (lookup_lt_is_Some_2 fields (length fields - 1) ltac:(lia))
      as [lastField Hl].
    eauto. }
  assert (Hdepth : forall lastField,
            0 <= GoStrings.len lastField -
                 GoStrings.len (GoStrings.TrimLeft lastField " ")).
  { intros lastField. unfold GoStrings.len, GoStrings.TrimLeft.
    pose proof (dropWhile_length (Ascii.eqb " ") lastField). lia. }
  destruct (Nat.eqb_spec (length fields) 3) as [E3|E3];
    [|destruct (Nat.eqb_spec (length fields) 4) as [E4|E4]]; simpl; try exact I.
  - destruct (Hfields ltac:(lia)) as (self & lastField & -> & ->).
    pose proof (parseSelfWeight_returns self) as Hw.
    destruct (DeepCopy.parseSelfWeight _ _ _ self); simpl; try exact I;
      try contradiction.
    split; [reflexivity|]. split; [reflexivity|].
    specialize (Hdepth lastField). lia.
  - destruct (Hfields ltac:(lia)) as (self & lastField & -> & ->).
    pose proof (parseSelfWeight_returns self) as Hw.
    destruct (DeepCopy.parseSelfWeight _ _ _ self); simpl; try exact I;
      try contradiction.
    split; [reflexivity|]. split; [reflexivity|].
    specialize (Hdepth lastField). lia.
Qed.

Lemma newThreadFromFrame_returns (f : Frame.t) :
  returns (DeepCopy.newThreadFromFrame f).
Proof.
  unfold DeepCopy.newThreadFromFrame.
  destruct (negb _); [exact I|].
  destruct (DeepCopy.threadRe _) as [[name hex]|]; exact I.
Qed.

Lemma newProcessFromFrame_returns (f : Frame.t) :
  returns (DeepCopy.newProcessFromFrame f).
Proof.
  unfold DeepCopy.newProcessFromFrame.
  destruct (negb _); [exact I|].
  destruct (DeepCopy.processRe _) as [[name digits]|]; exact I.
Qed.

Lemma lookup_alloc_old {A : Type} (arena : list A) (x y : A) (a : nat) :
  arena !! a = Some y -> (arena ++ [x]) !! a = Some y.
Proof.
  intros H. rewrite lookup_app_l; [exact H|]. eapply lookup_lt_Some; eauto.
Qed.

(** One line: from a state as the loop keeps it, and for a line that is
    not at a negative depth, the body of the loop returns. *)
Lemma parseProfileLine_step (raw : string) (s : DeepCopy.State) :
  deepCopyInv s ->
  (forall f, parseLine (GoStrings.TrimSpace raw) = Ok f -> 0 <= Frame.Depth f) ->
  match parseProfileLine raw s with
  | Ok s' => deepCopyInv s'
  | Err _ => True
  | Panic _ | Diverge => False
  end.
Proof.
  intros (Hwl & Hcl & Hproc & Hthr & Hlast) Hdepth.
  unfold DeepCopy.parseProfileLine. cbv zeta.
  destruct (GoStrings.TrimSpace raw) as [|ch rest] eqn:Hline.
  { unfold deepCopyInv. simpl. repeat split; auto. }
  set (line := String ch rest) in *.
  pose proof (parseLine_returns line) as Hparse.
  destruct s as [[fs ts ps] Ps lfp cp ct]. simpl in *.
  assert (Hlast' : forall f : Frame.t,
             match lfp with
             | None => True
             | Some l => exists lf, (fs ++ [f]) !! l = Some lf /\ anchored 2 lf
             end).
  { intros f. destruct lfp as [l|]; [|exact I].
    destruct Hlast as (lf & Hl & Ha). exists lf.
    split; [apply lookup_alloc_old, Hl|exact Ha]. }
  destruct cp as [cpa|].
  2:{ (* the line of a process *)
      destruct (_ || _).
      { unfold deepCopyInv. simpl. repeat split; auto. }
      destruct (parseLine line) as [f|e|e|]; simpl; try exact I; try contradiction.
      destruct Hparse as (HP & HC & _).
      pose proof (newProcessFromFrame_returns f) as Hnew.
      destruct (DeepCopy.newProcessFromFrame f) as [pr|e|e|]; simpl;
        try exact I; try contradiction.
      unfold deepCopyInv. simpl.
      split; [apply wellLinked_alloc; assumption|].
      split; [apply childrenLater_alloc; assumption|].
      split.
      { right. exists (length ps). split; [reflexivity|].
        rewrite length_app. simpl. lia. }
      split; [exact Hthr|]. apply Hlast'. }
  destruct Hproc as [Hproc|(cpa' & Hcpa & Hcplt)]; [discriminate Hproc|].
  inversion Hcpa; subst cpa'; clear Hcpa.
  destruct (lookup_lt_is_Some_2 ps cpa Hcplt) as [pr0 Hpr0].
  (* a new thread of the current process *)
  assert (Hthread : forall (f : Frame.t) (th : Thread.t) (lfp' : ptr),
             Frame.Parent f = None -> Frame.Children f = [] ->
             match
               (do st <- DeepCopy.appendThread
                           (set_threads (ts ++ [th])
                              (set_frames (fs ++ [f]) (mkStore fs ts ps)))
                           (Some cpa) (Some (length ts));
                Ok (DeepCopy.mkState st Ps lfp' (Some cpa) (Some (length ts))))
             with
             | Ok s' =>
                 (match lfp' with
                  | None => True
                  | Some l => exists lf, (fs ++ [f]) !! l = Some lf /\ anchored 2 lf
                  end) -> deepCopyInv s'
             | Err _ => True
             | Panic _ | Diverge => False
             end).
  { intros f th lfp' HP HC. unfold DeepCopy.appendThread. simpl.
    rewrite (update_Some _ _ _ _ Hpr0). simpl.
    intros Hl. unfold deepCopyInv. simpl.
    split; [apply wellLinked_alloc; assumption|].
    split; [apply childrenLater_alloc; assumption|].
    split.
    { right. exists cpa. split; [reflexivity|]. rewrite length_insert. exact Hcplt. }
    split; [|exact Hl].
    right. exists (length ts). split; [reflexivity|].
    rewrite length_app. simpl. lia. }
  destruct ct as [cta|].
  2:{ destruct (parseLine line) as [f|e|e|]; simpl; try exact I; try contradiction.
      destruct Hparse as (HP & HC & _).
      pose proof (newThreadFromFrame_returns f) as Hnew.
      destruct (DeepCopy.newThreadFromFrame f) as [th|e|e|]; simpl;
        try exact I; try contradiction.
      unfold allocThread, alloc. simpl.
      pose proof (Hthread f th lfp HP HC) as Ht.
      destruct (do st <- DeepCopy.appendThread _ _ _; _); try exact Ht.
      apply Ht, Hlast'. }
  destruct Hthr as [Hthr|(cta' & Hcta & Hctlt)]; [discriminate Hthr|].
  inversion Hcta; subst cta'; clear Hcta.
  destruct (lookup_lt_is_Some_2 ts cta Hctlt) as [th0 Hth0].
  specialize (Hdepth). 
  destruct (parseLine line) as [f|e|e|]; simpl; try exact I; try contradiction.
  destruct Hparse as (HP & HC & _).
  specialize (Hdepth f eq_refl).
  unfold allocFrame, alloc. simpl.
  destruct (Z.eqb_spec (Frame.Depth f) 0) as [E0|E0]; [exact I|].
  destruct (Z.eqb_spec (Frame.Depth f) 1) as [E1|E1].
  { pose proof (newThreadFromFrame_returns f) as Hnew.
    destruct (DeepCopy.newThreadFromFrame f) as [th|e|e|]; simpl;
      try exact I; try contradiction.
    unfold allocThread, alloc. simpl.
    pose proof (Hthread f th None HP HC) as Ht.
    destruct (do st <- DeepCopy.appendThread _ _ _; _); try exact Ht.
    apply Ht. exact I. }
  (* a root frame of the current thread *)
  assert (Hroot : Frame.Depth f = 2 ->
             match
               (do st <- DeepCopy.appendFrame
                           (set_frames (fs ++ [f]) (mkStore fs ts ps))
                           (Some cta) (Some (length fs));
                Ok (DeepCopy.mkState st Ps (Some (length fs)) (Some cpa)
                      (Some cta)))
             with
             | Ok s' => deepCopyInv s'
             | Err _ => True
             | Panic _ | Diverge => False
             end).
  { intros E2. unfold DeepCopy.appendFrame. simpl.
    rewrite (update_Some _ _ _ _ Hth0). simpl.
    unfold deepCopyInv. simpl.
    split; [apply wellLinked_alloc; assumption|].
    split; [apply childrenLater_alloc; assumption|].
    split; [right; exists cpa; auto|].
    split.
    { right. exists cta. split; [reflexivity|]. rewrite length_insert. exact Hctlt. }
    exists f. split.
    - rewrite lookup_app_r by lia. rewrite Nat.sub_diag. reflexivity.
    - intros ?. lia. }
  destruct lfp as [l|].
  2:{ destruct (Z.eqb_spec (Frame.Depth f) 2) as [E2|E2]; simpl; [|exact I].
      apply Hroot, E2. }
  destruct (Z.eqb_spec (Frame.Depth f) 2) as [E2|E2]; [apply Hroot, E2|].
  destruct Hlast as (lf & Hl & Hanch).
  pose proof (attach_returns 2 (DeepCopy.skipped line) fs l lf f Hwl Hcl Hl
                Hanch HP HC ltac:(lia)) as Hatt.
  destruct (DepthTree.attach (DeepCopy.skipped line) (fs ++ [f]) (Some l)
              (Some (length fs))) as [fs1|e|e|]; simpl;
    try exact I; try contradiction.
  destruct Hatt as (Hw1 & Hc1 & Hl1 & cf' & Hcf' & Hacf').
  unfold deepCopyInv. simpl.
  split; [exact Hw1|]. split; [exact Hc1|].
  split; [right; exists cpa; auto|].
  split; [right; exists cta; auto|].
  exists cf'. auto.
Qed.

Lemma parseProfileLines_returns (lines : list string) :
  forall s : DeepCopy.State,
    deepCopyInv s ->
    (forall raw f, raw ∈ lines ->
                   parseLine (GoStrings.TrimSpace raw) = Ok f ->
                   0 <= Frame.Depth f) ->
    match parseProfileLines lines s with
    | Ok s' => deepCopyInv s'
    | Err _ => True
    | Panic _ | Diverge => False
    end.
Proof.
  induction lines as [|raw rest IH]; intros s Hinv Hd; [exact Hinv|].
  simpl.
  pose proof (parseProfileLine_step raw s Hinv
                (fun f => Hd raw f ltac:(left))) as Hstep.
  destruct (parseProfileLine raw s) as [s'|e|e|]; simpl;
    try exact I; try contradiction.
  apply IH; [exact Hstep|].
  intros raw0 f Hin. apply Hd. right. exact Hin.
Qed.

End DeepCopyReturns.

(** DeepCopyParser.ParseProfile returns a profile or an error, and neither
    panics nor runs on, on every input in which no line is at depth -1 (a
    line of three fields whose symbol name has no space before it): the walk
    up the Parent links then always finds the ancestor one level above the
    new frame. *)
Theorem DeepCopy_ParseProfile_returns
    (float64 : Type) (ParseFloat : string -> option float64)
    (scaledToInt64 : float64 -> Z -> Z) (lines : list string) :
  (forall raw f,
      raw ∈ lines ->
      DeepCopy.parseLine float64 ParseFloat scaledToInt64
        (GoStrings.TrimSpace raw) = Ok f ->
      0 <= Frame.Depth f) ->
  returns (DeepCopy.ParseProfile float64 ParseFloat scaledToInt64 lines).
Proof.
  intros Hd. unfold DeepCopy.ParseProfile.
  assert (Hinv : deepCopyInv (DeepCopy.mkState emptyStore [] None None None)).
  { unfold deepCopyInv. simpl.
    split; [intros a f Ha; discriminate Ha|].
    split; [intros a f Ha; discriminate Ha|]. auto. }
  pose proof (parseProfileLines_returns float64 ParseFloat scaledToInt64 lines
                _ Hinv Hd) as H.
  destruct (DeepCopy.parseProfileLines _ _ _ lines _); simpl; auto.
Qed.

Lemma DeepCopy_ParseProfile_returns_witness :
  (forall raw f,
      raw ∈ walkDeepCopy ->
      DeepCopy.parseLine Z (fun _ => Some 0) Z.mul (GoStrings.TrimSpace raw) = Ok f ->
      0 <= Frame.Depth f) /\
  returns (DeepCopy.ParseProfile Z (fun _ => Some 0) Z.mul walkDeepCopy).
Proof.
  assert (H : forall raw f,
             raw ∈ walkDeepCopy ->
             DeepCopy.parseLine Z (fun _ => Some 0) Z.mul
               (GoStrings.TrimSpace raw) = Ok f ->
             0 <= Frame.Depth f).
  { intros raw f Hin. unfold walkDeepCopy in Hin.
    repeat (apply elem_of_cons in Hin as [->|Hin];
            [intros H; vm_compute in H; injection H as <-; simpl; lia|]).
    apply elem_of_nil in Hin. contradiction. }
  split; [exact H|].
  exact (DeepCopy_ParseProfile_returns Z (fun _ => Some 0) Z.mul
           walkDeepCopy H).
Defined.

(** The walk on [walkDeepCopy]: [qux] is the second child of [foo]. *)
Example DeepCopy_parent_walk :
  mapOutcome profileTree
    (DeepCopy.ParseProfile Z (fun _ => Some 0) Z.mul walkDeepCopy) =
  Ok [ ProcessNode "Main Process" 123
         [ ThreadNode "Thread 1" 7911
             [ FrameNode "foo" 2 0
                 [ FrameNode "bar" 3 0 [ FrameNode "baz" 4 0 [] ];
                   FrameNode "qux" 3 0 [] ] ] ] ].
Proof. vm_compute. reflexivity. Qed.

(** A thread line starts a new thread with its own frames; a process line
    inside a process is an error. *)
Example DeepCopy_second_thread :
  mapOutcome profileTree
    (DeepCopy.ParseProfile Z (fun _ => Some 0) Z.mul twoThreadDeepCopy) =
  Ok [ ProcessNode "Main Process" 123
         [ ThreadNode "Thread 1" 7911
             [ FrameNode "foo" 2 0 [ FrameNode "bar" 3 0 [] ] ];
           ThreadNode "Thread 2" 32481 [ FrameNode "spin" 2 0 [] ] ] ].
Proof. vm_compute. reflexivity. Qed.

Example DeepCopy_process_line_in_process :
  DeepCopy.ParseProfile Z (fun _ => Some 0) Z.mul nestedProcessDeepCopy =
  Err ("Unexpected new process, should have occurred after header line " +:+
       deepCopyLine "0 s  100%" "0 s" "Other Process (456)").
Proof. vm_compute. reflexivity. Qed.

(** A line that ends in a tab and a no-break space has three fields once
    it is trimmed, as it has for strings.TrimSpace: with no space before
    [bar] the depth is -1, and the parent walk panics. *)
Example DeepCopy_trims_unicode_space :
  DeepCopy.ParseProfile Z (fun _ => Some 0) Z.mul
    [ deepCopyLine "0 s  100%" "0 s" "Main Process (123)";
      deepCopyLine "0 s  50%" "0 s" " Thread 1  0x1ee7";
      deepCopyLine "0 s  50%" "0 s" "  foo";
      "0 s  50%" +:+ GoStrings.tab +:+ "0 s" +:+ GoStrings.tab +:+ "bar" +:+
      GoStrings.tab +:+ noBreakSpace ] =
  Panic nil_dereference.
Proof. vm_compute. reflexivity. Qed.


(** ** The collapsed parser *)

Lemma LastIndex_bounds (s : string) (sep : ascii) :
  -1 <= GoStrings.LastIndex s sep < GoStrings.len s.
Proof.
  unfold GoStrings.len.
  induction s as [|c s IH]; simpl String.length; simpl GoStrings.LastIndex; [lia|].
  destruct (Z.leb_spec 0 (GoStrings.LastIndex s sep)); [lia|].
  destruct (Ascii.eqb c sep); lia.
Qed.

Lemma slice_count (line : string) :
  GoStrings.slice line (GoStrings.LastIndex line " " + 1) (GoStrings.len line) =
  Ok (countText line).
Proof.
  pose proof (LastIndex_bounds line " ") as H.
  unfold GoStrings.slice, countText. fold (GoStrings.len line).
  destruct (Z.leb_spec 0 (GoStrings.LastIndex line " " + 1)); [|lia].
  destruct (Z.leb_spec (GoStrings.LastIndex line " " + 1) (GoStrings.len line));
    [|lia].
  destruct (Z.leb_spec (GoStrings.len line) (GoStrings.len line)); [|lia].
  reflexivity.
Qed.

Lemma slice_stack (line : string) :
  GoStrings.slice line 0 (GoStrings.LastIndex line " ") =
  if GoStrings.LastIndex line " " <? 0 then Panic slice_out_of_range
  else Ok (stackText line).
Proof.
  pose proof (LastIndex_bounds line " ") as H.
  unfold GoStrings.slice, stackText. fold (GoStrings.len line).
  destruct (Z.ltb_spec (GoStrings.LastIndex line " ") 0) as [Hlt|Hge].
  - destruct (Z.leb_spec 0 (GoStrings.LastIndex line " ")); [lia|]. reflexivity.
  - destruct (Z.leb_spec 0 (GoStrings.LastIndex line " ")); [|lia].
    destruct (Z.leb_spec (GoStrings.LastIndex line " ") (GoStrings.len line));
      [|lia].
    simpl. rewrite Z.sub_0_r. reflexivity.
Qed.

Lemma buildFrames_prefix (funs : list string) :
  forall (index : Z) (pre : list Frame.t) (g : Frame.t),
  exists more,
    (buildFrames funs index pre g).1 = pre ++ more /\
    length more = length funs.
Proof.
  induction funs as [|n rest IH]; intros index pre g; simpl.
  - exists []. rewrite app_nil_r. auto.
  - destruct (IH (index + 1)
                (pre ++ [Frame.set_Children
                           (Frame.Children g ++ [Some (S (length pre))]) g])
                (Frame.mk (Some (length pre)) [] 0 n index))
      as (more & -> & Hlen).
    eexists. rewrite <- app_assoc. split; [reflexivity|].
    simpl. rewrite Hlen. reflexivity.
Qed.

(** The loop of parseCallLine, from a store whose last frame is the one the
    loop starts at. *)
Lemma buildStack_spec (funs : list string) :
  forall (index : Z) (pre : list Frame.t) (g : Frame.t) (st : Store),
    frames st = pre ++ [g] ->
    Collapsed.buildStack funs index (Some (length pre)) st =
    Ok (Some (length (buildFrames funs index pre g).1),
        set_frames ((buildFrames funs index pre g).1 ++
                    [(buildFrames funs index pre g).2]) st).
Proof.
  induction funs as [|n rest IH]; intros index pre g st Hst; simpl.
  - rewrite <- Hst. destruct st; reflexivity.
  - unfold allocFrame, alloc. simpl. rewrite Hst.
    set (c := Frame.mk None [] 0 n index).
    assert (Hq : ((pre ++ [g]) ++ [c]) !! length pre = Some g).
    { rewrite <- app_assoc. rewrite lookup_app_r by lia.
      rewrite Nat.sub_diag. reflexivity. }
    assert (Hc : ((pre ++ [g]) ++ [c]) !! length (pre ++ [g]) = Some c).
    { rewrite lookup_app_r by lia. rewrite Nat.sub_diag. reflexivity. }
    assert (Hne : length pre <> length (pre ++ [g])).
    { rewrite length_app. simpl. lia. }
    rewrite (appendChild_Some _ _ _ _ _ Hq Hc Hne). simpl.
    set (g1 := Frame.set_Children _ g).
    assert (Hfs : <[length (pre ++ [g]) := Frame.set_Parent (Some (length pre)) c]>
                    (<[length pre := g1]> ((pre ++ [g]) ++ [c])) =
                  (pre ++ [g1]) ++ [Frame.mk (Some (length pre)) [] 0 n index]).
    { rewrite <- (app_assoc pre [g] [c]).
      rewrite (insert_app_r_alt pre _ (length pre)) by lia.
      rewrite Nat.sub_diag. simpl.
      replace (pre ++ [g1; c]) with ((pre ++ [g1]) ++ [c])
        by (rewrite <- app_assoc; reflexivity).
      replace (length (pre ++ [g])) with (length (pre ++ [g1]))
        by (rewrite !length_app; reflexivity).
      rewrite (insert_app_r_alt (pre ++ [g1]) _ (length (pre ++ [g1]))) by lia.
      rewrite Nat.sub_diag. reflexivity. }
    rewrite Hfs.
    replace (length (pre ++ [g])) with (length (pre ++ [g1]))
      by (rewrite !length_app; reflexivity).
    assert (Hlen1 : length (pre ++ [g1]) = S (length pre))
      by (rewrite length_app; simpl; lia).
    rewrite (IH (index + 1) (pre ++ [g1])
               (Frame.mk (Some (length pre)) [] 0 n index)
               (set_frames ((pre ++ [g1]) ++
                            [Frame.mk (Some (length pre)) [] 0 n index])
                  (set_frames ((pre ++ [g]) ++ [c]) st)) eq_refl).
    unfold g1.
    replace (length (pre ++ [g])) with (S (length pre))
      by (rewrite length_app; simpl; lia).
    destruct st; reflexivity.
Qed.

(** The frames of a stack, read as a tree from its outermost frame. *)
Lemma buildFrames_tree (w : Z) (funs : list string) :
  forall (index : Z) (pre : list Frame.t) (g : Frame.t) (ext : list Frame.t)
         (fuel : nat),
    Frame.Children g = [] -> Frame.SelfWeightNs g = 0 ->
    index = Frame.Depth g + 1 ->
    (length funs < fuel)%nat ->
    frameTree fuel
      (((buildFrames funs index pre g).1 ++
        [Frame.set_SelfWeightNs w (buildFrames funs index pre g).2]) ++ ext)
      (Some (length pre)) =
    stackTree (Frame.SymbolName g :: funs) (Frame.Depth g) w.
Proof.
  induction funs as [|n rest IH]; intros index pre g ext fuel HC HW Hidx Hfuel;
    (destruct fuel as [|fuel]; [simpl in Hfuel; lia|]).
  - simpl. rewrite <- app_assoc. rewrite lookup_app_r by lia.
    rewrite Nat.sub_diag. simpl. rewrite HC. reflexivity.
  - simpl buildFrames.
    set (g1 := Frame.set_Children _ g).
    set (g2 := Frame.mk (Some (length pre)) [] 0 n index).
    destruct (buildFrames_prefix rest (index + 1) (pre ++ [g1]) g2)
      as (more & Hpre & _).
    assert (Hroot : (((buildFrames rest (index + 1) (pre ++ [g1]) g2).1 ++
                      [Frame.set_SelfWeightNs w
                         (buildFrames rest (index + 1) (pre ++ [g1]) g2).2]) ++
                     ext) !! length pre = Some g1).
    { rewrite Hpre. rewrite <- !app_assoc. rewrite lookup_app_r by lia.
      rewrite Nat.sub_diag. reflexivity. }
    change (frameTree (S fuel) ?fs (Some ?a)) with
      (match fs !! a with
       | None => NilFrame
       | Some f =>
           FrameNode (Frame.SymbolName f) (Frame.Depth f) (Frame.SelfWeightNs f)
             (map (frameTree fuel fs) (Frame.Children f))
       end).
    assert (Hn1 : Frame.SymbolName g1 = Frame.SymbolName g) by reflexivity.
    assert (Hd1 : Frame.Depth g1 = Frame.Depth g) by reflexivity.
    assert (Hw1 : Frame.SelfWeightNs g1 = 0) by exact HW.
    assert (Hc1 : Frame.Children g1 = [Some (length (pre ++ [g1]))]).
    { unfold g1 at 1. simpl. rewrite HC, length_app. simpl.
      replace (length pre + 1)%nat with (S (length pre)) by lia. reflexivity. }
    rewrite Hroot, Hn1, Hd1, Hw1, Hc1. simpl map.
    rewrite (IH (index + 1) (pre ++ [g1]) g2 ext fuel eq_refl eq_refl
               ltac:(simpl; lia) ltac:(simpl in Hfuel; lia)).
    simpl. rewrite <- Hidx. reflexivity.
Qed.

Lemma Split_cons (s : string) (sep : ascii) :
  exists p ps, GoStrings.Split s sep = p :: ps.
Proof.
  pose proof (Split_length_pos s sep) as H.
  destruct (GoStrings.Split s sep) as [|p ps]; [simpl in H; lia|eauto].
Qed.

(** parseCallLine on a line: nothing for a line without a count, a panic
    for a bare count, and else the frames of the stack after the frames
    that were there. *)
Lemma Collapsed_parseCallLine_spec (line : string) (st : Store) :
  Collapsed.parseCallLine line st =
  match GoStrconv.ParseInt (countText line) with
  | (_, Some _) => Ok (None, None, st)
  | (w, None) =>
      if GoStrings.LastIndex line " " <? 0 then Panic slice_out_of_range
      else
        match GoStrings.Split (stackText line) ";" with
        | [] => Ok (None, Some "Error parsing function names.", st)
        | fun0 :: funs =>
            let b := buildFrames funs 1 (frames st) (Frame.mk None [] 0 fun0 0) in
            Ok (Some (length (frames st)), None,
                set_frames (b.1 ++ [Frame.set_SelfWeightNs w b.2]) st)
        end
  end.
Proof.
  unfold Collapsed.parseCallLine. cbv zeta.
  rewrite slice_count. simpl.
  destruct (GoStrconv.ParseInt (countText line)) as [w [e|]]; [reflexivity|].
  rewrite slice_stack.
  destruct (GoStrings.LastIndex line " " <? 0); [reflexivity|]. simpl.
  destruct (GoStrings.Split (stackText line) ";") as [|fun0 funs]; [reflexivity|].
  unfold allocFrame, alloc. simpl.
  rewrite (buildStack_spec funs 1 (frames st) (Frame.mk None [] 0 fun0 0)
             (set_frames (frames st ++ [Frame.mk None [] 0 fun0 0]) st) eq_refl).
  simpl.
  set (b := buildFrames funs 1 (frames st) (Frame.mk None [] 0 fun0 0)).
  rewrite (update_Some _ (length b.1) b.2).
  - simpl. rewrite insert_app_r_alt by lia. rewrite Nat.sub_diag.
    destruct st; reflexivity.
  - rewrite lookup_app_r by lia. rewrite Nat.sub_diag. reflexivity.
Qed.

Lemma stableTree_nil (fs : list Frame.t) : stableTree fs None NilFrame.
Proof. intros ext [|fuel] _; reflexivity. Qed.

Lemma stableTree_app (fs more : list Frame.t) (p : ptr) (t : FrameTree) :
  stableTree fs p t -> stableTree (fs ++ more) p t.
Proof.
  intros H ext fuel Hfuel. rewrite <- app_assoc. apply H.
  rewrite length_app in Hfuel. lia.
Qed.

(** The loop of ParseProfile on a store with one thread. *)
Lemma Collapsed_parseLines_spec (lines : list string) :
  forall (fs : list Frame.t) (th : Thread.t) (ps : list Process.t),
    match Collapsed.parseLines lines (Some 0%nat) (mkStore fs [th] ps) with
    | Ok st' =>
        existsb bareCount lines = false /\ procs st' = ps /\
        exists roots ext,
          threads st' = [Thread.set_Frames (Thread.Frames th ++ roots) th] /\
          frames st' = fs ++ ext /\
          Forall2 (stableTree (frames st')) roots (map lineTree lines)
    | Panic e => existsb bareCount lines = true /\ e = slice_out_of_range
    | Err _ | Diverge => False
    end.
Proof.
  induction lines as [|line rest IH]; intros fs th ps.
  { simpl. split; [reflexivity|]. split; [reflexivity|].
    exists [], []. rewrite !app_nil_r. destruct th. simpl.
    split; [reflexivity|]. split; [reflexivity|]. constructor. }
  assert (Htail : forall (root : ptr) (ext1 : list Frame.t) (t : FrameTree),
             stableTree (fs ++ ext1) root t ->
             match
               (do ts <- update [th] (Some 0%nat)
                           (fun t0 => Thread.set_Frames
                                        (Thread.Frames t0 ++ [root]) t0);
                Collapsed.parseLines rest (Some 0%nat)
                  (mkStore (fs ++ ext1) ts ps))
             with
             | Ok st' =>
                 existsb bareCount rest = false /\ procs st' = ps /\
                 exists roots ext,
                   threads st' = [Thread.set_Frames (Thread.Frames th ++ roots) th] /\
                   frames st' = fs ++ ext /\
                   Forall2 (stableTree (frames st')) roots (t :: map lineTree rest)
             | Panic e => existsb bareCount rest = true /\ e = slice_out_of_range
             | Err _ | Diverge => False
             end).
  { intros root ext1 t Ht. simpl.
    pose proof (IH (fs ++ ext1)
                  (Thread.set_Frames (Thread.Frames th ++ [root]) th) ps) as H.
    destruct (Collapsed.parseLines rest (Some 0%nat) _) as [st'|e|e|];
      try exact H.
    destruct H as (Hb & Hp & roots & ext & Hts & Hfs & Hall).
    split; [exact Hb|]. split; [exact Hp|].
    exists (root :: roots), (ext1 ++ ext).
    split; [rewrite Hts; simpl; rewrite <- app_assoc; reflexivity|].
    split; [rewrite Hfs, <- app_assoc; reflexivity|].
    constructor; [|exact Hall].
    rewrite Hfs. apply stableTree_app, Ht. }
  unfold Collapsed.parseLines; fold Collapsed.parseLines.
  rewrite Collapsed_parseCallLine_spec.
  simpl existsb. simpl map.
  destruct (GoStrconv.ParseInt (countText line)) as [w [e|]] eqn:HP.
  - assert (Hb : bareCount line = false).
    { unfold bareCount. rewrite HP. apply andb_false_r. }
    assert (Hl : lineTree line = NilFrame).
    { unfold lineTree. rewrite HP. reflexivity. }
    rewrite Hb, Hl. simpl orb. cbn [bind].
    pose proof (Htail None [] NilFrame (stableTree_nil _)) as H.
    rewrite app_nil_r in H. exact H.
  - destruct (GoStrings.LastIndex line " " <? 0) eqn:Hsep.
    { assert (Hb : bareCount line = true).
      { unfold bareCount. rewrite HP, Hsep. reflexivity. }
      rewrite Hb. simpl. auto. }
    assert (Hb : bareCount line = false).
    { unfold bareCount. rewrite Hsep. reflexivity. }
    assert (Hl : lineTree line =
                 stackTree (GoStrings.Split (stackText line) ";") 0 w).
    { unfold lineTree. rewrite HP. reflexivity. }
    rewrite Hb, Hl. simpl orb.
    destruct (Split_cons (stackText line) ";") as (fun0 & funs & ->).
    cbv zeta. cbn [bind].
    destruct (buildFrames_prefix funs 1 fs (Frame.mk None [] 0 fun0 0))
      as (more & Hpre & Hlen).
    simpl frames.
    set (b := buildFrames funs 1 fs (Frame.mk None [] 0 fun0 0)) in *.
    assert (Hfs : b.1 ++ [Frame.set_SelfWeightNs w b.2] =
                  fs ++ (more ++ [Frame.set_SelfWeightNs w b.2])).
    { rewrite Hpre, <- app_assoc. reflexivity. }
    pose proof (Htail (Some (length fs))
                  (more ++ [Frame.set_SelfWeightNs w b.2])
                  (stackTree (fun0 :: funs) 0 w)) as H.
    rewrite <- Hfs in H. apply H.
    intros ext fuel Hfuel.
    apply (buildFrames_tree w funs 1 fs (Frame.mk None [] 0 fun0 0) ext fuel);
      try reflexivity.
    rewrite length_app, Hpre, length_app in Hfuel. simpl in Hfuel. lia.
Qed.

(** The collapsed parser as a function of its lines.  ParseProfile panics,
    on a slice bound, when a line has no space in it and is a decimal
    integer.  On every other input it returns, never with an error, one
    process with one thread that has one entry per line: nil for a line
    whose text after the last space is not an integer, and else the stack of
    the line, one frame per name between semicolons, each the only child of
    the one before it, with the count as the weight of the innermost frame
    and zero as the weight of the others. *)
Theorem Collapsed_ParseProfile_spec (lines : list string) :
  mapOutcome profileTree (Collapsed.ParseProfile lines) =
  if existsb bareCount lines then Panic slice_out_of_range
  else Ok [ ProcessNode "" 0 [ ThreadNode "" 0 (map lineTree lines) ] ].
Proof.
  unfold Collapsed.ParseProfile, allocProcess, allocThread, alloc. simpl.
  change (set_procs _ _) with
    (mkStore [] [Thread.mk EmptyString 0 []]
       [Process.mk EmptyString 0 [Some 0%nat]]).
  pose proof (Collapsed_parseLines_spec lines []
                (Thread.mk EmptyString 0 [])
                [Process.mk EmptyString 0 [Some 0%nat]]) as H.
  destruct (Collapsed.parseLines lines (Some 0%nat) _) as [st'|e|e|];
    try contradiction.
  - destruct H as (-> & Hp & roots & ext & Hts & Hfs & Hall).
    assert (Htrees : map (frameTree (S (length (frames st'))) (frames st')) roots =
                     map lineTree lines).
    { clear - Hall. revert Hall. generalize (map lineTree lines) as trees.
      intros trees Hall.
      induction Hall as [|p t roots trees Hp Hall IH]; [reflexivity|].
      cbn [map]. rewrite IH. f_equal.
      specialize (Hp [] (S (length (frames st'))) ltac:(lia)).
      rewrite app_nil_r in Hp. exact Hp. }
    cbn [bind mapOutcome]. unfold profileTree. cbn [fst snd TimeProfile.Processes map].
    unfold processTree. rewrite Hp. cbn [lookup list_lookup].
    cbn [Process.Name Process.Pid Process.Threads map].
    unfold threadTree. rewrite Hts. cbn [lookup list_lookup].
    unfold threadTrees.
    cbn [Thread.Name Thread.Tid Thread.Frames Thread.set_Frames app].
    rewrite Htrees. reflexivity.
  - destruct H as (-> & ->). reflexivity.
Qed.

(** The two sides on inputs: the lines of TestLineParsing, and a line that
    is a count and nothing else. *)
Example Collapsed_lineTree_test :
  map lineTree collapsedTest =
  [ FrameNode "Bar" 0 0 [ FrameNode "Baz" 1 2 [] ]; FrameNode "Foo" 0 2 [] ].
Proof. vm_compute. reflexivity. Qed.

Example Collapsed_bare_count :
  bareCount "42" = true /\
  Collapsed.ParseProfile [ "Bar;Baz 2"; "42" ] = Panic slice_out_of_range.
Proof. vm_compute. split; reflexivity. Qed.


(** ** ProcessAnnotationMap.Set *)

(** Decimal digits, read back. *)
Lemma digitsFrom_of_uint_acc (d : Decimal.uint) :
  forall acc : positive,
    GoStrconv.digitsFrom 10 (N.pos acc) (DecimalString.NilEmpty.string_of_uint d) =
    Some (N.pos (Pos.of_uint_acc d acc)).
Proof.
  induction d; intros acc; simpl; try reflexivity;
    (etransitivity; [|apply IHd]); f_equal; lia.
Qed.

Lemma digitsFrom_of_uint (d : Decimal.uint) :
  GoStrconv.digitsFrom 10 0 (DecimalString.NilEmpty.string_of_uint d) =
  Some (Pos.of_uint d).
Proof.
  induction d; simpl; try reflexivity; try exact IHd;
    apply digitsFrom_of_uint_acc.
Qed.

Lemma FormatUint_digits (n : N) :
  exists d, d <> Decimal.Nil /\
            GoStrconv.FormatUint n = DecimalString.NilEmpty.string_of_uint d /\
            Pos.of_uint d = n.
Proof.
  exists (N.to_uint n). split; [|split].
  - destruct n as [|p]; [discriminate|]. apply DecimalPos.Unsigned.to_uint_nonnil.
  - unfold GoStrconv.FormatUint, DecimalString.NilZero.string_of_uint.
    destruct (N.to_uint n) eqn:E; try reflexivity.
    destruct n as [|p]; [discriminate E|].
    exfalso. exact (DecimalPos.Unsigned.to_uint_nonnil p E).
  - apply DecimalN.Unsigned.of_to.
Qed.

(** strconv.ParseUint reads back what the verb %d has written. *)
Lemma ParseUint_FormatUint (n : N) :
  (n <= GoStrconv.uint64_max)%N ->
  GoStrconv.ParseUint (GoStrconv.FormatUint n) 10 = (n, None).
Proof.
  intros Hn. destruct (FormatUint_digits n) as (d & Hd & -> & Hof).
  unfold GoStrconv.ParseUint.
  rewrite digitsFrom_of_uint, Hof.
  destruct (N.leb_spec n GoStrconv.uint64_max); [|lia].
  destruct d; try reflexivity. congruence.
Qed.

Lemma SplitN2_digits (d : Decimal.uint) (a : string) :
  ProcessAnnotationMap.SplitN2
    (DecimalString.NilEmpty.string_of_uint d +:+ ":" +:+ a) ":" =
  [DecimalString.NilEmpty.string_of_uint d; a].
Proof.
  induction d; simpl; try reflexivity; rewrite IHd; reflexivity.
Qed.

Lemma SplitN2_cases (s : string) :
  (noColon s /\ ProcessAnnotationMap.SplitN2 s ":" = [s]) \/
  (~ noColon s /\ exists p a, ProcessAnnotationMap.SplitN2 s ":" = [p; a]).
Proof.
  unfold noColon.
  induction s as [|c s IH]; simpl.
  - left. split; [apply not_elem_of_nil|reflexivity].
  - destruct (Ascii.eqb_spec c ":") as [->|Hne].
    + right. split; [|eauto]. intros H. apply H. left.
    + destruct IH as [(Hno & ->)|(Hyes & p & a & ->)].
      * left. split; [|reflexivity].
        apply not_elem_of_cons. split; [congruence|exact Hno].
      * right. split; [|eauto].
        intros H. apply Hyes. apply not_elem_of_cons in H as [_ H]. exact H.
Qed.

(** Set on the text that the verb %d gives for a pid, a colon and an
    annotation: the annotation, with every colon it may hold itself, is
    stored under the pid, unless the pid has one already; then the call
    returns the error that names the one it has, and the map stays. *)
Theorem Set_round_trip (m : ProcessAnnotationMap.t) (pid : N)
    (annotation : string) :
  (pid <= GoStrconv.uint64_max)%N ->
  ProcessAnnotationMap.Set_ m
    (GoStrconv.FormatUint pid +:+ ":" +:+ annotation) =
  match m !! pid with
  | Some old =>
      Err ("Duplicate annotation found on pid " +:+ GoStrconv.FormatUint pid
           +:+ ": " +:+ old)
  | None => Ok (<[pid := annotation]> m)
  end.
Proof.
  intros Hpid.
  pose proof (ParseUint_FormatUint pid Hpid) as Hparse.
  destruct (FormatUint_digits pid) as (d & Hd & Hfmt & Hof).
  unfold ProcessAnnotationMap.Set_.
  rewrite Hfmt, SplitN2_digits. simpl lookup. cbv iota beta.
  rewrite <- Hfmt, Hparse. reflexivity.
Qed.

Lemma Set_round_trip_witness :
  (123 <= GoStrconv.uint64_max)%N /\
  ProcessAnnotationMap.Set_ (<[7%N := "seven"]> ∅)
    (GoStrconv.FormatUint 123 +:+ ":" +:+ "My:Annotation") =
  Ok (<[123%N := "My:Annotation"]> (<[7%N := "seven"]> ∅)) /\
  ProcessAnnotationMap.Set_ (<[123%N := "old"]> ∅)
    (GoStrconv.FormatUint 123 +:+ ":" +:+ "My:Annotation") =
  Err "Duplicate annotation found on pid 123: old".
Proof.
  assert (H : (123 <= GoStrconv.uint64_max)%N) by (vm_compute; discriminate).
  split; [exact H|]. split.
  - rewrite (Set_round_trip (<[7%N := "seven"]> ∅) 123 "My:Annotation" H).
    reflexivity.
  - rewrite (Set_round_trip (<[123%N := "old"]> ∅) 123 "My:Annotation" H).
    reflexivity.
Defined.

(** Set panics, on index 1 of a slice of length 1, exactly for a value that
    holds no colon and is a decimal uint64: the pid is parsed before the
    annotation is looked for.  A value without a colon that is no number
    returns the error of strconv. *)
Theorem Set_panics_iff (m : ProcessAnnotationMap.t) (value : string) :
  (exists e, ProcessAnnotationMap.Set_ m value = Panic e) <->
  (noColon value /\ (GoStrconv.ParseUint value 10).2 = None).
Proof.
  unfold ProcessAnnotationMap.Set_.
  destruct (SplitN2_cases value) as [(Hno & ->)|(Hyes & p & a & ->)];
    simpl lookup; cbv iota beta.
  - destruct (GoStrconv.ParseUint value 10) as [pid [e|]]; simpl.
    + split; [intros (e0 & H); discriminate H|intros (_ & H); discriminate H].
    + split; [auto|eauto].
  - split; [|intros (H & _); contradiction].
    intros (e0 & H). exfalso.
    destruct (GoStrconv.ParseUint p 10) as [pid [e|]]; [discriminate H|].
    destruct (m !! pid); discriminate H.
Qed.

Example Set_pid_alone_panics :
  ProcessAnnotationMap.Set_ ∅ "123" = Panic index_out_of_range.
Proof. reflexivity. Qed.
